(** * vTAXI: the taxiway network indexer and the waypoint router

    A shallow embedding of [vtaxi/core/airport_process.py] (the indexer,
    the node classifier and the two exporters) and of
    [vtaxi/core/pathfinder.py] (the loader and the waypoint router), with
    the properties of the design document stated over it.

    Conventions.
    - Python [float] is IEEE binary64: it is Rocq's primitive [float], with
      the same addition and comparisons.
    - Python [str] is [string], one character of the [string] per
      character (code point) of the [str]: the type holds the strings
      over the code points below 256, and on these every operation the
      code applies to a [str] ([==], [<], iteration, [isdigit], [lower],
      [in]) is given as Python computes it. A character above 127 is
      written by its code: [²] is [Ascii.ascii_of_nat 178], one
      character, not the two bytes of its UTF-8 encoding.
    - A [dict] that the code iterates is an association list in insertion
      order; a [dict] that is only indexed is a [gmap]; a [set] is a [gset].
    - A Python exception is the [Raised] outcome; the one unbounded loop
      (the search of [dijkstra_multi_target]) runs on fuel.
    - The router is given twice. [Pathfinder] has its methods as functions
      of the loaded [Airport]; the properties of the routes are stated on
      these. [Stateful] has them as methods that read and write the
      attributes of [self], statement by statement; the frame of
      [find_path] is stated on these, and [find_path_run] and
      [load_data_written] relate the two. *)

From Stdlib Require Import PrimFloat.
From Stdlib Require FloatAxioms SpecFloat DecimalString DecimalNat.
From stdpp Require Import gmap strings list fin_maps.
From stdpp Require Import sorting.

(** ** Outcomes of Python code *)

Inductive exn := KeyError | ValueError | IndexError | StopIteration.

Inductive outcome (A : Type) :=
| Returned (a : A)
| Raised (e : exn)
| OutOfFuel.
Arguments Returned {A} a.
Arguments Raised {A} e.
Arguments OutOfFuel {A}.

#[global] Instance outcome_ret : MRet outcome := λ A, Returned.
#[global] Instance outcome_bind : MBind outcome := λ A B f m,
  match m with
  | Returned a => f a
  | Raised e => Raised e
  | OutOfFuel => OutOfFuel
  end.

(** [d[k]] on a dict that is only indexed. *)
Definition getitem {V} (d : gmap string V) (k : string) : outcome V :=
  match d !! k with
  | Some v => Returned v
  | None => Raised KeyError
  end.

(** [d[k]] and [d.get(k)] on a dict kept in insertion order. *)
Fixpoint dict_get {V} (d : list (string * V)) (k : string) : option V :=
  match d with
  | [] => None
  | (k', v) :: d' => if decide (k = k') then Some v else dict_get d' k
  end.

Definition dict_getitem {V} (d : list (string * V)) (k : string) : outcome V :=
  match dict_get d k with
  | Some v => Returned v
  | None => Raised KeyError
  end.

(** [d[k] = v]: an existing key keeps its place, a new key goes last. *)
Fixpoint dict_set {V} (d : list (string * V)) (k : string) (v : V)
  : list (string * V) :=
  match d with
  | [] => [(k, v)]
  | (k', v') :: d' =>
      if decide (k = k') then (k, v) :: d' else (k', v') :: dict_set d' k v
  end.

(** Truth value of a [str]. *)
Definition truthy (s : string) : bool := negb (String.eqb s "").

(** A loop body that may raise, run over a list from the left. *)
Fixpoint foldl_outcome {A B} (f : A → B → outcome A) (a : A) (l : list B)
  : outcome A :=
  match l with
  | [] => Returned a
  | x :: l' => a' ← f a x; foldl_outcome f a' l'
  end.

(** ** The two persisted files *)

(** A JSON value that is only passed through. *)
#[local] Unset Elimination Schemes.
Inductive json :=
| JNull
| JBool (b : bool)
| JNumber (f : float)
| JString (s : string)
| JArray (l : list json)
| JObject (l : list (string * json)).
#[local] Set Elimination Schemes.

(** [LFPO.json], the airport configuration document. *)
Module Config.

Record Gate := {
  gate_id : string;
  node_id : string;
  coordinates : float * float;
  heading : float;
  segment_id : string
}.

Record Terminal := { gates : list Gate }.

(** An element of an ["entrances"] or ["exits"] array. The exporter
    writes a bare name (["W41"]); the router reads a two-element array
    ([["W41", "N00012"]]). *)
Inductive RunwayPoint :=
| Name (name : string)
| NameNode (name : string) (node_id : string).

Record RunwayConfiguration := {
  departure : string;
  arrival : string;
  entrances : list RunwayPoint;
  exits : list RunwayPoint;
  alternates : string * string
}.

Record ParkingPosition := {
  exit_taxiway : option string;
  attributes : list (string * json)
}.

(** The object under ["gates"] has the two keys ["terminals"] and
    ["total_count"]; they are fields of the document here. *)
Record Document := {
  airport_code : string;
  name : string;
  runways : json;
  terminals : list (string * Terminal);
  total_count : nat;
  parking_positions : list (string * ParkingPosition);
  runway_configurations : list (string * RunwayConfiguration)
}.

End Config.

(** [LFPO.geojson], the network file: a list of features. *)
Module GeoJSON.

Record LineProperties := {
  segment_id : string;
  name : option string;
  segment_type : option string;
  start_node : string;
  end_node : string;
  length : float;
  heading : float
}.

Record PointProperties := {
  node_id : string;
  node_type : string;
  connected_segments : list string;
  gate_info : option (string * float * string)
}.

Inductive Feature :=
| LineString (coordinates : list (float * float)) (properties : LineProperties)
| Point (coordinates : float * float) (properties : PointProperties).

End GeoJSON.

(** ** The router: [pathfinder.py] *)
Module Pathfinder.

Inductive MovementType := ARRIVAL | DEPARTURE.

#[global] Instance MovementType_eq_dec : EqDecision MovementType.
Proof. solve_decision. Defined.

Record TaxiSegment := {
  segment_id : string;
  name : string;
  start_node : string;
  end_node : string;
  length : float;
  segment_type : string
}.

Record TaxiPath := {
  segments : list string;
  total_distance : float;
  waypoints : list string
}.

Definition TaxiPath_init : TaxiPath :=
  {| segments := []; total_distance := 0; waypoints := [] |}.

Definition add_segment (self : TaxiPath) (sid : string) (distance : float)
  : TaxiPath :=
  {| segments := segments self ++ [sid];
     total_distance := (total_distance self + distance)%float;
     waypoints := waypoints self |}.

Definition add_waypoint (self : TaxiPath) (node : string) : TaxiPath :=
  {| segments := segments self;
     total_distance := total_distance self;
     waypoints := waypoints self ++ [node] |}.

(** An adjacency entry [(next_node, segment_id, length)]. *)
Abbreviation Edge := (string * string * float)%type.

Record Airport := {
  config : Config.Document;
  segments_by_name : gmap string (list TaxiSegment);
  all_segments : list TaxiSegment;
  graph : gmap string (list Edge);
  airport_config : string
}.

(** *** [_load_data] *)

Definition segment_of_properties (n : string) (props : GeoJSON.LineProperties)
  : TaxiSegment :=
  {| segment_id := GeoJSON.segment_id props;
     name := n;
     start_node := GeoJSON.start_node props;
     end_node := GeoJSON.end_node props;
     length := GeoJSON.length props;
     segment_type := default "taxiway" (GeoJSON.segment_type props) |}.

(** The body of the loop "Process segments". *)
Definition process_feature
    (acc : gmap string (list TaxiSegment) * list TaxiSegment)
    (feature : GeoJSON.Feature)
  : gmap string (list TaxiSegment) * list TaxiSegment :=
  match feature with
  | GeoJSON.LineString _ props =>
      match GeoJSON.name props with
      | Some n =>
          if truthy n then
            let segment := segment_of_properties n props in
            (<[n := default [] (acc.1 !! n) ++ [segment]]> acc.1,
             acc.2 ++ [segment])
          else acc
      | None => acc
      end
  | GeoJSON.Point _ _ => acc
  end.

(** [if node not in self.graph: self.graph[node] = []] and
    [self.graph[node].append(edge)]. *)
Definition ensure_node (g : gmap string (list Edge)) (node : string)
  : gmap string (list Edge) :=
  match g !! node with
  | None => <[node := []]> g
  | Some _ => g
  end.

Definition append_edge (g : gmap string (list Edge)) (node : string) (e : Edge)
  : gmap string (list Edge) :=
  alter (λ l, l ++ [e]) node g.

(** The body of the loop "Build graph". *)
Definition add_to_graph (g : gmap string (list Edge)) (segment : TaxiSegment)
  : gmap string (list Edge) :=
  let g := ensure_node g (start_node segment) in
  let g := ensure_node g (end_node segment) in
  let g := append_edge g (start_node segment)
             (end_node segment, segment_id segment, length segment) in
  append_edge g (end_node segment)
    (start_node segment, segment_id segment, length segment).

Definition _load_data (cfg : Config.Document) (data : list GeoJSON.Feature)
    (airport_cfg : string) : Airport :=
  let '(by_name, all) := foldl process_feature (∅, []) data in
  {| config := cfg;
     segments_by_name := by_name;
     all_segments := all;
     graph := foldl add_to_graph ∅ all;
     airport_config := airport_cfg |}.

(** *** Reading the configuration *)

(** [for name, node in ...]: the target list [name, node] unpacks an
    element of exactly two items; a [str] is iterated by character. *)
Definition unpack (p : Config.RunwayPoint) : outcome (string * string) :=
  match p with
  | Config.NameNode n node => Returned (n, node)
  | Config.Name (String c1 (String c2 EmptyString)) =>
      Returned (String c1 EmptyString, String c2 EmptyString)
  | Config.Name _ => Raised ValueError
  end.

(** The loop [for name, node in points: if wp == name: ...; break]:
    the node of the first element named [wp]. *)
Fixpoint find_point (wp : string) (points : list Config.RunwayPoint)
  : outcome (option string) :=
  match points with
  | [] => Returned None
  | p :: points' =>
      '(n, node) ← unpack p;
      if decide (wp = n) then Returned (Some node) else find_point wp points'
  end.

(** [self.config['runway_configurations'][self.airport_config]]. *)
Definition runway_config (self : Airport) : outcome Config.RunwayConfiguration :=
  dict_getitem (Config.runway_configurations (config self)) (airport_config self).

(** The loop over the terminals that sets [gate_found]. *)
Definition gate_found (self : Airport) (gate_id : string) : bool :=
  existsb (λ terminal : string * Config.Terminal,
             existsb (λ gate, bool_decide (Config.gate_id gate = gate_id))
                     (Config.gates terminal.2))
          (Config.terminals (config self)).

(** The loop over the terminals that sets [gate_node]: the inner loop
    stops at the first gate of that id, the outer one as soon as
    [gate_node] is true. *)
Fixpoint find_gate_node (gate_id : string)
    (terminals : list (string * Config.Terminal)) (gate_node : option string)
  : option string :=
  match terminals with
  | [] => gate_node
  | terminal :: terminals' =>
      let gate_node' :=
        match List.find (λ gate, bool_decide (Config.gate_id gate = gate_id))
                        (Config.gates terminal.2) with
        | Some gate => Some (Config.node_id gate)
        | None => gate_node
        end in
      match gate_node' with
      | Some n => if truthy n then gate_node'
                  else find_gate_node gate_id terminals' gate_node'
      | None => find_gate_node gate_id terminals' gate_node'
      end
  end.

(** *** [validate_movement] *)

Definition validate (self : Airport) (movement_type : MovementType)
    (points : list string) : outcome bool :=
  match points with
  | [] | [_] => Returned false
  | first :: _ :: _ =>
      let last := List.last points first in
      match movement_type with
      | ARRIVAL =>
          rc ← runway_config self;
          exit_node ← find_point first (Config.exits rc);
          match exit_node with
          | None => Returned false
          | Some _ => Returned (gate_found self last)
          end
      | DEPARTURE =>
          if gate_found self first then
            rc ← runway_config self;
            entrance_node ← find_point last (Config.entrances rc);
            match entrance_node with
            | None => Returned false
            | Some _ => Returned true
            end
          else Returned false
      end
  end.

(** The method as a function of the object: its result, with the object
    it ran on ([Stateful.validate_movement] runs it on the object). *)
Definition validate_movement (self : Airport) (movement_type : MovementType)
    (points : list string) : outcome bool * Airport :=
  (validate self movement_type points, self).

(** *** The search: [dijkstra_multi_target] *)

(** [next(s for s in self.all_segments if s.segment_id == segment_id)]. *)
Definition segment_by_id (self : Airport) (sid : string) : outcome TaxiSegment :=
  match List.find (λ s, bool_decide (segment_id s = sid)) (all_segments self) with
  | Some s => Returned s
  | None => Raised StopIteration
  end.

(** A queue entry [(distance, node, path)] and a row of [distances]. *)
Abbreviation Entry := (float * string * list string)%type.
Abbreviation Distances := (gmap string (float * list string)).

(** [<] on lists of [str] and on queue entries, as Python orders
    sequences: by the first position where the two differ. *)
Fixpoint path_lt (p q : list string) : bool :=
  match p, q with
  | _, [] => false
  | [], _ :: _ => true
  | x :: p', y :: q' => if String.eqb x y then path_lt p' q' else String.ltb x y
  end.

Definition entry_lt (a b : Entry) : bool :=
  let '(d1, n1, p1) := a in
  let '(d2, n2, p2) := b in
  if (d1 =? d2)%float then
    if String.eqb n1 n2 then path_lt p1 p2 else String.ltb n1 n2
  else (d1 <? d2)%float.

(** The queue is a [heapq] heap. Its contract is modelled, not its
    array layout: [heappush] adds an entry, [heappop] removes a least
    one. [heappop_from x l] pops the heap [x :: l]. *)
Definition heappush (pq : list Entry) (e : Entry) : list Entry := e :: pq.

Fixpoint heappop_from (x : Entry) (l : list Entry) : Entry * list Entry :=
  match l with
  | [] => (x, [])
  | y :: l' =>
      if entry_lt y x
      then let '(m, r) := heappop_from y l' in (m, x :: r)
      else let '(m, r) := heappop_from x l' in (m, y :: r)
  end.

(** [allowed_segment_names and segment.name not in allowed_segment_names]. *)
Definition name_excluded (allowed : option (gset string)) (n : string) : bool :=
  match allowed with
  | None => false
  | Some names => negb (bool_decide (names = ∅)) && negb (bool_decide (n ∈ names))
  end.

(** The body of [for next_node, segment_id, length in self.graph[current]]. *)
Definition relax (self : Airport) (forbidden : gset string)
    (allowed : option (gset string)) (dist : float) (path : list string)
    (st : Distances * list Entry) (edge : Edge)
  : outcome (Distances * list Entry) :=
  let '(next_node, sid, len) := edge in
  if bool_decide (sid ∈ forbidden) then Returned st else
  segment ← segment_by_id self sid;
  if name_excluded allowed (name segment) then Returned st else
  let new_dist := (dist + len)%float in
  let new_path := path ++ [sid] in
  known ← getitem st.1 next_node;
  if (new_dist <? known.1)%float
  then Returned (<[next_node := (new_dist, new_path)]> st.1,
                 heappush st.2 (new_dist, next_node, new_path))
  else Returned st.

(** The [while] loop; [fuel] bounds the number of entries popped. *)
Fixpoint search (fuel : nat) (self : Airport) (target_nodes : gset string)
    (forbidden : gset string) (allowed : option (gset string))
    (distances : Distances) (pq : list Entry) (found_targets : gset string)
  : outcome Distances :=
  match pq with
  | [] => Returned distances
  | x :: rest =>
      if bool_decide (size found_targets < size target_nodes) then
        match fuel with
        | 0 => OutOfFuel
        | S fuel' =>
            let '((dist, current, path), pq') := heappop_from x rest in
            let found_targets' :=
              if bool_decide (current ∈ target_nodes)
              then found_targets ∪ {[current]} else found_targets in
            known ← getitem distances current;
            if (known.1 <? dist)%float
            then search fuel' self target_nodes forbidden allowed
                        distances pq' found_targets'
            else
              edges ← getitem (graph self) current;
              '(distances', pq'') ←
                foldl_outcome (relax self forbidden allowed dist path)
                              (distances, pq') edges;
              search fuel' self target_nodes forbidden allowed
                     distances' pq'' found_targets'
        end
      else Returned distances
  end.

Definition in_graph (self : Airport) (node : string) : bool :=
  bool_decide (is_Some (graph self !! node)).

(** The queue starts as a plain list, which is a heap when it has at
    most one entry; [find_path] always passes one start node. *)
Definition dijkstra_multi_target (fuel : nat) (self : Airport)
    (start_nodes : list string) (target_nodes : gset string)
    (forbidden_segments : option (gset string))
    (allowed_segment_names : option (gset string)) : outcome Distances :=
  let forbidden := default ∅ forbidden_segments in
  let distances := (λ _ : list Edge, (infinity, [] : list string)) <$> graph self in
  let distances :=
    foldl (λ d start, if in_graph self start then <[start := (0%float, [])]> d else d)
          distances start_nodes in
  let pq := (λ start, (0%float, start, [] : list string))
              <$> List.filter (in_graph self) start_nodes in
  search fuel self target_nodes forbidden allowed_segment_names distances pq ∅.

(** *** [find_path] *)

Record SearchState := {
  path : TaxiPath;
  used_segments : gset string;
  last_node : string;
  current_waypoint_idx : nat
}.

(** [node in [seg.start_node, seg.end_node]]. *)
Definition touches (node : string) (seg : TaxiSegment) : bool :=
  bool_decide (node = start_node seg) || bool_decide (node = end_node seg).

(** The verification loop that sets [valid_path]. *)
Fixpoint names_allowed (self : Airport) (allowed : gset string)
    (segment_path : list string) : outcome bool :=
  match segment_path with
  | [] => Returned true
  | sid :: segment_path' =>
      segment ← segment_by_id self sid;
      if bool_decide (name segment ∈ allowed)
      then names_allowed self allowed segment_path'
      else Returned false
  end.

(** The body of [for target_node in target_nodes], on the triple
    [(best_target, best_dist, best_path)]. *)
Definition consider_target (self : Airport) (allowed : gset string)
    (distances : Distances)
    (best : option string * float * option (list string)) (target_node : string)
  : outcome (option string * float * option (list string)) :=
  '(dist, segment_path) ← getitem distances target_node;
  if (dist <? best.1.2)%float then
    valid_path ← names_allowed self allowed segment_path;
    if valid_path : bool
    then Returned (Some target_node, dist, Some segment_path)
    else Returned best
  else Returned best.

(** The loop "Add path segments". *)
Definition add_path_segment (self : Airport) (acc : TaxiPath * gset string)
    (sid : string) : outcome (TaxiPath * gset string) :=
  segment ← segment_by_id self sid;
  Returned (add_segment acc.1 sid (length segment), acc.2 ∪ {[sid]}).

(** The first segment and its node, before the fall-back, and [gate_node]. *)
Definition choose_first (self : Airport) (movement_type : MovementType)
    (first : string) (first_segments : list TaxiSegment)
  : option (TaxiSegment * string) * option string :=
  match movement_type with
  | DEPARTURE =>
      let gate_node :=
        find_gate_node first (Config.terminals (config self)) None in
      (match gate_node with
       | Some g =>
           if truthy g
           then (λ seg, (seg, g)) <$> List.find (touches g) first_segments
           else None
       | None => None
       end, gate_node)
  | ARRIVAL =>
      ((λ seg, (seg, end_node seg))
         <$> List.find (λ seg, bool_decide (segment_type seg = "runway"))
                       first_segments,
       None)
  end.

(** "Add final segment if needed". [closing_node] is [entrance_node]
    for a departure and [gate_node] for an arrival; [closing_segment] is
    the segment the code appends after the loop, if any. *)
Definition closing_node (self : Airport) (movement_type : MovementType)
    (last_point : string) : outcome (option string) :=
  match movement_type with
  | DEPARTURE =>
      rc ← runway_config self;
      find_point last_point (Config.entrances rc)
  | ARRIVAL =>
      Returned (find_gate_node last_point (Config.terminals (config self)) None)
  end.

Definition closing_segment (self : Airport) (movement_type : MovementType)
    (last_point : string) (last_node : string) : outcome (option TaxiSegment) :=
  node ← closing_node self movement_type last_point;
  match node with
  | Some e =>
      if truthy e
      then Returned (List.find (λ seg, touches e seg && touches last_node seg)
                               (default [] (segments_by_name self !! last_point)))
      else Returned None
  | None => Returned None
  end.

(** "For other waypoints, get all connected nodes". *)
Definition waypoint_nodes (self : Airport) (waypoint : string) : gset string :=
  foldl (λ nodes segment, nodes ∪ {[start_node segment]} ∪ {[end_node segment]})
        ∅ (default [] (segments_by_name self !! waypoint)).

Section Router.

(** Iterating a [set] of [str] visits its elements in an order fixed
    by the interpreter's string hashing; [set_iter] is that order. *)
Variable set_iter : gset string → list string.

(** The bound on the entries one search may pop. *)
Variable fuel : nat.

(** The nested function [get_segment_nodes]; [points] holds at least
    two names when it runs. *)
Definition get_segment_nodes (self : Airport) (points : list string)
    (movement_type : MovementType) (waypoint : string)
    (enforce_node : option string) : outcome (gset string) :=
  match enforce_node with
  | Some node => Returned {[node]}
  | None =>
      pinned ←
        (if bool_decide (movement_type = ARRIVAL)
            && bool_decide (head points = Some waypoint)
         then rc ← runway_config self; find_point waypoint (Config.exits rc)
         else if bool_decide (movement_type = DEPARTURE)
                 && bool_decide (last points = Some waypoint)
         then rc ← runway_config self; find_point waypoint (Config.entrances rc)
         else Returned None);
      match pinned with
      | Some node => Returned {[node]}
      | None => Returned (waypoint_nodes self waypoint)
      end
  end.

(** One iteration of the loop "Find path through waypoints", up to the
    choice of [best_path] and [best_target]; [None] is the [return None]. *)
Definition route_leg (self : Airport) (points : list string)
    (movement_type : MovementType) (st : SearchState)
  : outcome (option (list string * string)) :=
  match points !! current_waypoint_idx st,
        points !! S (current_waypoint_idx st) with
  | Some current_waypoint, Some next_waypoint =>
      enforce_node ←
        (if bool_decide (movement_type = DEPARTURE)
            && bool_decide (last points = Some next_waypoint)
         then rc ← runway_config self;
              find_point next_waypoint (Config.entrances rc)
         else Returned None);
      target_nodes ←
        get_segment_nodes self points movement_type next_waypoint enforce_node;
      let allowed_segments : gset string :=
        {[current_waypoint]} ∪ {[next_waypoint]} in
      distances ←
        dijkstra_multi_target fuel self [last_node st] target_nodes
          (Some (used_segments st)) (Some allowed_segments);
      best ←
        foldl_outcome (consider_target self allowed_segments distances)
                      (None, infinity, None) (set_iter target_nodes);
      match best with
      | (Some best_target, _, Some best_path) =>
          Returned (Some (best_path, best_target))
      | _ => Returned None
      end
  | _, _ => Raised IndexError
  end.

(** The rest of the iteration: append the leg, move the anchor. *)
Definition advance (self : Airport) (st : SearchState)
    (best_path : list string) (best_target : string) : outcome SearchState :=
  '(p, used) ←
    foldl_outcome (add_path_segment self) (path st, used_segments st) best_path;
  Returned {| path := p; used_segments := used; last_node := best_target;
              current_waypoint_idx := S (current_waypoint_idx st) |}.

(** The [while] loop. The index grows by one per iteration, so the loop
    runs [len(points) - 1] times from index 0: [n] counts what is left. *)
Fixpoint main_loop (n : nat) (self : Airport) (points : list string)
    (movement_type : MovementType) (st : SearchState)
  : outcome (option SearchState) :=
  match n with
  | 0 => Returned (Some st)
  | S n' =>
      leg ← route_leg self points movement_type st;
      match leg with
      | None => Returned None
      | Some (best_path, best_target) =>
          st' ← advance self st best_path best_target;
          main_loop n' self points movement_type st'
      end
  end.

(** The legs of a run of the loop: the [best_path] of each iteration,
    in order. It observes [main_loop]; the code does not compute it. *)
Fixpoint leg_paths (n : nat) (self : Airport) (points : list string)
    (movement_type : MovementType) (st : SearchState) : list (list string) :=
  match n with
  | 0 => []
  | S n' =>
      match route_leg self points movement_type st with
      | Returned (Some (best_path, best_target)) =>
          match advance self st best_path best_target with
          | Returned st' =>
              best_path :: leg_paths n' self points movement_type st'
          | _ => []
          end
      | _ => []
      end
  end.

(** The state the loop starts from; [None] is "No segments found". *)
Definition initial_state (self : Airport) (points : list string)
    (movement_type : MovementType) : outcome (option SearchState) :=
  match points with
  | [] => Raised IndexError
  | first :: _ =>
      match default [] (segments_by_name self !! first) with
      | [] => Returned None
      | (seg0 :: _) as first_segments =>
          let '(chosen, gate_node) :=
            choose_first self movement_type first first_segments in
          let '(first_segment, first_node) :=
            default (seg0, end_node seg0) chosen in
          let p := add_segment TaxiPath_init (segment_id first_segment)
                               (length first_segment) in
          let used : gset string :=
            if bool_decide (movement_type = DEPARTURE)
               && bool_decide (gate_node = Some first_node)
            then ∅ else {[segment_id first_segment]} in
          Returned (Some {| path := p; used_segments := used;
                            last_node := first_node;
                            current_waypoint_idx := 0 |})
      end
  end.

(** [find_path] once the movement is validated. *)
Definition route (self : Airport) (points : list string)
    (movement_type : MovementType) : outcome (option TaxiPath) :=
  st0 ← initial_state self points movement_type;
  match st0 with
  | None => Returned None
  | Some st0 =>
      st ← main_loop (List.length points - 1) self points movement_type st0;
      match st with
      | None => Returned None
      | Some st =>
          closing ← closing_segment self movement_type
                      (default "" (last points)) (last_node st);
          match closing with
          | Some seg =>
              Returned (Some (add_segment (path st) (segment_id seg) (length seg)))
          | None => Returned (Some (path st))
          end
      end
  end.

(** The method as a function of the object: its result, with the object
    it ran on ([Stateful.find_path] runs it on the object). *)
Definition find_path (self : Airport) (points : list string)
    (movement_type : MovementType) : outcome (option TaxiPath) * Airport :=
  let '(valid, self) := validate_movement self movement_type points in
  match valid with
  | Returned true => (route self points movement_type, self)
  | Returned false => (Returned None, self)
  | Raised e => (Raised e, self)
  | OutOfFuel => (OutOfFuel, self)
  end.

End Router.

(** *** Vocabulary of the properties *)

(** The name an element of ["entrances"] or ["exits"] lists, and the
    shape of element the router unpacks. *)
Definition point_name (p : Config.RunwayPoint) : string :=
  match p with
  | Config.Name n => n
  | Config.NameNode n _ => n
  end.

Definition pair_shaped (p : Config.RunwayPoint) : Prop :=
  match p with
  | Config.Name _ => False
  | Config.NameNode _ _ => True
  end.

(** The active runway configuration is there, in the router's shape. *)
Definition readable (self : Airport) : Prop :=
  ∃ rc, runway_config self = Returned rc
        ∧ Forall pair_shaped (Config.exits rc)
        ∧ Forall pair_shaped (Config.entrances rc).

Definition listed_exits (self : Airport) : list string :=
  match runway_config self with
  | Returned rc => point_name <$> Config.exits rc
  | _ => []
  end.

Definition listed_entrances (self : Airport) : list string :=
  match runway_config self with
  | Returned rc => point_name <$> Config.entrances rc
  | _ => []
  end.

(** Some terminal of the configuration has a gate of that id. *)
Definition known_gate (self : Airport) (gate_id : string) : Prop :=
  ∃ terminal gate, terminal ∈ Config.terminals (config self)
                   ∧ gate ∈ Config.gates terminal.2
                   ∧ Config.gate_id gate = gate_id.



(** The segment of that id exists and carries one of the names. *)
Definition named_within (self : Airport) (allowed : gset string) (sid : string)
  : Prop :=
  ∃ seg, segment_by_id self sid = Returned seg ∧ name seg ∈ allowed.

(** What the triple [(best_target, best_dist, best_path)] satisfies
    throughout the selection loop. *)
Definition valid_best (self : Airport) (allowed : gset string)
    (best : option string * float * option (list string)) : Prop :=
  match best.2 with
  | Some p => Forall (named_within self allowed) p
  | None => True
  end.

(** Leg [i] runs between waypoints [i] and [i+1], on segments named
    after one of the two. *)
Definition leg_within (self : Airport) (points : list string) (i : nat)
    (leg : list string) : Prop :=
  ∃ w_i w_j,
    points !! i = Some w_i ∧ points !! S i = Some w_j
    ∧ ∀ sid, sid ∈ leg →
        ∃ seg, segment_by_id self sid = Returned seg
               ∧ (name seg = w_i ∨ name seg = w_j).

(** [it] lists the elements of every set, each once, in some order. *)
Definition enumerates (it : gset string → list string) : Prop :=
  ∀ s, it s ≡ₚ elements s.

(** A feature the loader keeps, and the segment it makes of it. *)
Definition segment_of_feature (feature : GeoJSON.Feature) : option TaxiSegment :=
  match feature with
  | GeoJSON.LineString _ props =>
      match GeoJSON.name props with
      | Some n => if truthy n then Some (segment_of_properties n props) else None
      | None => None
      end
  | GeoJSON.Point _ _ => None
  end.

Definition named_line (feature : GeoJSON.Feature) : bool :=
  bool_decide (is_Some (segment_of_feature feature)).

(** Every list of [segments_by_name] holds the segments of that name
    loaded so far, in order, and no list is empty. *)
Definition by_name_ok (acc : gmap string (list TaxiSegment) * list TaxiSegment)
  : Prop :=
  ∀ n, acc.1 !! n = match filter (λ s, name s = n) acc.2 with
                    | [] => None
                    | l => Some l
                    end.

(** The adjacency entry of [node] that a segment accounts for. *)
Definition edge_of (s : TaxiSegment) (node : string) (e : Edge) : Prop :=
  (node = start_node s ∧ e = (end_node s, segment_id s, length s))
  ∨ (node = end_node s ∧ e = (start_node s, segment_id s, length s)).

(** Every node of the graph is an end of a loaded segment, and every
    adjacency entry is that of a loaded segment. *)
Definition graph_ok (g : gmap string (list Edge)) (all : list TaxiSegment) : Prop :=
  ∀ node edges, g !! node = Some edges →
    (∃ s, s ∈ all ∧ touches node s = true)
    ∧ ∀ e, e ∈ edges → ∃ s, s ∈ all ∧ edge_of s node e.

End Pathfinder.

(** ** The indexer, the classifier and the exporters: [airport_process.py] *)
Module Process.

(** The dict [gate_info] of a node, with keys ["gate_id"], ["heading"]
    and ["segment_id"]; the prefix keeps them apart from the fields of
    [Node] and [Segment]. *)
Record GateInfo := {
  gi_gate_id : string;
  gi_heading : float;
  gi_segment_id : string
}.

Record Node := {
  node_id : string;
  coordinates : float * float;
  connected_segments : list string;
  node_type : string;
  gate_info : option GateInfo
}.

Record Segment := {
  segment_id : string;
  start_node : string;
  end_node : string;
  geometry : list (float * float);
  segment_type : string;
  name : string;
  length : float;
  heading : float
}.

(** A value of [self.gates], with keys ["node_id"], ["coordinates"],
    ["heading"] and ["segment_id"]. *)
Record GateRecord := {
  g_node_id : string;
  g_coordinates : float * float;
  g_heading : float;
  g_segment_id : string
}.

(** The input configuration, of which the code reads two keys, each
    with [.get(key, {})]. *)
Record ConfigData := {
  runways : option json;
  parking_positions : option (list (string * Config.ParkingPosition))
}.

Record AirportProcessor := {
  nodes : list (string * Node);
  segments : list (string * Segment);
  config_data : ConfigData;
  gates : list (string * GateRecord);
  runway_points : gset string
}.

(** "Known runway entrance/exit points for LFPO". *)
Definition known_runway_points : gset string :=
  {["W34"]} ∪ {["W35"]} ∪ {["W36"]} ∪ {["W37"]} ∪ {["W4"]}
  ∪ {["W41"]} ∪ {["W42"]} ∪ {["W43"]} ∪ {["W44"]}.

(** *** Identifiers: [f"N{n:05d}"] *)

Definition decimal (n : nat) : string :=
  DecimalString.NilEmpty.string_of_uint (Nat.to_uint n).

Fixpoint zeros (k : nat) : string :=
  match k with
  | 0 => EmptyString
  | S k' => "0" +:+ zeros k'
  end.

(** [f"{n:05d}"]: at least five digits, padded with zeros on the left. *)
Definition pad5 (n : nat) : string :=
  zeros (5 - String.length (decimal n)) +:+ decimal n.

Definition format_id (prefix : string) (n : nat) : string := prefix +:+ pad5 n.

(** *** [_create_network]: the candidate points and the nodes *)

(** A [shapely] point. *)
Record Point := { x : float; y : float }.

Section Indexer.

(** The builtin [round(x, ndigits)]. *)
Variable round : float → nat → float.

(** [shapely]: [Some pt] when the two lines intersect and their
    intersection is the single point [pt]. *)
Variable intersection :
  list (float * float) → list (float * float) → option Point.

Definition _round_point (pt : Point) (precision : nat) : float * float :=
  (round (x pt) precision, round (y pt) precision).

(** [==] on two coordinate tuples, the test behind [key not in
    unique_points]. *)
Definition key_eq (k1 k2 : float * float) : bool :=
  (k1.1 =? k2.1)%float && (k1.2 =? k2.2)%float.

(** [[Point(geom.coords[0]), Point(geom.coords[-1])]]. *)
Definition endpoints (coords : list (float * float)) : outcome (list Point) :=
  match coords with
  | [] => Raised IndexError
  | c :: _ =>
      let c' := List.last coords c in
      Returned [ {| x := c.1; y := c.2 |}; {| x := c'.1; y := c'.2 |} ]
  end.

(** The loop "Find intersections": each line against the later ones. *)
Fixpoint intersections (lines : list (list (float * float))) : list Point :=
  match lines with
  | [] => []
  | line1 :: lines' =>
      omap (intersection line1) lines' ++ intersections lines'
  end.

(** The list [points] when the loop "Create nodes" starts. *)
Definition candidate_points (lines : list (list (float * float)))
  : outcome (list Point) :=
  ends ← foldl_outcome (λ acc line, e ← endpoints line; Returned (acc ++ e))
                       [] lines;
  Returned (ends ++ intersections lines).

(** The body of the loop "Create nodes", on [unique_points]. *)
Definition add_point (unique_points : list (float * float * Node)) (pt : Point)
  : list (float * float * Node) :=
  let key := _round_point pt 7 in
  if existsb (λ entry, key_eq entry.1 key) unique_points
  then unique_points
  else unique_points ++
       [(key, {| node_id := format_id "N" (List.length unique_points);
                 coordinates := key;
                 connected_segments := [];
                 node_type := "intersection";
                 gate_info := None |})].

Definition create_nodes (points : list Point) : list (float * float * Node) :=
  foldl add_point [] points.

(** [self.nodes] after the loop: every node under its own id. *)
Definition nodes_of (unique_points : list (float * float * Node))
  : list (string * Node) :=
  foldl (λ d entry, dict_set d (node_id entry.2) entry.2) [] unique_points.

End Indexer.

(** *** [_create_segments]: the name of a segment *)

(** [props.get('ref', '')] and [props.get('aeroway', 'unknown')]. *)
Definition segment_name (props : list (string * string)) : string :=
  default "" (dict_get props "ref").

Definition segment_kind (props : list (string * string)) : string :=
  default "unknown" (dict_get props "aeroway").

(** The [Segment] the loop of [_create_segments] builds between two
    nodes, with the length and heading computed from its geometry. *)
Definition make_segment (self : AirportProcessor) (props : list (string * string))
    (start_node end_node : Node) (geometry : list (float * float))
    (len head : float) : Segment :=
  {| segment_id := format_id "S" (List.length (segments self));
     start_node := node_id start_node;
     end_node := node_id end_node;
     geometry := geometry;
     segment_type := segment_kind props;
     name := segment_name props;
     length := len;
     heading := head |}.

(** *** [_identify_special_nodes] *)

Definition with_node_type (n : Node) (t : string) : Node :=
  {| node_id := node_id n; coordinates := coordinates n;
     connected_segments := connected_segments n;
     node_type := t; gate_info := gate_info n |}.

(** [for node_id in [segment.start_node, segment.end_node]:
    self.nodes[node_id].node_type = ...], done when [guard] holds of the node. *)
Definition mark_ends (t : string) (guard : Node → bool)
    (nodes : list (string * Node)) (segment : Segment)
  : outcome (list (string * Node)) :=
  foldl_outcome
    (λ nodes id,
       n ← dict_getitem nodes id;
       Returned (if guard n then dict_set nodes id (with_node_type n t) else nodes))
    nodes [start_node segment; end_node segment].

(** "Find runway exit nodes". *)
Definition mark_runway_exits (self : AirportProcessor)
    (nodes : list (string * Node)) (entry : string * Segment)
  : outcome (list (string * Node)) :=
  if bool_decide (name entry.2 ∈ runway_points self)
  then mark_ends "runway_exit" (λ _, true) nodes entry.2
  else Returned nodes.

(** The set [parking_exits]. *)
Definition parking_exits (self : AirportProcessor) : gset string :=
  foldl (λ acc (entry : string * Config.ParkingPosition),
           match Config.exit_taxiway entry.2 with
           | Some t => if truthy t then acc ∪ {[t]} else acc
           | None => acc
           end)
        ∅ (default [] (parking_positions (config_data self))).

(** "Find parking exit nodes". *)
Definition mark_parking_exits (exits : gset string)
    (nodes : list (string * Node)) (entry : string * Segment)
  : outcome (list (string * Node)) :=
  if bool_decide (name entry.2 ∈ exits)
  then mark_ends "parking_exit"
         (λ n, bool_decide (node_type n = "intersection")) nodes entry.2
  else Returned nodes.

Definition gate_info_of (segment : Segment) : GateInfo :=
  {| gi_gate_id := name segment; gi_heading := heading segment;
     gi_segment_id := segment_id segment |}.

Definition gate_record_of (node : Node) (segment : Segment) : GateRecord :=
  {| g_node_id := node_id node; g_coordinates := coordinates node;
     g_heading := heading segment; g_segment_id := segment_id segment |}.

Definition as_gate (node : Node) (segment : Segment) : Node :=
  {| node_id := node_id node; coordinates := coordinates node;
     connected_segments := connected_segments node;
     node_type := "gate"; gate_info := Some (gate_info_of segment) |}.

(** "Find gate nodes": the body of [for node in self.nodes.values()].
    The nodes already visited are [acc.1], the gate index is [acc.2]. *)
Definition mark_gate (segments : list (string * Segment))
    (acc : list (string * Node) * list (string * GateRecord))
    (entry : string * Node)
  : outcome (list (string * Node) * list (string * GateRecord)) :=
  match connected_segments entry.2 with
  | [sid] =>
      segment ← dict_getitem segments sid;
      if bool_decide (segment_type segment = "parking_position")
      then Returned (acc.1 ++ [(entry.1, as_gate entry.2 segment)],
                     dict_set acc.2 (name segment) (gate_record_of entry.2 segment))
      else Returned (acc.1 ++ [entry], acc.2)
  | _ => Returned (acc.1 ++ [entry], acc.2)
  end.

Definition _identify_special_nodes (self : AirportProcessor)
  : outcome AirportProcessor :=
  nodes1 ← foldl_outcome (mark_runway_exits self) (nodes self) (segments self);
  nodes2 ← foldl_outcome (mark_parking_exits (parking_exits self))
                         nodes1 (segments self);
  '(nodes3, gates3) ← foldl_outcome (mark_gate (segments self))
                                    ([], gates self) nodes2;
  Returned {| nodes := nodes3; segments := segments self;
              config_data := config_data self; gates := gates3;
              runway_points := runway_points self |}.

(** *** [export_network] *)

Definition segment_feature (segment : Segment) : GeoJSON.Feature :=
  GeoJSON.LineString (geometry segment)
    {| GeoJSON.segment_id := segment_id segment;
       GeoJSON.name := Some (name segment);
       GeoJSON.segment_type := Some (segment_type segment);
       GeoJSON.start_node := start_node segment;
       GeoJSON.end_node := end_node segment;
       GeoJSON.length := length segment;
       GeoJSON.heading := heading segment |}.

Definition node_feature (node : Node) : GeoJSON.Feature :=
  GeoJSON.Point (coordinates node)
    {| GeoJSON.node_id := node_id node;
       GeoJSON.node_type := node_type node;
       GeoJSON.connected_segments := connected_segments node;
       GeoJSON.gate_info :=
         (λ g, (gi_gate_id g, gi_heading g, gi_segment_id g)) <$> gate_info node |}.

Definition export_network (self : AirportProcessor) : list GeoJSON.Feature :=
  (segment_feature ∘ snd <$> segments self) ++ (node_feature ∘ snd <$> nodes self).

(** *** [export_config] *)

(** [c.isdigit()]: true of the decimal digits and of the superscripts
    [²], [³] and [¹] (codes 178, 179 and 185), the characters below 256
    whose numeric type is Decimal or Digit. *)
Definition isdigit (c : Ascii.ascii) : bool :=
  let n := Ascii.nat_of_ascii c in
  (48 <=? n) && (n <=? 57) || (n =? 178) || (n =? 179) || (n =? 185).

(** [''.join(c for c in gate_id if not c.isdigit())]: of [K], the
    character of code 178 and [4] it keeps [K]. *)
Fixpoint terminal_id (gate_id : string) : string :=
  match gate_id with
  | EmptyString => EmptyString
  | String c rest =>
      if isdigit c then terminal_id rest else String c (terminal_id rest)
  end.

(** [{"gate_id": gate_id, **gate_info}]. *)
Definition gate_entry (gate_id : string) (g : GateRecord) : Config.Gate :=
  {| Config.gate_id := gate_id;
     Config.node_id := g_node_id g;
     Config.coordinates := g_coordinates g;
     Config.heading := g_heading g;
     Config.segment_id := g_segment_id g |}.

(** "Group gates by terminal". *)
Definition group_gates (gates : list (string * GateRecord))
  : list (string * list Config.Gate) :=
  foldl (λ terminals (entry : string * GateRecord),
           let tid := terminal_id entry.1 in
           dict_set terminals tid
             (default [] (dict_get terminals tid) ++ [gate_entry entry.1 entry.2]))
        [] gates.

(** [sorted(gates, key=lambda x: x["gate_id"])]: a stable sort. *)
Fixpoint insert_gate (g : Config.Gate) (l : list Config.Gate) : list Config.Gate :=
  match l with
  | [] => [g]
  | h :: l' =>
      if String.ltb (Config.gate_id h) (Config.gate_id g)
      then h :: insert_gate g l'
      else g :: l
  end.

Definition sorted_gates (l : list Config.Gate) : list Config.Gate :=
  foldr insert_gate [] l.

Definition runway_configs : list (string * Config.RunwayConfiguration) :=
  [ ("WEST",
     {| Config.departure := "24";
        Config.arrival := "25";
        Config.entrances := [Config.Name "W41"; Config.Name "W42"];
        Config.exits := [Config.Name "W34"; Config.Name "W35"; Config.Name "W4";
                         Config.Name "W36"; Config.Name "W37"];
        Config.alternates := ("06", "07") |});
    ("EAST",
     {| Config.departure := "07";
        Config.arrival := "06";
        Config.entrances := [Config.Name "W37"; Config.Name "W36"];
        Config.exits := [Config.Name "W44"; Config.Name "W43";
                         Config.Name "W42"; Config.Name "W41"];
        Config.alternates := ("24", "25") |}) ].

Definition export_config (self : AirportProcessor) : Config.Document :=
  {| Config.airport_code := "LFPO";
     Config.name := "Paris-Orly Airport";
     Config.runways := default (JObject []) (runways (config_data self));
     Config.terminals :=
       (λ entry : string * list Config.Gate,
          (entry.1, {| Config.gates := sorted_gates entry.2 |}))
         <$> group_gates (gates self);
     Config.total_count := List.length (gates self);
     Config.parking_positions := default [] (parking_positions (config_data self));
     Config.runway_configurations := runway_configs |}.

(** *** Vocabulary of the properties *)

(** [node] has one incident segment, [seg], a parking position. *)
Definition parking_end (segments : list (string * Segment)) (node : Node)
    (seg : Segment) : Prop :=
  ∃ sid, connected_segments node = [sid]
         ∧ dict_get segments sid = Some seg
         ∧ segment_type seg = "parking_position".

(** The gate rule, of the nodes visited so far [acc.1] and the gate
    index [acc.2]: such a node is a gate with the metadata of its
    segment, and the index has, under the name of that segment, the
    record of a gate node whose segment has that name. *)
Definition gates_marked (segments : list (string * Segment))
    (acc : list (string * Node) * list (string * GateRecord)) : Prop :=
  ∀ entry seg, entry ∈ acc.1 → parking_end segments entry.2 seg →
    node_type entry.2 = "gate"
    ∧ gate_info entry.2 = Some (gate_info_of seg)
    ∧ ∃ entry' seg',
        entry' ∈ acc.1 ∧ parking_end segments entry'.2 seg'
        ∧ name seg' = name seg
        ∧ dict_get acc.2 (name seg) = Some (gate_record_of entry'.2 seg').

(** No node after position [i] of [nodes] is the sole end of a parking
    position named [n]. *)
Definition last_of_name (segments : list (string * Segment))
    (nodes : list (string * Node)) (i : nat) (n : string) : Prop :=
  ∀ j entry seg, i < j → nodes !! j = Some entry →
    parking_end segments entry.2 seg → name seg ≠ n.

(** The gate index [acc.2] after the nodes [acc.1], from the index
    [gates0]: a name holds the record of the last node visited that is
    the sole end of a parking position of that name, and a name no such
    node bears holds what it held. *)
Definition gates_indexed (segments : list (string * Segment))
    (gates0 : list (string * GateRecord))
    (acc : list (string * Node) * list (string * GateRecord)) : Prop :=
  (∀ i entry seg, acc.1 !! i = Some entry →
     parking_end segments entry.2 seg →
     last_of_name segments acc.1 i (name seg) →
     dict_get acc.2 (name seg)
     = Some {| g_node_id := node_id entry.2;
               g_coordinates := coordinates entry.2;
               g_heading := heading seg;
               g_segment_id := segment_id seg |})
  ∧ (∀ n, (∀ entry seg, entry ∈ acc.1 → parking_end segments entry.2 seg →
             name seg ≠ n) →
          dict_get acc.2 n = dict_get gates0 n).

(** What the three passes never change of a node. *)
Definition skeleton (entry : string * Node)
  : string * string * (float * float) * list string :=
  (entry.1, node_id entry.2, coordinates entry.2, connected_segments entry.2).

(** Segments end at nodes that exist, and a node's sole segment exists:
    what [_create_segments] leaves behind. *)
Definition well_formed (p : AirportProcessor) : Prop :=
  (∀ entry, entry ∈ segments p →
     is_Some (dict_get (nodes p) (start_node entry.2))
     ∧ is_Some (dict_get (nodes p) (end_node entry.2)))
  ∧ (∀ entry sid, entry ∈ nodes p → connected_segments entry.2 = [sid] →
       is_Some (dict_get (segments p) sid)).

(** Reading back the number of an identifier. *)
Definition parse (s : string) : option nat :=
  Nat.of_uint <$> DecimalString.NilEmpty.uint_of_string s.

(** Two pairs of coordinates are equal: [==] holds of their first
    numbers and of their second numbers. *)
Definition same_key (k1 k2 : float * float) : Prop :=
  (k1.1 =? k2.1)%float = true ∧ (k1.2 =? k2.2)%float = true.

#[global] Instance same_key_dec k1 k2 : Decision (same_key k1 k2).
Proof. unfold same_key. apply _. Defined.

(** [pt] is an end of [line]: its first or its last coordinate. *)
Definition end_of (line : list (float * float)) (pt : Point) : Prop :=
  ∃ c, (head line = Some c ∨ last line = Some c)
       ∧ pt = {| x := c.1; y := c.2 |}.

Section Deduplication.

Variable round : float → nat → float.

(** The key of a candidate point: its two coordinates, each rounded to
    7 decimal digits. *)
Definition key_of (pt : Point) : float * float :=
  (round (x pt) 7, round (y pt) 7).

(** Candidate [j] is the first of the list with a key equal to [k]. *)
Definition first_seen (points : list Point) (j : nat) (k : float * float) : Prop :=
  key_of <$> points !! j = Some k
  ∧ ∀ j' pt, j' < j → points !! j' = Some pt → ¬ same_key (key_of pt) k.

(** The nodes of [unique] whose key equals [k]. *)
Definition nodes_at (unique : list (float * float * Node)) (k : float * float)
  : list (float * float * Node) :=
  filter (λ entry, same_key entry.1 k) unique.

(** What [unique_points] satisfies after the candidates [points]: the
    nodes are numbered in order, no two have equal keys, every
    candidate that equals itself has a node, and the nodes come in
    the order in which their keys were first seen. *)
Record deduplicated (points : list Point)
    (unique : list (float * float * Node)) : Prop := {
  numbered : ∀ i entry, unique !! i = Some entry →
    node_id entry.2 = format_id "N" i ∧ coordinates entry.2 = entry.1;
  distinct : ∀ i1 i2 e1 e2, i1 ≠ i2 →
    unique !! i1 = Some e1 → unique !! i2 = Some e2 →
    ¬ same_key e1.1 e2.1;
  covered : ∀ pt, pt ∈ points → same_key (key_of pt) (key_of pt) →
    ∃ entry, entry ∈ unique ∧ same_key entry.1 (key_of pt);
  in_order : ∃ js : list nat,
    List.length js = List.length unique
    ∧ (∀ i1 i2 j1 j2, i1 < i2 → js !! i1 = Some j1 → js !! i2 = Some j2 → j1 < j2)
    ∧ ∀ i entry j, unique !! i = Some entry → js !! i = Some j →
        first_seen points j entry.1
}.

End Deduplication.

End Process.

(** ** A router on the two exported files *)

(** [Airport(geojson_file, config_file, airport_config)] on the files the
    processor [p] writes. *)
Definition router_of (p : Process.AirportProcessor) (airport_config : string)
  : Pathfinder.Airport :=
  Pathfinder._load_data (Process.export_config p) (Process.export_network p)
                        airport_config.

(** ** Small networks used to exercise the statements below *)
Module Examples.

Definition line (sid n type a b : string) (len : float) : GeoJSON.Feature :=
  GeoJSON.LineString []
    {| GeoJSON.segment_id := sid; GeoJSON.name := Some n;
       GeoJSON.segment_type := Some type;
       GeoJSON.start_node := a; GeoJSON.end_node := b;
       GeoJSON.length := len; GeoJSON.heading := 0 |}.

Definition gate (id node sid : string) : Config.Gate :=
  {| Config.gate_id := id; Config.node_id := node;
     Config.coordinates := (0, 0)%float; Config.heading := 0;
     Config.segment_id := sid |}.

(** A configuration document in the shape the router reads: one
    terminal, and [WEST] with one entrance and one exit, each a
    name/node pair. *)
Definition document (gates : list Config.Gate)
    (entrance taxi_exit : string * string) : Config.Document :=
  {| Config.airport_code := "LFPO";
     Config.name := "Paris-Orly Airport";
     Config.runways := JObject [];
     Config.terminals := [("K", {| Config.gates := gates |})];
     Config.total_count := List.length gates;
     Config.parking_positions := [];
     Config.runway_configurations :=
       [("WEST",
         {| Config.departure := "24"; Config.arrival := "25";
            Config.entrances := [Config.NameNode entrance.1 entrance.2];
            Config.exits := [Config.NameNode taxi_exit.1 taxi_exit.2];
            Config.alternates := ("06", "07") |})] |}.

(** Gate K24 on the stub N0-N1, taxiway W2 from N1 to N2, taxiway W37
    from N2 to N3; the entrance W37 is pinned to N3, the far end. *)
Definition stub_network : list GeoJSON.Feature :=
  [ line "S0" "K24" "parking_position" "N0" "N1" 10;
    line "S1" "W2" "taxiway" "N1" "N2" 20;
    line "S2" "W37" "taxiway" "N2" "N3" 30 ].

Definition far_end : Pathfinder.Airport :=
  Pathfinder._load_data (document [gate "K24" "N0" "S0"] ("W37", "N3") ("W37", "N3"))
                        stub_network "WEST".

(** The same gate and taxiway W2, no segment named W37; the entrance
    W37 is pinned to N2, where W2 ends. *)
Definition no_entrance_segment : Pathfinder.Airport :=
  Pathfinder._load_data (document [gate "K24" "N0" "S0"] ("W37", "N2") ("W37", "N2"))
                        [ line "S0" "K24" "parking_position" "N0" "N1" 10;
                          line "S1" "W2" "taxiway" "N1" "N2" 20 ]
                        "WEST".

(** Gate K24 with two stubs of equal length, to N1 and to N2, both
    ends of the one segment of W2. *)
Definition two_stubs : Pathfinder.Airport :=
  Pathfinder._load_data (document [gate "K24" "N0" "S0"] ("W37", "N3") ("W37", "N3"))
                        [ line "S0" "K24" "parking_position" "N0" "N1" 10;
                          line "S3" "K24" "parking_position" "N0" "N2" 10;
                          line "S1" "W2" "taxiway" "N1" "N2" 5;
                          line "S2" "W37" "taxiway" "N2" "N3" 30 ]
                        "WEST".

(** The processor after [_create_segments] on a parking stub K24 with
    a taxiway that has no [ref] tag, and after classification. *)
Definition plain_node (id : string) (c : float * float) (segs : list string)
  : Process.Node :=
  {| Process.node_id := id; Process.coordinates := c;
     Process.connected_segments := segs;
     Process.node_type := "intersection"; Process.gate_info := None |}.

Definition unclassified : Process.AirportProcessor :=
  {| Process.nodes :=
       [ ("N00000", plain_node "N00000" (2.25, 48.5)%float ["S00000"]);
         ("N00001", plain_node "N00001" (2.5, 48.5)%float ["S00000"; "S00001"]);
         ("N00002", plain_node "N00002" (2.75, 48.5)%float ["S00001"]) ];
     Process.segments :=
       [ ("S00000",
          {| Process.segment_id := "S00000";
             Process.start_node := "N00000"; Process.end_node := "N00001";
             Process.geometry := [(2.25, 48.5); (2.5, 48.5)]%float;
             Process.segment_type := "parking_position";
             Process.name := "K24";
             Process.length := 735; Process.heading := 0 |});
         ("S00001",
          {| Process.segment_id := "S00001";
             Process.start_node := "N00001"; Process.end_node := "N00002";
             Process.geometry := [(2.5, 48.5); (2.75, 48.5)]%float;
             Process.segment_type := "taxiway";
             Process.name := Process.segment_name [("aeroway", "taxiway")];
             Process.length := 735; Process.heading := 0 |}) ];
     Process.config_data :=
       {| Process.runways := None; Process.parking_positions := None |};
     Process.gates := [];
     Process.runway_points := Process.known_runway_points |}.

Definition classified : Process.AirportProcessor :=
  match Process._identify_special_nodes unclassified with
  | Returned p => p
  | _ => unclassified
  end.

(** The processor after [_create_segments] on one parking stub K24 that
    meets no other line: both of its ends have that one segment. *)
Definition isolated_stub : Process.AirportProcessor :=
  {| Process.nodes :=
       [ ("N00000", plain_node "N00000" (2.25, 48.5)%float ["S00000"]);
         ("N00001", plain_node "N00001" (2.5, 48.5)%float ["S00000"]) ];
     Process.segments :=
       [ ("S00000",
          {| Process.segment_id := "S00000";
             Process.start_node := "N00000"; Process.end_node := "N00001";
             Process.geometry := [(2.25, 48.5); (2.5, 48.5)]%float;
             Process.segment_type := "parking_position";
             Process.name := "K24";
             Process.length := 735; Process.heading := 0 |}) ];
     Process.config_data :=
       {| Process.runways := None; Process.parking_positions := None |};
     Process.gates := [];
     Process.runway_points := Process.known_runway_points |}.

(** Two numbers a little above 1, apart by less than a unit of the
    seventh decimal. *)
Definition above_one : float := (1 + 1 / 1073741824)%float.
Definition further_above_one : float := (1 + 1 / 536870912)%float.

(** Two lines that meet near (1, 1), where their ends differ before
    rounding; the lines cross nowhere else. *)
Definition two_lines : list (list (float * float)) :=
  [ [(0, 0); (above_one, 1)]%float; [(further_above_one, 1); (2, 0)]%float ].

(** A rounding to [ndigits] decimals for the numbers met here: scale by
    the power of ten, take the nearest integer, scale back. *)
Fixpoint power_of_ten (ndigits : nat) : float :=
  match ndigits with
  | 0 => 1
  | S n => (10 * power_of_ten n)%float
  end.

Definition nearest (x : float) (ndigits : nat) : float :=
  let scale := power_of_ten ndigits in
  ((x * scale + 4503599627370496 - 4503599627370496) / scale)%float.

Definition no_crossing (line1 line2 : list (float * float)) : option Process.Point :=
  None.

(** The request of the design document, and the states of its search on
    [no_entrance_segment]: before the loop and after it. *)
Definition request : list string := ["K24"; "W2"; "W37"].

Definition at_gate : Pathfinder.SearchState :=
  {| Pathfinder.path :=
       {| Pathfinder.segments := ["S0"]; Pathfinder.total_distance := 10;
          Pathfinder.waypoints := [] |};
     Pathfinder.used_segments := ∅;
     Pathfinder.last_node := "N0";
     Pathfinder.current_waypoint_idx := 0 |}.

Definition at_entrance : Pathfinder.SearchState :=
  {| Pathfinder.path :=
       {| Pathfinder.segments := ["S0"; "S0"; "S1"]; Pathfinder.total_distance := 40;
          Pathfinder.waypoints := [] |};
     Pathfinder.used_segments := {["S0"]} ∪ {["S1"]};
     Pathfinder.last_node := "N2";
     Pathfinder.current_waypoint_idx := 2 |}.

(** The path the router returns for [request] on [far_end]. *)
Definition far_end_path : Pathfinder.TaxiPath :=
  {| Pathfinder.segments := ["S0"; "S0"; "S1"; "S2"; "S2"];
     Pathfinder.total_distance := 100;
     Pathfinder.waypoints := [] |}.

(** Two enumerations of a set of names. *)
Definition ascending (s : gset string) : list string := elements s.
Definition descending (s : gset string) : list string := reverse (elements s).

End Examples.

(** ** More of the router: vocabulary *)
Module Routing.

Import Pathfinder.

(** The adjacency entries of [node] that one segment accounts for, in
    the order in which "Build graph" appends them. *)
Definition edges_at (node : string) (s : TaxiSegment) : list Edge :=
  (if decide (start_node s = node)
   then [(end_node s, segment_id s, length s)] else [])
  ++ (if decide (end_node s = node)
      then [(start_node s, segment_id s, length s)] else []).

(** A walk in the graph from [a]: the segment ids traversed, the
    distance accumulated as the search accumulates it (from 0, adding
    each length on the right), and the node reached. *)
Inductive walk (self : Airport) (a : string)
  : list string → float → string → Prop :=
| walk_nil : walk self a [] 0 a
| walk_snoc p d b c sid len edges :
    walk self a p d b →
    graph self !! b = Some edges →
    (c, sid, len) ∈ edges →
    walk self a (p ++ [sid]) (d + len)%float c.

(** A segment id the search may relax: not forbidden, and of a segment
    whose name passes the filter. *)
Definition usable (self : Airport) (forbidden : gset string)
    (allowed : option (gset string)) (sid : string) : Prop :=
  (sid ∉ forbidden)
  ∧ ∃ seg, segment_by_id self sid = Returned seg
           ∧ name_excluded allowed (name seg) = false.

(** A row of [distances] or a queue entry that records a path found. *)
Definition found (self : Airport) (start_nodes : list string)
    (forbidden : gset string) (allowed : option (gset string))
    (d : float) (node : string) (p : list string) : Prop :=
  (∃ a, a ∈ start_nodes ∧ walk self a p d node)
  ∧ Forall (usable self forbidden allowed) p.

(** A row is the initial one or records a path found. *)
Definition row_ok (self : Airport) (start_nodes : list string)
    (forbidden : gset string) (allowed : option (gset string))
    (node : string) (row : float * list string) : Prop :=
  row = (infinity, []) ∨ found self start_nodes forbidden allowed row.1 node row.2.

(** Legs that follow one another: each a walk from where the one
    before ended. *)
(** What the search keeps true of its table and its queue. *)
Definition sound (self : Airport) (start_nodes : list string)
    (forbidden : gset string) (allowed : option (gset string))
    (st : Distances * list Entry) : Prop :=
  (∀ node, is_Some (st.1 !! node) ↔ is_Some (graph self !! node))
  ∧ (∀ node row, st.1 !! node = Some row →
       row_ok self start_nodes forbidden allowed node row)
  ∧ (∀ d n p, (d, n, p) ∈ st.2 → found self start_nodes forbidden allowed d n p).

(** What keeps the search from raising: the table has a row for each
    node of the graph, the queue holds nodes of the graph, and every
    entry of the graph leads to a node of the graph over a segment
    that [segment_by_id] finds. *)
Definition closed (self : Airport) : Prop :=
  ∀ b edges c sid len,
    graph self !! b = Some edges → (c, sid, len) ∈ edges →
    is_Some (graph self !! c) ∧ ∃ seg, segment_by_id self sid = Returned seg.

Definition safe (self : Airport) (st : Distances * list Entry) : Prop :=
  (∀ node, is_Some (st.1 !! node) ↔ is_Some (graph self !! node))
  ∧ (∀ d n p, (d, n, p) ∈ st.2 → is_Some (graph self !! n)).

Inductive chain (self : Airport) : string → list (list string) → string → Prop :=
| chain_nil a : chain self a [] a
| chain_cons a leg d b legs c :
    walk self a leg d b → chain self b legs c →
    chain self a (leg :: legs) c.

(** The request passes validation. *)
Definition accepted (self : Airport) (movement_type : MovementType)
    (points : list string) : Prop :=
  2 ≤ List.length points
  ∧ match movement_type with
    | ARRIVAL =>
        (∃ w, head points = Some w ∧ w ∈ listed_exits self)
        ∧ (∃ g, last points = Some g ∧ known_gate self g)
    | DEPARTURE =>
        (∃ g, head points = Some g ∧ known_gate self g)
        ∧ (∃ w, last points = Some w ∧ w ∈ listed_entrances self)
    end.

(** A segment the router holds: in [all_segments] or in a list of
    [segments_by_name]. *)
Definition held (self : Airport) (s : TaxiSegment) : Prop :=
  s ∈ all_segments self
  ∨ ∃ n l, segments_by_name self !! n = Some l ∧ s ∈ l.

(** [total_distance] as [add_segment] accumulates it. *)
Definition summed (segs : list TaxiSegment) : float :=
  foldl (λ d s, (d + length s)%float) 0%float segs.

(** The waypoint is resolved through its segments, not pinned to a
    configured node. *)
Definition unpinned (movement_type : MovementType) (points : list string)
    (waypoint : string) : Prop :=
  match movement_type with
  | ARRIVAL => head points ≠ Some waypoint
  | DEPARTURE => last points ≠ Some waypoint
  end.

(** A path whose distance is what its segments add up to: its ids are
    those of segments the airport holds, and [total_distance] is the
    sum of their lengths, added from the left. *)
Definition priced (self : Airport) (p : TaxiPath) : Prop :=
  ∃ segs, segments p = segment_id <$> segs
          ∧ Forall (held self) segs
          ∧ total_distance p = summed segs.

End Routing.

(** ** From the processor to the router: vocabulary *)
Module Pipeline.

(** The segment the router makes of a segment of the processor. *)
Definition taxi_segment (s : Process.Segment) : Pathfinder.TaxiSegment :=
  {| Pathfinder.segment_id := Process.segment_id s;
     Pathfinder.name := Process.name s;
     Pathfinder.start_node := Process.start_node s;
     Pathfinder.end_node := Process.end_node s;
     Pathfinder.length := Process.length s;
     Pathfinder.segment_type := Process.segment_type s |}.

(** The gates of the index that [export_config] puts under terminal
    [tid], in the order of the index. *)
Definition gates_of_terminal (gates : list (string * Process.GateRecord))
    (tid : string) : list Config.Gate :=
  (λ entry, Process.gate_entry entry.1 entry.2)
    <$> filter (λ entry, Process.terminal_id entry.1 = tid) gates.

(** [g] does not come after [h] in the order of their ids. *)
Definition gate_le (g h : Config.Gate) : Prop :=
  String.leb (Config.gate_id g) (Config.gate_id h) = true.

(** The digits of a gate id: [0] to [9], and the superscripts [²], [³]
    and [¹], which Python counts as digits too. *)
Definition digits : list Ascii.ascii :=
  String.list_ascii_of_string "0123456789" ++ (Ascii.ascii_of_nat <$> [178; 179; 185]).

(** A gate id without its digits, the other characters in order. *)
Definition without_digits (gate_id : string) : string :=
  String.string_of_list_ascii
    (filter (λ c, c ∉ digits) (String.list_ascii_of_string gate_id)).


End Pipeline.

(** ** The classifier: the role of a node in closed form *)
Module Roles.

Import Process.

(** [k in [segment.start_node, segment.end_node]]. *)
Definition ends_at (k : string) (s : Segment) : bool :=
  bool_decide (start_node s = k) || bool_decide (end_node s = k).

(** Some segment whose name is in [names] ends at [k]. *)
Definition on_named (names : gset string) (segments : list (string * Segment))
    (k : string) : bool :=
  existsb (λ entry : string * Segment,
             bool_decide (name entry.2 ∈ names) && ends_at k entry.2)
          segments.

(** The parking position that is the only segment of [n], if any. *)
Definition gate_segment (segments : list (string * Segment)) (n : Node)
  : option Segment :=
  match connected_segments n with
  | [sid] =>
      match dict_get segments sid with
      | Some s =>
          if bool_decide (segment_type s = "parking_position")
          then Some s else None
      | None => None
      end
  | _ => None
  end.

(** What a pass of [mark_ends] makes of the node stored under a key,
    [touched] telling whether a selected segment ends there. *)
Definition marked (t : string) (guard : Node → bool) (touched : bool) (n : Node)
  : Node :=
  if touched && guard n then with_node_type n t else n.

(** What the pass "Find gate nodes" makes of a node. *)
Definition gated (segments : list (string * Segment)) (n : Node) : Node :=
  match gate_segment segments n with
  | Some s => as_gate n s
  | None => n
  end.

(** The type the three passes leave on the node stored under [k],
    which was [n] before: gate before runway exit before parking exit,
    and a parking exit only where the node was an intersection. *)
Definition role (p : AirportProcessor) (k : string) (n : Node) : string :=
  match gate_segment (segments p) n with
  | Some _ => "gate"
  | None =>
      if on_named (runway_points p) (segments p) k then "runway_exit"
      else if on_named (parking_exits p) (segments p) k
              && bool_decide (node_type n = "intersection")
      then "parking_exit"
      else node_type n
  end.

End Roles.

(** ** Calls that may raise other exceptions *)
Module Raising.

(** The exceptions of the assigner and of the movement simulation. *)
Inductive error :=
| ValueError | TypeError | IndexError | KeyError
| ZeroDivisionError | OverflowError.

(** What a call answers; [Unfinished] is a loop that ran out of the
    iterations it was given. *)
Inductive answer (A : Type) :=
| Done (a : A)
| Fails (e : error)
| Unfinished.
Arguments Done {A} a.
Arguments Fails {A} e.
Arguments Unfinished {A}.

#[global] Instance answer_ret : MRet answer := λ A, Done.
#[global] Instance answer_bind : MBind answer := λ A B f m,
  match m with
  | Done a => f a
  | Fails e => Fails e
  | Unfinished => Unfinished
  end.

End Raising.

(** ** The position assigner: [airport_position_assigner.py] *)
Module Assigner.

Import Raising.

(** The object holds the loaded document; [available_configs] is set
    once, in [__init__], to the keys of its runway configurations. *)
Record AirportPositionAssigner := {
  config : Config.Document
}.

Definition available_configs (self : AirportPositionAssigner) : list string :=
  (Config.runway_configurations (config self)).*1.

(** [random.choice(seq)]: [r] is the number the generator gives for
    this call; an empty sequence raises [IndexError]. *)
Definition choice {A} (r : nat) (seq : list A) : answer A :=
  match seq !! (r mod List.length seq) with
  | Some a => Done a
  | None => Fails IndexError
  end.

(** Truth value of an optional [str] argument. *)
Definition given (o : option string) : option string :=
  match o with
  | Some s => if truthy s then Some s else None
  | None => None
  end.

(** [get_config]: the dict [{'name': config_name, **config}] as a pair. *)
Definition get_config (self : AirportPositionAssigner) (r : nat)
    (direction : option string)
  : answer (string * Config.RunwayConfiguration) :=
  match given direction with
  | Some direction =>
      match dict_get (Config.runway_configurations (config self)) direction with
      | None => Fails ValueError
      | Some cfg => Done (direction, cfg)
      end
  | None =>
      config_name ← choice r (available_configs self);
      match dict_get (Config.runway_configurations (config self)) config_name with
      | None => Fails KeyError
      | Some cfg => Done (config_name, cfg)
      end
  end.

Definition get_gate_by_id (self : AirportPositionAssigner) (gate_id : string)
  : option Config.Gate :=
  match dict_get (Config.terminals (config self)) (Process.terminal_id gate_id) with
  | Some terminal =>
      List.find (λ gate, bool_decide (Config.gate_id gate = gate_id))
                (Config.gates terminal)
  | None => None
  end.

(** [specific_point in valid_points]: a [str] equals no list. *)
Definition point_is (specific_point : string) (p : Config.RunwayPoint) : bool :=
  match p with
  | Config.Name n => bool_decide (specific_point = n)
  | Config.NameNode _ _ => false
  end.

(** [', '.join(valid_points)] raises [TypeError] on an item that is no
    [str]. *)
Definition joinable (points : list Config.RunwayPoint) : bool :=
  forallb (λ p, match p with Config.Name _ => true | _ => false end) points.

Definition find_runway_point (r : nat) (cfg : string * Config.RunwayConfiguration)
    (is_departure : bool) (specific_point : option string)
  : answer (option Config.RunwayPoint) :=
  let valid_points :=
    if is_departure then Config.entrances cfg.2 else Config.exits cfg.2 in
  match given specific_point with
  | Some specific_point =>
      if existsb (point_is specific_point) valid_points
      then Done (Some (Config.Name specific_point))
      else if joinable valid_points then Done None else Fails TypeError
  | None =>
      match valid_points with
      | [] => Done None
      | _ => selected ← choice r valid_points; Done (Some selected)
      end
  end.

(** [exclude_terminals and terminal_id in exclude_terminals], negated. *)
Definition is_allowed_terminal (exclude_terminals : option (list string))
    (terminal_id : string) : bool :=
  negb (bool_decide (terminal_id ∈ default [] exclude_terminals)).

(** [[gate for gate in terminal['gates'] if gate['gate_id'] not in
    exclude_gates]]. *)
Definition free_gates (exclude_gates : option (list string))
    (terminal : Config.Terminal) : list Config.Gate :=
  List.filter (λ gate, negb (bool_decide
                               (Config.gate_id gate ∈ default [] exclude_gates)))
              (Config.gates terminal).

(** The gates of the preferred terminal, when one is given, allowed
    and present. *)
Definition preferred_gates (self : AirportPositionAssigner)
    (terminal_preference : option string)
    (exclude_gates exclude_terminals : option (list string)) : list Config.Gate :=
  match given terminal_preference with
  | Some pref =>
      if is_allowed_terminal exclude_terminals pref then
        match dict_get (Config.terminals (config self)) pref with
        | Some terminal => free_gates exclude_gates terminal
        | None => []
        end
      else []
  | None => []
  end.

(** The loop over all terminals. *)
Definition all_free_gates (self : AirportPositionAssigner)
    (exclude_gates exclude_terminals : option (list string)) : list Config.Gate :=
  foldl (λ available (entry : string * Config.Terminal),
           if is_allowed_terminal exclude_terminals entry.1
           then available ++ free_gates exclude_gates entry.2
           else available)
        [] (Config.terminals (config self)).

Definition find_gate (self : AirportPositionAssigner) (r : nat)
    (specific_gate terminal_preference : option string)
    (exclude_gates exclude_terminals : option (list string))
  : answer (option Config.Gate) :=
  match given specific_gate with
  | Some specific_gate =>
      match get_gate_by_id self specific_gate with
      | Some gate =>
          if negb (is_allowed_terminal exclude_terminals
                     (Process.terminal_id specific_gate))
          then Done None
          else if bool_decide (specific_gate ∈ default [] exclude_gates)
          then Done None
          else Done (Some gate)
      | None => Done None
      end
  | None =>
      let available_gates :=
        preferred_gates self terminal_preference exclude_gates exclude_terminals in
      let available_gates :=
        match available_gates with
        | [] => all_free_gates self exclude_gates exclude_terminals
        | _ => available_gates
        end in
      match available_gates with
      | [] => Done None
      | _ => chosen_gate ← choice r available_gates; Done (Some chosen_gate)
      end
  end.

(** The dict [assign_positions] returns. *)
Record Assignment := {
  a_config : string * Config.RunwayConfiguration;
  a_movement_type : string;
  a_gate : option Config.Gate;
  a_runway_point : option Config.RunwayPoint
}.

(** Truth value of what [find_runway_point] returned: a [str] or a
    two-item list. *)
Definition point_given (o : option Config.RunwayPoint) : bool :=
  match o with
  | Some (Config.Name n) => truthy n
  | Some (Config.NameNode _ _) => true
  | None => false
  end.

(** [assign_positions]; [r1], [r2] and [r3] are what the generator
    gives to the three calls of [random.choice], when they happen. *)
Definition assign_positions (self : AirportPositionAssigner) (r1 r2 r3 : nat)
    (movement_type : string)
    (config_direction specific_gate specific_runway_point
       terminal_preference : option string)
    (exclude_gates exclude_terminals : option (list string))
  : answer Assignment :=
  cfg ← get_config self r1 config_direction;
  gate ← find_gate self r2 specific_gate terminal_preference
                   exclude_gates exclude_terminals;
  runway_point ← find_runway_point r3 cfg
                   (bool_decide (movement_type = "departure"))
                   specific_runway_point;
  if bool_decide (is_Some gate) && point_given runway_point
  then Done {| a_config := cfg; a_movement_type := movement_type;
               a_gate := gate; a_runway_point := runway_point |}
  else Done {| a_config := cfg; a_movement_type := movement_type;
               a_gate := None; a_runway_point := None |}.

(** *** Vocabulary of the properties *)

(** [gate] is a gate of an allowed terminal and is not excluded. *)
Definition eligible (self : AirportPositionAssigner)
    (exclude_gates exclude_terminals : option (list string))
    (gate : Config.Gate) : Prop :=
  ∃ tid terminal,
    (tid, terminal) ∈ Config.terminals (config self)
    ∧ gate ∈ Config.gates terminal
    ∧ (tid ∉ default [] exclude_terminals)
    ∧ (Config.gate_id gate ∉ default [] exclude_gates).

(** *** Two assigners used to exercise the statements *)

(** On a document in the shape the router reads: terminal K with the
    gates K24 and K25, entrance and exit W37 pinned to N3. *)
Definition on_router_document : AirportPositionAssigner :=
  {| config := Examples.document
                 [Examples.gate "K24" "N0" "S0"; Examples.gate "K25" "N4" "S4"]
                 ("W37", "N3") ("W37", "N3") |}.

(** On the document the processor writes after classification. *)
Definition on_exported_document : AirportPositionAssigner :=
  {| config := Process.export_config Examples.classified |}.

End Assigner.

(** ** The segments of a line: [_create_segments] and its helpers *)
Module Segmenter.

Import Process.

(** [min(range(len(keys)), key=lambda i: keys[i])]: the index of the
    first least key; a key replaces the best one when it is [<] it. *)
Fixpoint argmin_from (best_i : nat) (best_key : float) (i : nat)
    (keys : list float) : nat :=
  match keys with
  | [] => best_i
  | k :: keys' =>
      if (k <? best_key)%float
      then argmin_from i k (S i) keys'
      else argmin_from best_i best_key (S i) keys'
  end.

Definition argmin (keys : list float) : outcome nat :=
  match keys with
  | [] => Raised ValueError
  | k :: keys' => Returned (argmin_from 0 k 1 keys')
  end.

(** [coords[lo:hi + 1]]. *)
Definition slice (coords : list (float * float)) (lo hi : nat)
  : list (float * float) :=
  take (S hi - lo) (drop lo coords).

(** A node with more ids at the end of its [connected_segments]. *)
Definition with_segments (node : Node) (sids : list string) : Node :=
  {| node_id := node_id node; coordinates := coordinates node;
     connected_segments := connected_segments node ++ sids;
     node_type := node_type node; gate_info := gate_info node |}.

Section Geometry.

(** [shapely]: [Point(a).distance(Point(b))]. *)
Variable distance : float * float → float * float → float.

(** [geopy]: [geodesic(p1, p2).meters] on two (lat, lon) pairs; it
    raises [ValueError] on a latitude out of range. *)
Variable geodesic : float * float → float * float → outcome float.

(** [math.degrees(math.atan2(dy, dx)) % 360]. *)
Variable bearing : float → float → float.

Definition _extract_segment_geometry (coords : list (float * float))
    (start end_ : float * float) : outcome (list (float * float)) :=
  start_idx ← argmin ((λ c, distance c start) <$> coords);
  end_idx ← argmin ((λ c, distance c end_) <$> coords);
  let '(start_idx, end_idx) :=
    if end_idx <? start_idx then (end_idx, start_idx) else (start_idx, end_idx) in
  Returned (slice coords start_idx end_idx).

(** [p[::-1]]: (lon, lat) to (lat, lon). *)
Definition reversed (p : float * float) : float * float := (p.2, p.1).

Fixpoint length_from (total : float) (coords : list (float * float))
  : outcome float :=
  match coords with
  | p1 :: (p2 :: _) as rest =>
      d ← geodesic (reversed p1) (reversed p2);
      length_from (total + d)%float rest
  | _ => Returned total
  end.

Definition _calculate_length (coords : list (float * float)) : outcome float :=
  length_from 0%float coords.

Definition _calculate_heading (coords : list (float * float)) : float :=
  match coords with
  | start :: _ :: _ =>
      let end_ := List.last coords start in
      let dx := (end_.1 - start.1)%float in
      let dy := (end_.2 - start.2)%float in
      bearing dy dx
  | _ => 0%float
  end.

(** [node.connected_segments.append(segment_id)] on the node that the
    reference [ref] points to: the nodes of [points] are the objects of
    [self.nodes], so the append is seen through [self.nodes]. *)
Definition append_segment (nodes : list (string * Node)) (ref : string)
    (sid : string) : outcome (list (string * Node)) :=
  node ← dict_getitem nodes ref;
  Returned (dict_set nodes ref (with_segments node [sid])).

(** The body of the loop "Create segments between consecutive points":
    [pair] refers to [points_on_line[i][1]] and
    [points_on_line[i + 1][1]]. *)
Definition link (line : list (float * float)) (props : list (string * string))
    (self : AirportProcessor) (pair : string * string)
  : outcome AirportProcessor :=
  start_node ← dict_getitem (nodes self) pair.1;
  end_node ← dict_getitem (nodes self) pair.2;
  geometry ← _extract_segment_geometry line (coordinates start_node)
                                       (coordinates end_node);
  len ← _calculate_length geometry;
  let segment := make_segment self props start_node end_node geometry len
                              (_calculate_heading geometry) in
  let segments' := dict_set (segments self) (segment_id segment) segment in
  nodes1 ← append_segment (nodes self) pair.1 (segment_id segment);
  nodes2 ← append_segment nodes1 pair.2 (segment_id segment);
  Returned {| nodes := nodes2; segments := segments';
              config_data := config_data self; gates := gates self;
              runway_points := runway_points self |}.

(** That loop, over the nodes of [points_on_line] once sorted. *)
Definition link_points (self : AirportProcessor) (line : list (float * float))
    (props : list (string * string)) (on_line : list string)
  : outcome AirportProcessor :=
  foldl_outcome (link line props) self (zip on_line (tail on_line)).

(** The loop "Create segments" of [_create_network], each line with
    its sorted nodes. *)
Definition link_lines (self : AirportProcessor)
    (lines : list (list (float * float) * list (string * string) * list string))
  : outcome AirportProcessor :=
  foldl_outcome (λ self entry, link_points self entry.1.1 entry.1.2 entry.2)
                self lines.

End Geometry.

(** *** Vocabulary of the properties *)

(** Every node is stored under its own id. *)
Definition keyed (p : AirportProcessor) : Prop :=
  ∀ k n, dict_get (nodes p) k = Some n → node_id n = k.

(** The segments are numbered in order from [S00000]. *)
Definition numbered (p : AirportProcessor) : Prop :=
  ∀ i entry, segments p !! i = Some entry →
    entry.1 = format_id "S" i ∧ segment_id entry.2 = entry.1.

(** Segments end at stored nodes, and nodes list stored segments. *)
Definition linked (p : AirportProcessor) : Prop :=
  (∀ entry, entry ∈ segments p →
     start_node entry.2 ∈ (nodes p).*1 ∧ end_node entry.2 ∈ (nodes p).*1)
  ∧ (∀ entry sid, entry ∈ nodes p → sid ∈ connected_segments entry.2 →
       sid ∈ (segments p).*1).

(** The ids that the segments [new] add to the list of node [k]: one
    for each end a segment has there, in order. *)
Definition incident (k : string) (new : list (string * Segment)) : list string :=
  new ≫= λ entry,
    (if decide (start_node entry.2 = k) then [entry.1] else [])
    ++ (if decide (end_node entry.2 = k) then [entry.1] else []).

(** A processor as [_create_network] has it before "Create segments". *)
Definition fresh (nodes : list (string * Node)) : AirportProcessor :=
  {| nodes := nodes; segments := [];
     config_data := {| runways := None; parking_positions := None |};
     gates := []; runway_points := known_runway_points |}.

(** *** A line used to exercise the statements *)

Definition flat_distance (a b : float * float) : float :=
  (abs (a.1 - b.1) + abs (a.2 - b.2))%float.

Definition flat_geodesic (a b : float * float) : outcome float :=
  Returned (flat_distance a b).

Definition no_bearing (dy dx : float) : float := 0%float.

Definition straight : list (float * float) :=
  [(0, 0); (1, 0); (2, 0)]%float.

Definition three_nodes : list (string * Node) :=
  [ ("N00000", Examples.plain_node "N00000" (0, 0)%float []);
    ("N00001", Examples.plain_node "N00001" (1, 0)%float []);
    ("N00002", Examples.plain_node "N00002" (2, 0)%float []) ].

Definition taxiway_tags : list (string * string) :=
  [("aeroway", "taxiway"); ("ref", "W2")].

End Segmenter.

(** ** Ground movement physics: [aircraft_physics.py] *)
Module Physics.

Import Raising.

Inductive AircraftSize := LIGHT | MEDIUM | HEAVY | SUPER.

Record AircraftType := {
  size : AircraftSize;
  max_taxi_speed : float;
  max_acceleration : float;
  max_deceleration : float
}.

Record AircraftPhysics := {
  aircraft_type : AircraftType;
  current_speed : float;
  current_heading : float;
  _max_speed_ms : float;
  _speed_safety_margin : float
}.

(** The literal [0.514444], knots to m/s: the binary64 number nearest
    to it, which is also the quotient of the two integers. *)
Definition knot : float := (514444 / 1000000)%float.

(** The literal [0.9]. *)
Definition nine_tenths : float := (9 / 10)%float.

Definition AircraftPhysics_init (t : AircraftType) : AircraftPhysics :=
  {| aircraft_type := t;
     current_speed := 0;
     current_heading := 0;
     _max_speed_ms := (max_taxi_speed t * knot)%float;
     _speed_safety_margin := nine_tenths |}.

(** The builtins [min(a, b)] and [max(a, b)]: the second argument
    replaces the first when it is [<], respectively [>], it. *)
Definition min2 (a b : float) : float := if (b <? a)%float then b else a.
Definition max2 (a b : float) : float := if (a <? b)%float then b else a.

(** [a / b] on two [float]: a zero divisor raises. *)
Definition divide (a b : float) : answer float :=
  if (b =? 0)%float then Fails ZeroDivisionError else Done (a / b)%float.

Section Power.

(** [x ** 2] on a [float]: the C library's [pow], which may raise
    [OverflowError]. *)
Variable squared : float → answer float.

Definition calculate_acceleration (self : AircraftPhysics)
    (desired_speed : float) (distance_to_stop : option float) : answer float :=
  let desired_speed_ms := (desired_speed * knot)%float in
  let speed_diff := (desired_speed_ms - current_speed self)%float in
  if (0 <? speed_diff)%float then
    let max_accel := max_acceleration (aircraft_type self) in
    max_accel ←
      match distance_to_stop with
      | Some distance_to_stop =>
          square ← squared desired_speed_ms;
          stopping_dist ←
            divide square (2 * max_deceleration (aircraft_type self))%float;
          if (distance_to_stop <? stopping_dist)%float then
            limit ← divide (max_deceleration (aircraft_type self)
                            * distance_to_stop)%float stopping_dist;
            Done (min2 max_accel limit)
          else Done max_accel
      | None => Done max_accel
      end;
    Done (min2 max_accel speed_diff)
  else
    Done (max2 (- max_deceleration (aircraft_type self))%float speed_diff).

End Power.

(** [update_speed]: the speed in knots it returns, and the object
    with its new [current_speed]. *)
Definition update_speed (self : AircraftPhysics) (dt acceleration : float)
  : float * AircraftPhysics :=
  let new_speed_ms := (current_speed self + acceleration * dt)%float in
  let new_speed_ms := max2 0%float (min2 new_speed_ms (_max_speed_ms self)) in
  ((new_speed_ms / knot)%float,
   {| aircraft_type := aircraft_type self;
      current_speed := new_speed_ms;
      current_heading := current_heading self;
      _max_speed_ms := _max_speed_ms self;
      _speed_safety_margin := _speed_safety_margin self |}).

(** *** Vocabulary of the properties *)

(** [a <= b] holds of two floats. *)
Definition le (a b : float) : Prop := (a <=? b)%float = true.

(** [x] is a number, not a NaN. *)
Definition ordered (x : float) : Prop :=
  FloatOps.Prim2SF x ≠ SpecFloat.S754_nan.

(** An A320 of [AIRCRAFT_TYPES], rolling at 5 m/s. *)
Definition a320 : AircraftType :=
  {| size := MEDIUM; max_taxi_speed := 20;
     max_acceleration := 1; max_deceleration := 2 |}.

Definition rolling : AircraftPhysics :=
  {| aircraft_type := a320; current_speed := 5; current_heading := 0;
     _max_speed_ms := (20 * knot)%float; _speed_safety_margin := nine_tenths |}.

(** A [pow] that is a plain product and never raises. *)
Definition product (x : float) : answer float := Done (x * x)%float.

End Physics.

(** ** The movement along a path: [taxi_movement.py] *)
Module Movement.

Import Raising Physics.

Record MovementPoint := {
  position : float;
  time : float;
  speed : float;
  acceleration : float;
  segment_id : string;
  node_id : string;
  heading : float
}.

(** A call of the dataclass constructor with keyword arguments: the
    seven fields have no default, so a call that leaves [heading] out
    raises [TypeError]. *)
Definition MovementPoint_init (position time speed acceleration : float)
    (segment_id node_id : string) (heading : option float)
  : answer MovementPoint :=
  match heading with
  | Some heading =>
      Done {| position := position; time := time; speed := speed;
              acceleration := acceleration; segment_id := segment_id;
              node_id := node_id; heading := heading |}
  | None => Fails TypeError
  end.

Record SegmentConstraints := {
  max_speed : float;
  entry_speed : float;
  exit_speed : float;
  length : float
}.

Record TaxiMovement := {
  path : Pathfinder.TaxiPath;
  aircraft : AircraftPhysics;
  segments : gmap string Pathfinder.TaxiSegment;
  movement_points : list MovementPoint;
  segment_constraints : gmap string SegmentConstraints
}.

(** [d[k]] for this module's exceptions. *)
Definition item {V} (d : gmap string V) (k : string) : answer V :=
  match d !! k with
  | Some v => Done v
  | None => Fails KeyError
  end.

(** [l[i]] with [i] a possibly negative index, as Python reads it. *)
Definition at_index {A} (l : list A) (i : Z) : answer A :=
  let i := if (i <? 0)%Z then (i + Z.of_nat (List.length l))%Z else i in
  if (i <? 0)%Z then Fails IndexError
  else match l !! Z.to_nat i with
       | Some a => Done a
       | None => Fails IndexError
       end.

(** [s.lower()]: the letters [A] to [Z] and the accented capitals
    (codes 192 to 222, the sign [×] of code 215 apart) move up by 32. *)
Definition lower_char (c : Ascii.ascii) : Ascii.ascii :=
  let n := Ascii.nat_of_ascii c in
  if (65 <=? n) && (n <=? 90) || (192 <=? n) && (n <=? 222) && negb (n =? 215)
  then Ascii.ascii_of_nat (n + 32) else c.

Fixpoint lower (s : string) : string :=
  match s with
  | EmptyString => EmptyString
  | String c s' => String (lower_char c) (lower s')
  end.

(** [sub in s]. *)
Fixpoint contains (sub s : string) : bool :=
  String.prefix sub s
  || match s with
     | EmptyString => false
     | String _ s' => contains sub s'
     end.

(** The literals [1.2] and [1.1]. *)
Definition runway_factor : float := (12 / 10)%float.
Definition rapid_factor : float := (11 / 10)%float.

(** "Base max speed on segment type and aircraft constraints". *)
Definition base_max_speed_of (aircraft : AircraftPhysics)
    (segment : Pathfinder.TaxiSegment) : float :=
  let base_max_speed := max_taxi_speed (aircraft_type aircraft) in
  if bool_decide (Pathfinder.segment_type segment = "runway")
  then (base_max_speed * runway_factor)%float
  else if contains "rapid" (lower (Pathfinder.name segment))
  then (base_max_speed * rapid_factor)%float
  else base_max_speed.

(** [i == len(self.path.segments) - 1]. *)
Definition is_last (self_path : Pathfinder.TaxiPath) (i : nat) : bool :=
  bool_decide (Z.of_nat i
               = (Z.of_nat (List.length (Pathfinder.segments self_path)) - 1)%Z).

(** The body of the loop of [_calculate_segment_constraints], at
    index [i] of the path. *)
Definition constrain (self : TaxiMovement)
    (constraints : gmap string SegmentConstraints) (i : nat) (sid : string)
  : answer (gmap string SegmentConstraints) :=
  segment ← item (segments self) sid;
  let base_max_speed := base_max_speed_of (aircraft self) segment in
  previous_exit ←
    (if bool_decide (0 < i) then
       previous ← at_index (Pathfinder.segments (path self)) (Z.of_nat i - 1);
       c ← item constraints previous;
       Done (exit_speed c)
     else Done base_max_speed);
  let entry_speed := min2 base_max_speed previous_exit in
  let exit_speed :=
    if is_last (path self) i then 0%float else base_max_speed in
  Done (<[sid := {| max_speed := base_max_speed; entry_speed := entry_speed;
                    exit_speed := exit_speed;
                    length := Pathfinder.length segment |}]> constraints).

Fixpoint constrain_from (self : TaxiMovement)
    (constraints : gmap string SegmentConstraints) (i : nat)
    (rest : list string) : answer (gmap string SegmentConstraints) :=
  match rest with
  | [] => Done constraints
  | sid :: rest' =>
      constraints' ← constrain self constraints i sid;
      constrain_from self constraints' (S i) rest'
  end.

Definition _calculate_segment_constraints (self : TaxiMovement)
  : answer TaxiMovement :=
  constraints ← constrain_from self (segment_constraints self) 0
                               (Pathfinder.segments (path self));
  Done {| path := path self; aircraft := aircraft self;
          segments := segments self;
          movement_points := movement_points self;
          segment_constraints := constraints |}.

Definition TaxiMovement_init (taxi_path : Pathfinder.TaxiPath)
    (aircraft : AircraftPhysics)
    (segments : gmap string Pathfinder.TaxiSegment) : answer TaxiMovement :=
  _calculate_segment_constraints
    {| path := taxi_path; aircraft := aircraft; segments := segments;
       movement_points := []; segment_constraints := ∅ |}.

(** The local variables of [calculate_movement_profile] that outlive
    an iteration, with the object. *)
Record Profile := {
  self_ : TaxiMovement;
  current_time : float;
  current_speed_ : float;
  current_position : float;
  position_in_segment : float
}.

Section Power.

Variable squared : float → answer float.

(** The body of the [while] loop, on segment [i] of the path. *)
Definition step (time_step : float) (i : nat) (sid : string)
    (segment : Pathfinder.TaxiSegment) (constraints : SegmentConstraints)
    (st : Profile) : answer Profile :=
  progress ← divide (position_in_segment st) (length constraints);
  let target_speed :=
    (entry_speed constraints
     + (exit_speed constraints - entry_speed constraints) * progress)%float in
  let distance_remaining := (length constraints - position_in_segment st)%float in
  acceleration ←
    calculate_acceleration squared (aircraft (self_ st)) target_speed
      (if is_last (path (self_ st)) i then Some distance_remaining else None);
  let '(new_speed, aircraft') :=
    update_speed (aircraft (self_ st)) time_step acceleration in
  let avg_speed := ((current_speed_ st + new_speed) / 2)%float in
  let distance_moved := (avg_speed * knot * time_step)%float in
  point ←
    MovementPoint_init
      (current_position st + position_in_segment st)%float
      (current_time st) (current_speed_ st) acceleration sid
      (if (0.5 <? progress)%float
       then Pathfinder.end_node segment else Pathfinder.start_node segment)
      None;
  Done {| self_ := {| path := path (self_ st); aircraft := aircraft';
                      segments := segments (self_ st);
                      movement_points := movement_points (self_ st) ++ [point];
                      segment_constraints := segment_constraints (self_ st) |};
          current_time := (current_time st + time_step)%float;
          current_speed_ := new_speed;
          current_position := current_position st;
          position_in_segment := (position_in_segment st + distance_moved)%float |}.

(** The [while] loop; [fuel] bounds its iterations. *)
Fixpoint along (fuel : nat) (time_step : float) (i : nat) (sid : string)
    (segment : Pathfinder.TaxiSegment) (constraints : SegmentConstraints)
    (st : Profile) : answer Profile :=
  if (position_in_segment st <? length constraints)%float then
    match fuel with
    | 0 => Unfinished
    | S fuel' =>
        st' ← step time_step i sid segment constraints st;
        along fuel' time_step i sid segment constraints st'
    end
  else Done st.

(** The body of the [for] loop. *)
Definition traverse (fuel : nat) (time_step : float) (st : Profile) (i : nat)
    (sid : string) : answer Profile :=
  segment ← item (segments (self_ st)) sid;
  constraints ← item (segment_constraints (self_ st)) sid;
  st' ← along fuel time_step i sid segment constraints
          {| self_ := self_ st; current_time := current_time st;
             current_speed_ := current_speed_ st;
             current_position := current_position st;
             position_in_segment := 0 |};
  Done {| self_ := self_ st'; current_time := current_time st';
          current_speed_ := current_speed_ st';
          current_position := (current_position st' + length constraints)%float;
          position_in_segment := position_in_segment st' |}.

Fixpoint traverse_from (fuel : nat) (time_step : float) (st : Profile) (i : nat)
    (rest : list string) : answer Profile :=
  match rest with
  | [] => Done st
  | sid :: rest' =>
      st' ← traverse fuel time_step st i sid;
      traverse_from fuel time_step st' (S i) rest'
  end.

(** [calculate_movement_profile]: the list it returns and the object. *)
Definition calculate_movement_profile (fuel : nat) (self : TaxiMovement)
    (time_step : float) : answer (list MovementPoint * TaxiMovement) :=
  st ← traverse_from fuel time_step
         {| self_ := {| path := path self; aircraft := aircraft self;
                        segments := segments self; movement_points := [];
                        segment_constraints := segment_constraints self |};
            current_time := 0; current_speed_ := 0; current_position := 0;
            position_in_segment := 0 |}
         0 (Pathfinder.segments (path self));
  Done (movement_points (self_ st), self_ st).

End Power.

(** *** Vocabulary of the properties *)

(** The constraints of the segment [sid] once the first [i] segments of
    the path are done: its length and base speed, and an exit speed of
    0 only where the path ends. *)
Definition constrained (self : TaxiMovement)
    (constraints : gmap string SegmentConstraints) (i : nat) (sid : string)
  : Prop :=
  ∃ segment c,
    segments self !! sid = Some segment
    ∧ constraints !! sid = Some c
    ∧ length c = Pathfinder.length segment
    ∧ max_speed c = base_max_speed_of (aircraft self) segment
    ∧ exit_speed c
      = if bool_decide (i = List.length (Pathfinder.segments (path self))
                        ∧ last (Pathfinder.segments (path self)) = Some sid)
        then 0%float else max_speed c.

(** The object as [calculate_movement_profile] leaves it when it has
    recorded nothing. *)
Definition cleared (self : TaxiMovement) : TaxiMovement :=
  {| path := path self; aircraft := aircraft self; segments := segments self;
     movement_points := []; segment_constraints := segment_constraints self |}.

(** The segment [sid] is there, with constraints, and its length is
    not above 0: the [while] loop does not start on it. *)
Definition skipped (self : TaxiMovement) (sid : string) : Prop :=
  is_Some (segments self !! sid)
  ∧ ∃ c, segment_constraints self !! sid = Some c
         ∧ (0 <? length c)%float = false.

(** *** A movement used to exercise the statements *)

Definition stub_segments : gmap string Pathfinder.TaxiSegment :=
  list_to_map
    ((λ s, (Pathfinder.segment_id s, s))
       <$> Pathfinder.all_segments Examples.far_end).

(** A path over a segment of length 0, and the movement on it. *)
Definition point_segment : Pathfinder.TaxiSegment :=
  {| Pathfinder.segment_id := "S9"; Pathfinder.name := "W9";
     Pathfinder.start_node := "N9"; Pathfinder.end_node := "N9";
     Pathfinder.length := 0; Pathfinder.segment_type := "taxiway" |}.

Definition standing : TaxiMovement :=
  {| path := {| Pathfinder.segments := ["S9"];
                Pathfinder.total_distance := 0;
                Pathfinder.waypoints := [] |};
     aircraft := AircraftPhysics_init a320;
     segments := {["S9" := point_segment]};
     movement_points := [];
     segment_constraints :=
       {["S9" := {| max_speed := 20; entry_speed := 20; exit_speed := 0;
                    length := 0 |}]} |}.

End Movement.

(** ** The router as an object: methods that read and write [self] *)
Module Stateful.

Import Pathfinder.

(** A method runs on the object [self]. It ends in a result or in an
    exception, and in the object as the call leaves it: what a
    statement has written to an attribute stays written when a later
    statement raises. *)
Definition method (A : Type) : Type := Airport → outcome A * Airport.

#[global] Instance method_ret : MRet method :=
  λ A a self, (Returned a, self).

#[global] Instance method_bind : MBind method := λ A B f m self,
  match m self with
  | (Returned a, self') => f a self'
  | (Raised e, self') => (Raised e, self')
  | (OutOfFuel, self') => (OutOfFuel, self')
  end.

(** An expression on the values of the call only. *)
Definition local {A} (o : outcome A) : method A := λ self, (o, self).

(** [self.attribute], read. *)
Definition attr {A} (attribute : Airport → A) : method A :=
  λ self, (Returned (attribute self), self).

(** [self.config = value], and the changes in place of the [dict] or
    [list] that an attribute holds. *)
Definition set_config (value : Config.Document) : method unit :=
  λ self, (Returned tt,
           {| config := value;
              segments_by_name := segments_by_name self;
              all_segments := all_segments self;
              graph := graph self;
              airport_config := airport_config self |}).

Definition set_segments_by_name (value : gmap string (list TaxiSegment))
  : method unit :=
  λ self, (Returned tt,
           {| config := config self;
              segments_by_name := value;
              all_segments := all_segments self;
              graph := graph self;
              airport_config := airport_config self |}).

Definition set_all_segments (value : list TaxiSegment) : method unit :=
  λ self, (Returned tt,
           {| config := config self;
              segments_by_name := segments_by_name self;
              all_segments := value;
              graph := graph self;
              airport_config := airport_config self |}).

Definition set_graph (value : gmap string (list Edge)) : method unit :=
  λ self, (Returned tt,
           {| config := config self;
              segments_by_name := segments_by_name self;
              all_segments := all_segments self;
              graph := value;
              airport_config := airport_config self |}).

(** [for x in l: body], and the same loop on a value of the call that
    the body updates. *)
Fixpoint for_each {B} (body : B → method unit) (l : list B) : method unit :=
  match l with
  | [] => mret tt
  | x :: l' => body x;; for_each body l'
  end.

Fixpoint fold_method {A B} (body : A → B → method A) (a : A) (l : list B)
  : method A :=
  match l with
  | [] => mret a
  | x :: l' => a' ← body a x; fold_method body a' l'
  end.

(** *** [__init__] and [_load_data] *)

(** The object when [__init__] calls [_load_data]: no segment, an
    empty graph. *)
Definition blank (cfg : Config.Document) (airport_cfg : string) : Airport :=
  {| config := cfg; segments_by_name := ∅; all_segments := []; graph := ∅;
     airport_config := airport_cfg |}.

(** The body of the loop "Process segments". *)
Definition process_feature (feature : GeoJSON.Feature) : method unit :=
  match feature with
  | GeoJSON.LineString _ props =>
      match GeoJSON.name props with
      | Some n =>
          if truthy n then
            let segment := segment_of_properties n props in
            by_name ← attr segments_by_name;
            (if bool_decide (is_Some (by_name !! n)) then mret tt
             else set_segments_by_name (<[n := []]> by_name));;
            by_name ← attr segments_by_name;
            l ← local (getitem by_name n);
            set_segments_by_name (<[n := l ++ [segment]]> by_name);;
            all ← attr all_segments;
            set_all_segments (all ++ [segment])
          else mret tt
      | None => mret tt
      end
  | GeoJSON.Point _ _ => mret tt
  end.

(** [if node not in self.graph: self.graph[node] = []]. *)
Definition ensure_node (node : string) : method unit :=
  g ← attr graph;
  if bool_decide (is_Some (g !! node)) then mret tt
  else set_graph (<[node := []]> g).

(** [self.graph[node].append(edge)]. *)
Definition append_edge (node : string) (e : Edge) : method unit :=
  g ← attr graph;
  l ← local (getitem g node);
  set_graph (<[node := l ++ [e]]> g).

(** The body of the loop "Build graph". *)
Definition add_to_graph (segment : TaxiSegment) : method unit :=
  ensure_node (start_node segment);;
  ensure_node (end_node segment);;
  append_edge (start_node segment)
    (end_node segment, segment_id segment, length segment);;
  append_edge (end_node segment)
    (start_node segment, segment_id segment, length segment).

Definition _load_data (cfg : Config.Document) (data : list GeoJSON.Feature)
  : method unit :=
  set_config cfg;;
  for_each process_feature data;;
  all ← attr all_segments;
  for_each add_to_graph all.

(** *** [validate_movement] *)

(** [self.config['runway_configurations'][self.airport_config]]. *)
Definition runway_config : method Config.RunwayConfiguration :=
  cfg ← attr config;
  airport_cfg ← attr airport_config;
  local (dict_getitem (Config.runway_configurations cfg) airport_cfg).

(** The loop over the terminals that sets [gate_found]. *)
Definition gate_found (gate_id : string) : method bool :=
  cfg ← attr config;
  mret (existsb (λ terminal : string * Config.Terminal,
                   existsb (λ gate, bool_decide (Config.gate_id gate = gate_id))
                           (Config.gates terminal.2))
                (Config.terminals cfg)).

Definition validate_movement (movement_type : MovementType)
    (points : list string) : method bool :=
  match points with
  | [] | [_] => mret false
  | first :: _ :: _ =>
      let last := List.last points first in
      match movement_type with
      | ARRIVAL =>
          rc ← runway_config;
          exit_node ← local (find_point first (Config.exits rc));
          match exit_node with
          | None => mret false
          | Some _ => gate_found last
          end
      | DEPARTURE =>
          found ← gate_found first;
          if found : bool then
            rc ← runway_config;
            entrance_node ← local (find_point last (Config.entrances rc));
            match entrance_node with
            | None => mret false
            | Some _ => mret true
            end
          else mret false
      end
  end.

(** *** The search: [dijkstra_multi_target] *)

(** [next(s for s in self.all_segments if s.segment_id == segment_id)]. *)
Definition segment_by_id (sid : string) : method TaxiSegment :=
  all ← attr all_segments;
  local (match List.find (λ s, bool_decide (segment_id s = sid)) all with
         | Some s => Returned s
         | None => Raised StopIteration
         end).

(** The body of [for next_node, segment_id, length in self.graph[current]];
    [distances] and the queue are values of the call. *)
Definition relax (forbidden : gset string) (allowed : option (gset string))
    (dist : float) (path : list string)
    (st : Distances * list Entry) (edge : Edge)
  : method (Distances * list Entry) :=
  let '(next_node, sid, len) := edge in
  if bool_decide (sid ∈ forbidden) then mret st else
  segment ← segment_by_id sid;
  if name_excluded allowed (name segment) then mret st else
  let new_dist := (dist + len)%float in
  let new_path := path ++ [sid] in
  known ← local (getitem st.1 next_node);
  if (new_dist <? known.1)%float
  then mret (<[next_node := (new_dist, new_path)]> st.1,
             heappush st.2 (new_dist, next_node, new_path))
  else mret st.

(** The [while] loop; [fuel] bounds the number of entries popped. *)
Fixpoint search (fuel : nat) (target_nodes : gset string)
    (forbidden : gset string) (allowed : option (gset string))
    (distances : Distances) (pq : list Entry) (found_targets : gset string)
  : method Distances :=
  match pq with
  | [] => mret distances
  | x :: rest =>
      if bool_decide (size found_targets < size target_nodes) then
        match fuel with
        | 0 => local OutOfFuel
        | S fuel' =>
            let '((dist, current, path), pq') := heappop_from x rest in
            let found_targets' :=
              if bool_decide (current ∈ target_nodes)
              then found_targets ∪ {[current]} else found_targets in
            known ← local (getitem distances current);
            if (known.1 <? dist)%float
            then search fuel' target_nodes forbidden allowed
                        distances pq' found_targets'
            else
              g ← attr graph;
              edges ← local (getitem g current);
              '(distances', pq'') ←
                fold_method (relax forbidden allowed dist path)
                            (distances, pq') edges;
              search fuel' target_nodes forbidden allowed
                     distances' pq'' found_targets'
        end
      else mret distances
  end.

(** [start in self.graph]. *)
Definition in_graph (node : string) : method bool :=
  g ← attr graph;
  mret (bool_decide (is_Some (g !! node))).

Definition dijkstra_multi_target (fuel : nat)
    (start_nodes : list string) (target_nodes : gset string)
    (forbidden_segments : option (gset string))
    (allowed_segment_names : option (gset string)) : method Distances :=
  let forbidden := default ∅ forbidden_segments in
  g ← attr graph;
  let distances : Distances :=
    (λ _ : list Edge, (infinity, [] : list string)) <$> g in
  distances ←
    fold_method (λ (d : Distances) start,
                   known ← in_graph start;
                   mret (if known : bool then <[start := (0%float, [])]> d else d))
                distances start_nodes;
  queued ←
    fold_method (λ (pq : list string) start,
                   known ← in_graph start;
                   mret (if known : bool then pq ++ [start] else pq))
                [] start_nodes;
  let pq := (λ start, (0%float, start, [] : list string)) <$> queued in
  search fuel target_nodes forbidden allowed_segment_names distances pq ∅.

(** *** [find_path] *)

(** The objects the method and its nested functions change are made by
    the call: [path] by [TaxiPath()], [used_segments], [nodes],
    [found_targets] and the default of [forbidden_segments] by [set()],
    [distances] and [pq] by comprehensions, and every [new_path] by
    [path + [segment_id]]; they are values here. What the call takes
    from [self] (the lists of [segments_by_name] and of [graph],
    [all_segments], the configuration) it iterates and indexes, and
    passes to no call that changes its argument. *)

(** The verification loop that sets [valid_path]. *)
Fixpoint names_allowed (allowed : gset string) (segment_path : list string)
  : method bool :=
  match segment_path with
  | [] => mret true
  | sid :: segment_path' =>
      segment ← segment_by_id sid;
      if bool_decide (name segment ∈ allowed)
      then names_allowed allowed segment_path'
      else mret false
  end.

(** The body of [for target_node in target_nodes]. *)
Definition consider_target (allowed : gset string) (distances : Distances)
    (best : option string * float * option (list string)) (target_node : string)
  : method (option string * float * option (list string)) :=
  '(dist, segment_path) ← local (getitem distances target_node);
  if (dist <? best.1.2)%float then
    valid_path ← names_allowed allowed segment_path;
    if valid_path : bool
    then mret (Some target_node, dist, Some segment_path)
    else mret best
  else mret best.

(** The loop "Add path segments"; the path and the set of used
    segments are objects of the call. *)
Definition add_path_segment (acc : TaxiPath * gset string) (sid : string)
  : method (TaxiPath * gset string) :=
  segment ← segment_by_id sid;
  mret (add_segment acc.1 sid (length segment), acc.2 ∪ {[sid]}).

(** The first segment and its node, before the fall-back, and [gate_node]. *)
Definition choose_first (movement_type : MovementType)
    (first : string) (first_segments : list TaxiSegment)
  : method (option (TaxiSegment * string) * option string) :=
  match movement_type with
  | DEPARTURE =>
      cfg ← attr config;
      let gate_node := find_gate_node first (Config.terminals cfg) None in
      mret (match gate_node with
            | Some g =>
                if truthy g
                then (λ seg, (seg, g)) <$> List.find (touches g) first_segments
                else None
            | None => None
            end, gate_node)
  | ARRIVAL =>
      mret ((λ seg, (seg, end_node seg))
              <$> List.find (λ seg, bool_decide (segment_type seg = "runway"))
                            first_segments,
            None)
  end.

(** "Add final segment if needed". *)
Definition closing_node (movement_type : MovementType) (last_point : string)
  : method (option string) :=
  match movement_type with
  | DEPARTURE =>
      rc ← runway_config;
      local (find_point last_point (Config.entrances rc))
  | ARRIVAL =>
      cfg ← attr config;
      mret (find_gate_node last_point (Config.terminals cfg) None)
  end.

Definition closing_segment (movement_type : MovementType)
    (last_point : string) (last_node : string) : method (option TaxiSegment) :=
  node ← closing_node movement_type last_point;
  match node with
  | Some e =>
      if truthy e
      then by_name ← attr segments_by_name;
           mret (List.find (λ seg, touches e seg && touches last_node seg)
                           (default [] (by_name !! last_point)))
      else mret None
  | None => mret None
  end.

(** "For other waypoints, get all connected nodes"; [nodes] is a set
    of the call. *)
Definition waypoint_nodes (waypoint : string) : method (gset string) :=
  by_name ← attr segments_by_name;
  mret (foldl (λ nodes segment,
                 nodes ∪ {[start_node segment]} ∪ {[end_node segment]})
              ∅ (default [] (by_name !! waypoint))).

Section Router.

Variable set_iter : gset string → list string.
Variable fuel : nat.

(** The nested function [get_segment_nodes]. *)
Definition get_segment_nodes (points : list string)
    (movement_type : MovementType) (waypoint : string)
    (enforce_node : option string) : method (gset string) :=
  match enforce_node with
  | Some node => mret {[node]}
  | None =>
      pinned ←
        (if bool_decide (movement_type = ARRIVAL)
            && bool_decide (head points = Some waypoint)
         then rc ← runway_config; local (find_point waypoint (Config.exits rc))
         else if bool_decide (movement_type = DEPARTURE)
                 && bool_decide (last points = Some waypoint)
         then rc ← runway_config;
              local (find_point waypoint (Config.entrances rc))
         else mret None);
      match pinned with
      | Some node => mret {[node]}
      | None => waypoint_nodes waypoint
      end
  end.

(** One iteration of the loop "Find path through waypoints", up to the
    choice of [best_path] and [best_target]. *)
Definition route_leg (points : list string) (movement_type : MovementType)
    (st : SearchState) : method (option (list string * string)) :=
  match points !! current_waypoint_idx st,
        points !! S (current_waypoint_idx st) with
  | Some current_waypoint, Some next_waypoint =>
      enforce_node ←
        (if bool_decide (movement_type = DEPARTURE)
            && bool_decide (last points = Some next_waypoint)
         then rc ← runway_config;
              local (find_point next_waypoint (Config.entrances rc))
         else mret None);
      target_nodes ←
        get_segment_nodes points movement_type next_waypoint enforce_node;
      let allowed_segments : gset string :=
        {[current_waypoint]} ∪ {[next_waypoint]} in
      distances ←
        dijkstra_multi_target fuel [last_node st] target_nodes
          (Some (used_segments st)) (Some allowed_segments);
      best ←
        fold_method (consider_target allowed_segments distances)
                    (None, infinity, None) (set_iter target_nodes);
      match best with
      | (Some best_target, _, Some best_path) =>
          mret (Some (best_path, best_target))
      | _ => mret None
      end
  | _, _ => local (Raised IndexError)
  end.

(** The rest of the iteration: append the leg, move the anchor. *)
Definition advance (st : SearchState)
    (best_path : list string) (best_target : string) : method SearchState :=
  '(p, used) ←
    fold_method add_path_segment (path st, used_segments st) best_path;
  mret {| path := p; used_segments := used; last_node := best_target;
          current_waypoint_idx := S (current_waypoint_idx st) |}.

(** The [while] loop, [n] iterations from the state [st]. *)
Fixpoint main_loop (n : nat) (points : list string)
    (movement_type : MovementType) (st : SearchState)
  : method (option SearchState) :=
  match n with
  | 0 => mret (Some st)
  | S n' =>
      leg ← route_leg points movement_type st;
      match leg with
      | None => mret None
      | Some (best_path, best_target) =>
          st' ← advance st best_path best_target;
          main_loop n' points movement_type st'
      end
  end.

(** The state the loop starts from; [None] is "No segments found". *)
Definition initial_state (points : list string)
    (movement_type : MovementType) : method (option SearchState) :=
  match points with
  | [] => local (Raised IndexError)
  | first :: _ =>
      by_name ← attr segments_by_name;
      match default [] (by_name !! first) with
      | [] => mret None
      | (seg0 :: _) as first_segments =>
          '(chosen, gate_node) ←
            choose_first movement_type first first_segments;
          let '(first_segment, first_node) :=
            default (seg0, end_node seg0) chosen in
          let p := add_segment TaxiPath_init (segment_id first_segment)
                               (length first_segment) in
          let used : gset string :=
            if bool_decide (movement_type = DEPARTURE)
               && bool_decide (gate_node = Some first_node)
            then ∅ else {[segment_id first_segment]} in
          mret (Some {| path := p; used_segments := used;
                        last_node := first_node;
                        current_waypoint_idx := 0 |})
      end
  end.

Definition find_path (points : list string) (movement_type : MovementType)
  : method (option TaxiPath) :=
  valid ← validate_movement movement_type points;
  if valid : bool then
    st0 ← initial_state points movement_type;
    match st0 with
    | None => mret None
    | Some st0 =>
        st ← main_loop (List.length points - 1) points movement_type st0;
        match st with
        | None => mret None
        | Some st =>
            closing ← closing_segment movement_type
                        (default "" (last points)) (last_node st);
            match closing with
            | Some seg =>
                mret (Some (add_segment (path st) (segment_id seg) (length seg)))
            | None => mret (Some (path st))
            end
        end
    end
  else mret None.

End Router.

(** *** Vocabulary of the properties *)

(** A method that leaves the object as it found it, whatever it
    returns or raises. *)
Definition reads_only {A} (m : method A) : Prop :=
  ∀ self, (m self).2 = self.

End Stateful.

(** ** Properties *)

(** *** Outcomes and dictionaries *)

Lemma bind_returned {A B} (m : outcome A) (f : A → outcome B) b :
  m ≫= f = Returned b → ∃ a, m = Returned a ∧ f a = Returned b.
Proof. destruct m; simpl; [eauto|done..]. Qed.

Module RouterFacts.
Import Pathfinder.

Lemma last_default (l : list string) (x d : string) :
  last l = Some x → List.last l d = x.
Proof.
  induction l as [|a [|b l] IH]; simpl; intros H; try congruence.
  apply IH. exact H.
Qed.

#[local] Arguments List.last : simpl never.

Lemma find_point_pairs wp l :
  Forall pair_shaped l →
  ∃ o, find_point wp l = Returned o
       ∧ (wp ∉ point_name <$> l → o = None)
       ∧ (wp ∈ point_name <$> l → is_Some o).
Proof.
  induction 1 as [|p l Hp Hl IH]; simpl.
  - exists None. split; [done|]. split; [done|]. intros H. inversion H.
  - destruct p as [n|n node]; [done|]. simpl.
    destruct (decide (wp = n)) as [->|Hne].
    + exists (Some node). split; [done|]. split; [|by eauto].
      intros H. exfalso. apply H. left.
    + destruct IH as (o & Ho & Hnone & Hsome). exists o. split; [done|]. split.
      * intros H. apply Hnone. intros Hin. apply H. by right.
      * intros H. apply Hsome. inversion H; subst; [congruence|done].
Qed.

Lemma gate_found_known self g : gate_found self g = true ↔ known_gate self g.
Proof.
  unfold gate_found, known_gate. rewrite existsb_exists. split.
  - intros (t & Ht & Hg). apply existsb_exists in Hg as (gt & Hgt & Heq).
    exists t, gt. rewrite !list_elem_of_In. by apply bool_decide_eq_true in Heq.
  - intros (t & gt & Ht & Hgt & Heq). exists t. rewrite <- list_elem_of_In. split; [done|].
    apply existsb_exists. exists gt. rewrite <- list_elem_of_In. split; [done|].
    by apply bool_decide_eq_true.
Qed.




Lemma validate_closing_node self movement_type points :
  validate self movement_type points = Returned true →
  ∃ o, closing_node self movement_type (default "" (last points)) = Returned o.
Proof.
  destruct movement_type; [by eexists|].
  destruct points as [|first [|second rest]]; [done..|].
  assert (Hlast : default "" (last (first :: second :: rest))
                  = List.last (first :: second :: rest) first).
  { destruct (last (first :: second :: rest)) as [w|] eqn:E;
      [by rewrite (last_default _ _ _ E)|].
    by apply last_None in E. }
  unfold validate, closing_node. rewrite Hlast.
  destruct (gate_found self first); [|done].
  destruct (runway_config self) as [rc| |]; simpl; [|done..].
  destruct (find_point _ _) as [o| |]; simpl; [|done..]. by eexists.
Qed.

(** C9. When the loop has succeeded and no segment named after the last
    waypoint touches both the node the loop ended at and the pinned node
    (the entrance node of a departure, the gate node of an arrival),
    [find_path] appends nothing and returns the accumulated path. *)
Theorem closing_segment_optional set_iter fuel self points movement_type st0 st :
  validate self movement_type points = Returned true →
  initial_state self points movement_type = Returned (Some st0) →
  main_loop set_iter fuel (List.length points - 1) self points movement_type st0
    = Returned (Some st) →
  (∀ last_point node seg,
      last points = Some last_point →
      closing_node self movement_type last_point = Returned (Some node) →
      seg ∈ default [] (segments_by_name self !! last_point) →
      ¬ (touches node seg ∧ touches (last_node st) seg)) →
  (find_path set_iter fuel self points movement_type).1 = Returned (Some (path st)).
Proof.
  intros Hvalid Hinit Hloop Hnone.
  unfold find_path, validate_movement. rewrite Hvalid. simpl.
  unfold route. rewrite Hinit. simpl. rewrite Hloop. simpl.
  destruct (validate_closing_node _ _ _ Hvalid) as (o & Ho).
  unfold closing_segment. rewrite Ho. simpl.
  destruct o as [node|]; [|done].
  destruct (truthy node); [|done].
  destruct (List.find _ _) as [seg|] eqn:Hfind; [|done].
  exfalso. apply find_some in Hfind as [Hin Hboth].
  assert (Hlp : last points = Some (default "" (last points))).
  { destruct (last points) eqn:E; [done|]. apply last_None in E.
    subst points. done. }
  apply (Hnone _ node seg Hlp Ho); [by apply list_elem_of_In|].
  apply andb_prop in Hboth as [H1 H2]. by rewrite H1, H2.
Qed.

Lemma names_allowed_true self allowed p :
  names_allowed self allowed p = Returned true →
  Forall (named_within self allowed) p.
Proof.
  induction p as [|sid p IH]; simpl; [constructor|].
  intros H. apply bind_returned in H as (seg & Hseg & H).
  case_bool_decide; [|done].
  constructor; [by exists seg|by apply IH].
Qed.

Lemma consider_targets_valid self allowed distances targets best best' :
  valid_best self allowed best →
  foldl_outcome (consider_target self allowed distances) best targets
    = Returned best' →
  valid_best self allowed best'.
Proof.
  revert best. induction targets as [|t targets IH]; simpl; intros best Hb H.
  - by injection H as <-.
  - apply bind_returned in H as (b1 & H1 & H). apply (IH b1); [|done].
    unfold consider_target in H1.
    apply bind_returned in H1 as ([dist sp] & _ & H1).
    destruct (dist <? best.1.2)%float; [|by injection H1 as <-].
    apply bind_returned in H1 as (valid & Hv & H1).
    destruct valid; injection H1 as <-; [|done].
    by apply names_allowed_true.
Qed.

Lemma route_leg_names set_iter fuel self points movement_type st best_path best_target :
  route_leg set_iter fuel self points movement_type st
    = Returned (Some (best_path, best_target)) →
  ∃ w_i w_j,
    points !! current_waypoint_idx st = Some w_i
    ∧ points !! S (current_waypoint_idx st) = Some w_j
    ∧ Forall (named_within self ({[w_i]} ∪ {[w_j]})) best_path.
Proof.
  unfold route_leg.
  destruct (points !! current_waypoint_idx st) as [w_i|]; [|done].
  destruct (points !! S (current_waypoint_idx st)) as [w_j|]; [|done].
  intros H. exists w_i, w_j. split; [done|]. split; [done|].
  apply bind_returned in H as (enforce & _ & H).
  apply bind_returned in H as (targets & _ & H).
  apply bind_returned in H as (distances & _ & H).
  apply bind_returned in H as (best & Hbest & H).
  apply consider_targets_valid in Hbest; [|done].
  destruct best as [[[t|] d] [p|]]; try done.
  by injection H as <- <-.
Qed.

Lemma add_path_segments self best_path acc acc' :
  foldl_outcome (add_path_segment self) acc best_path = Returned acc' →
  segments acc'.1 = segments acc.1 ++ best_path.
Proof.
  revert acc. induction best_path as [|sid l IH]; simpl; intros acc H.
  - injection H as <-. by rewrite app_nil_r.
  - apply bind_returned in H as (a1 & H1 & H). rewrite (IH _ H).
    unfold add_path_segment in H1.
    apply bind_returned in H1 as (seg & _ & H1). injection H1 as <-.
    simpl. by rewrite <- app_assoc.
Qed.

Lemma advance_spec self st best_path best_target st' :
  advance self st best_path best_target = Returned st' →
  segments (path st') = segments (path st) ++ best_path
  ∧ current_waypoint_idx st' = S (current_waypoint_idx st)
  ∧ last_node st' = best_target.
Proof.
  unfold advance. intros H.
  apply bind_returned in H as ([p used] & Hfold & H). injection H as <-.
  apply add_path_segments in Hfold. done.
Qed.

Lemma main_loop_legs set_iter fuel self points movement_type n st st' :
  main_loop set_iter fuel n self points movement_type st = Returned (Some st') →
  let legs := leg_paths set_iter fuel n self points movement_type st in
  segments (path st') = segments (path st) ++ concat legs
  ∧ List.length legs = n
  ∧ ∀ i leg, legs !! i = Some leg →
             leg_within self points (current_waypoint_idx st + i) leg.
Proof.
  revert st. induction n as [|n IH]; simpl; intros st H.
  - injection H as <-. by rewrite app_nil_r.
  - apply bind_returned in H as (leg & Hleg & H). rewrite Hleg.
    destruct leg as [[best_path best_target]|]; [|done].
    apply bind_returned in H as (st1 & Hadv & H). rewrite Hadv.
    destruct (IH _ H) as (Hseg & Hlen & Hlegs).
    destruct (advance_spec _ _ _ _ _ Hadv) as (Hseg1 & Hidx & _).
    split; [|split].
    + simpl. rewrite Hseg, Hseg1. by rewrite <- app_assoc.
    + simpl. by rewrite Hlen.
    + intros [|i] leg Hi; simpl in Hi.
      * injection Hi as <-. rewrite Nat.add_0_r.
        destruct (route_leg_names _ _ _ _ _ _ _ _ Hleg) as (w_i & w_j & Hi & Hj & Hall).
        exists w_i, w_j. split; [done|]. split; [done|].
        intros sid Hsid. rewrite Forall_forall in Hall.
        destruct (Hall _ Hsid) as (seg & Hseg' & Hname). exists seg. split; [done|].
        set_solver.
      * specialize (Hlegs _ _ Hi). rewrite Hidx in Hlegs.
        by replace (current_waypoint_idx st + S i) with (S (current_waypoint_idx st) + i) by lia.
Qed.

Lemma initial_state_spec self points movement_type st0 :
  initial_state self points movement_type = Returned (Some st0) →
  current_waypoint_idx st0 = 0 ∧ List.length (segments (path st0)) = 1.
Proof.
  unfold initial_state. destruct points as [|first rest]; [done|].
  destruct (default [] _) as [|seg0 segs]; [done|].
  destruct (choose_first _ _ _ _) as [chosen gate_node].
  destruct (default _ chosen) as [first_segment first_node].
  intros H. by injection H as <-.
Qed.

(** C3. The segments of a successful path are the first segment, then
    the legs of the loop, one per consecutive pair of waypoints, then at
    most one closing segment; and every segment of leg [i] is named after
    waypoint [i] or waypoint [i+1]. *)
Theorem name_containment set_iter fuel self points movement_type p :
  (find_path set_iter fuel self points movement_type).1 = Returned (Some p) →
  ∃ st0 closing,
    initial_state self points movement_type = Returned (Some st0)
    ∧ let legs := leg_paths set_iter fuel (List.length points - 1)
                            self points movement_type st0 in
      segments p = segments (path st0) ++ concat legs ++ closing
      ∧ List.length (segments (path st0)) = 1
      ∧ List.length closing ≤ 1
      ∧ List.length legs = List.length points - 1
      ∧ ∀ i leg, legs !! i = Some leg → leg_within self points i leg.
Proof.
  unfold find_path, validate_movement.
  destruct (validate self movement_type points) as [[]| |]; simpl; [|done..].
  unfold route. intros H.
  apply bind_returned in H as (st0 & Hinit & H).
  destruct st0 as [st0|]; [|done].
  apply bind_returned in H as (st & Hloop & H).
  destruct st as [st|]; [|done].
  apply bind_returned in H as (closing & _ & H).
  destruct (main_loop_legs _ _ _ _ _ _ _ _ Hloop) as (Hseg & Hlen & Hlegs).
  destruct (initial_state_spec _ _ _ _ Hinit) as (Hidx & Hone).
  rewrite Hidx in Hlegs. simpl in Hlegs.
  exists st0, (match closing with Some seg => [segment_id seg] | None => [] end).
  split; [done|]. simpl. split; [|split; [done|split; [|done]]].
  - destruct closing as [seg|]; injection H as <-; simpl.
    + rewrite Hseg. by rewrite <- app_assoc.
    + by rewrite Hseg, app_nil_r.
  - destruct closing; simpl; lia.
Qed.

(** The loader. *)

Lemma process_feature_spec acc feature :
  process_feature acc feature =
  match segment_of_feature feature with
  | Some s => (<[name s := default [] (acc.1 !! name s) ++ [s]]> acc.1, acc.2 ++ [s])
  | None => acc
  end.
Proof.
  destruct feature as [c props|c props]; simpl; [|done].
  destruct (GeoJSON.name props) as [n|]; [|done]. by destruct (truthy n).
Qed.

Lemma segment_of_feature_name feature s :
  segment_of_feature feature = Some s → name s ≠ "".
Proof.
  destruct feature as [c props|c props]; simpl; [|done].
  destruct (GeoJSON.name props) as [n|]; [|done].
  destruct (truthy n) eqn:E; [|done]. intros H. injection H as <-. simpl.
  intros ->. done.
Qed.

Lemma load_filter acc data :
  foldl process_feature acc data = foldl process_feature acc (filter named_line data).
Proof.
  revert acc. induction data as [|f data IH]; intros acc; [done|].
  rewrite filter_cons. simpl.
  destruct (decide (named_line f)) as [Hf|Hf]; simpl; [apply IH|].
  rewrite process_feature_spec.
  destruct (segment_of_feature f) eqn:E; [|apply IH].
  exfalso. apply Hf. unfold named_line. rewrite E. by apply bool_decide_pack.
Qed.

Lemma load_all acc data :
  (foldl process_feature acc data).2 = acc.2 ++ omap segment_of_feature data.
Proof.
  revert acc. induction data as [|f data IH]; intros acc; simpl.
  - by rewrite app_nil_r.
  - rewrite IH, process_feature_spec.
    destruct (segment_of_feature f); simpl; [|done]. by rewrite <- app_assoc.
Qed.

Lemma load_by_name acc data :
  by_name_ok acc → by_name_ok (foldl process_feature acc data).
Proof.
  revert acc. induction data as [|f data IH]; intros acc Hacc; [done|].
  simpl. apply IH. rewrite process_feature_spec.
  destruct (segment_of_feature f) as [s|]; [|done].
  intros n. simpl. rewrite lookup_insert, filter_app, filter_cons, filter_nil.
  destruct (decide (name s = n)) as [Hn|Hn]; simpl.
  - rewrite (Hacc (name s)), Hn.
    by destruct (filter _ acc.2).
  - by rewrite app_nil_r.
Qed.

Lemma ensure_node_lookup g k node old :
  ensure_node g k !! node = Some old →
  g !! node = Some old ∨ (old = [] ∧ node = k).
Proof.
  unfold ensure_node. destruct (g !! k); [by left|].
  rewrite lookup_insert. case_decide as Hk; [|by left].
  intros Hold. injection Hold as <-. by right.
Qed.

Lemma append_edge_lookup g k e node edges :
  append_edge g k e !! node = Some edges →
  ∃ old, g !! node = Some old
         ∧ (edges = old ∨ (edges = old ++ [e] ∧ node = k)).
Proof.
  unfold append_edge. rewrite lookup_alter. case_decide as Hk.
  - subst k. destruct (g !! node) as [old|]; [|done]. simpl.
    intros H. injection H as <-. eauto.
  - intros H. eauto.
Qed.

Lemma touches_start node s : node = start_node s → touches node s = true.
Proof. intros ->. unfold touches. by rewrite bool_decide_eq_true_2. Qed.

Lemma touches_end node s : node = end_node s → touches node s = true.
Proof.
  intros ->. unfold touches. rewrite (bool_decide_eq_true_2 (_ = end_node s)) by done.
  apply orb_true_r.
Qed.

Lemma add_to_graph_lookup g s node edges :
  add_to_graph g s !! node = Some edges →
  ∃ old extra,
    edges = old ++ extra
    ∧ (g !! node = Some old ∨ (old = [] ∧ touches node s = true))
    ∧ ∀ e, e ∈ extra → edge_of s node e.
Proof.
  unfold add_to_graph. intros H.
  apply append_edge_lookup in H as (l3 & H & H3).
  apply append_edge_lookup in H as (l2 & H & H2).
  assert (Hold : g !! node = Some l2 ∨ (l2 = [] ∧ touches node s = true)).
  { apply ensure_node_lookup in H as [H| [-> ->]]; [|right; eauto using touches_end].
    apply ensure_node_lookup in H as [H| [-> ->]]; [by left|right; eauto using touches_start]. }
  destruct H2 as [->|[-> Hs]]; destruct H3 as [->|[-> He]].
  - exists l2, []. rewrite app_nil_r. split; [done|]. split; [done|]. by intros e He%elem_of_nil.
  - exists l2, [(start_node s, segment_id s, length s)].
    split; [done|]. split; [done|].
    intros e ->%list_elem_of_singleton. by right.
  - exists l2, [(end_node s, segment_id s, length s)].
    split; [done|]. split; [done|].
    intros e ->%list_elem_of_singleton. by left.
  - exists l2, [(end_node s, segment_id s, length s); (start_node s, segment_id s, length s)].
    rewrite <- app_assoc. split; [done|]. split; [done|].
    intros e [->| ->%list_elem_of_singleton]%elem_of_cons; [by left|by right].
Qed.

Lemma build_graph_ok all : graph_ok (foldl add_to_graph ∅ all) all.
Proof.
  induction all as [|s all IH] using rev_ind.
  - intros node edges H. simpl in H. by rewrite lookup_empty in H.
  - rewrite foldl_snoc. intros node edges H.
    apply add_to_graph_lookup in H as (old & extra & -> & Hold & Hextra).
    split.
    + destruct Hold as [Hold|[_ Ht]].
      * destruct (IH _ _ Hold) as [(s' & Hs' & Ht) _]. exists s'.
        split; [apply elem_of_app; by left|done].
      * exists s. split; [apply elem_of_app; right; by apply list_elem_of_singleton|done].
    + intros e [He|He]%elem_of_app.
      * destruct Hold as [Hold|[-> _]]; [|by apply elem_of_nil in He].
        destruct (IH _ _ Hold) as [_ Hedges].
        destruct (Hedges _ He) as (s' & Hs' & Hedge). exists s'.
        split; [apply elem_of_app; by left|done].
      * exists s. split; [|by apply Hextra].
        apply elem_of_app; right; by apply list_elem_of_singleton.
Qed.

Lemma load_data_fields cfg data airport_cfg :
  let acc := foldl process_feature (∅, []) data in
  _load_data cfg data airport_cfg =
  {| config := cfg; segments_by_name := acc.1; all_segments := acc.2;
     graph := foldl add_to_graph ∅ acc.2; airport_config := airport_cfg |}.
Proof. unfold _load_data. by destruct (foldl _ _ _). Qed.

(** C10. The router loaded from a file is the router loaded from its
    named line features alone. Its segments are those features, each with
    a non-empty name; [segments_by_name] lists them by name; every node
    and every adjacency entry of the graph comes from one of them. A
    segment the indexer exports with an empty name (its default when the
    feature has no [ref] tag) is not such a feature. *)
Theorem unnamed_segments_absent cfg data airport_cfg :
  let self := _load_data cfg data airport_cfg in
  self = _load_data cfg (filter named_line data) airport_cfg
  ∧ all_segments self = omap segment_of_feature data
  ∧ (∀ s, s ∈ all_segments self → name s ≠ "")
  ∧ (∀ n l, segments_by_name self !! n = Some l →
            l = filter (λ s, name s = n) (all_segments self))
  ∧ (∀ node edges, graph self !! node = Some edges →
       (∃ s, s ∈ all_segments self ∧ touches node s = true)
       ∧ ∀ e, e ∈ edges → ∃ s, s ∈ all_segments self ∧ edge_of s node e)
  ∧ (∀ seg : Process.Segment,
       Process.name seg = "" → named_line (Process.segment_feature seg) = false)
  ∧ (∀ props, dict_get props "ref" = None → Process.segment_name props = "").
Proof.
  simpl. rewrite !load_data_fields. simpl.
  split; [by rewrite <- load_filter|].
  split; [by rewrite load_all|].
  split; [|split; [|split; [|split]]].
  - intros s. rewrite load_all. simpl. intros (f & _ & Hf)%list_elem_of_omap.
    by eapply segment_of_feature_name.
  - intros n l Hl.
    assert (H0 : by_name_ok (∅, [])) by (intros k; simpl; by rewrite lookup_empty).
    pose proof (load_by_name _ data H0 n) as H. rewrite Hl in H.
    destruct (filter _ _); [done|]. by injection H.
  - apply build_graph_ok.
  - intros seg Hn. unfold named_line, Process.segment_feature. simpl. by rewrite Hn.
  - intros props H. unfold Process.segment_name. by rewrite H.
Qed.

(** *** Runs on the example networks *)


Lemma name_containment_witness :
  (find_path Examples.ascending 100 Examples.far_end Examples.request DEPARTURE).1
  = Returned (Some Examples.far_end_path)
  ∧ ∃ st0,
      initial_state Examples.far_end Examples.request DEPARTURE = Returned (Some st0)
      ∧ ∀ i leg,
          leg_paths Examples.ascending 100 2 Examples.far_end Examples.request
                    DEPARTURE st0 !! i = Some leg →
          leg_within Examples.far_end Examples.request i leg.
Proof.
  assert (H : (find_path Examples.ascending 100 Examples.far_end
                         Examples.request DEPARTURE).1
              = Returned (Some Examples.far_end_path))
    by (vm_compute; reflexivity).
  split; [exact H|].
  destruct (name_containment _ _ _ _ _ _ H) as (st0 & closing & Hinit & _ & _ & _ & _ & Hlegs).
  exists st0. split; [exact Hinit|exact Hlegs].
Defined.

Lemma closing_segment_optional_witness :
  (find_path Examples.ascending 100 Examples.no_entrance_segment
             Examples.request DEPARTURE).1
  = Returned (Some (path Examples.at_entrance)).
Proof.
  apply (closing_segment_optional _ _ _ _ _ Examples.at_gate).
  - vm_compute; reflexivity.
  - vm_compute; reflexivity.
  - vm_compute; reflexivity.
  - intros last_point node seg Hlast _ Hin. injection Hlast as <-.
    change (segments_by_name Examples.no_entrance_segment !! "W37")
      with (@None (list TaxiSegment)) in Hin.
    by apply elem_of_nil in Hin.
Defined.

(** C5 fails on [two_stubs]: the two ends of W2 are equally far from the
    gate, the loop over the set of the two keeps the one it meets first,
    and the two orders in which a [set] of two [str] is enumerated give
    different segment sequences and different distances. The order
    follows the string hashing of the interpreter, which is none of the
    inputs of [find_path]. *)
Theorem enumeration_order_matters :
  enumerates Examples.ascending
  ∧ enumerates Examples.descending
  ∧ (find_path Examples.ascending 100 Examples.two_stubs Examples.request DEPARTURE).1
    = Returned (Some {| segments := ["S0"; "S0"; "S1"; "S2"; "S2"];
                        total_distance := 85; waypoints := [] |})
  ∧ (find_path Examples.descending 100 Examples.two_stubs Examples.request DEPARTURE).1
    = Returned (Some {| segments := ["S0"; "S3"; "S2"; "S2"];
                        total_distance := 80; waypoints := [] |})
  ∧ (find_path Examples.ascending 100 Examples.two_stubs Examples.request DEPARTURE).1
    ≠ (find_path Examples.descending 100 Examples.two_stubs Examples.request DEPARTURE).1.
Proof.
  split; [by intros s|]. split.
  - intros s. unfold Examples.descending. by rewrite reverse_Permutation.
  - split; [vm_compute; reflexivity|]. split; [vm_compute; reflexivity|].
    vm_compute. intros H. discriminate H.
Qed.

(** C4 fails on [far_end]: the last leg reaches the pinned entrance
    node over S2, and the closing step appends S2 again. S0 is the
    departure-gate segment; S2 is not. *)
Theorem closing_segment_repeated :
  (find_path Examples.ascending 100 Examples.far_end Examples.request DEPARTURE).1
  = Returned (Some Examples.far_end_path)
  ∧ initial_state Examples.far_end Examples.request DEPARTURE
    = Returned (Some Examples.at_gate)
  ∧ segments Examples.far_end_path = ["S0"; "S0"; "S1"; "S2"; "S2"]
  ∧ ¬ NoDup (filter (λ sid, sid ≠ "S0") (segments Examples.far_end_path)).
Proof.
  split; [vm_compute; reflexivity|]. split; [vm_compute; reflexivity|].
  split; [reflexivity|].
  intros Hnd. change (NoDup ["S1"; "S2"; "S2"]) in Hnd.
  apply NoDup_cons in Hnd as [_ Hnd]. apply NoDup_cons in Hnd as [Hnotin _].
  apply Hnotin. by left.
Qed.
End RouterFacts.

(** ** The router as an object *)
Module StatefulFacts.
Import Pathfinder.

#[local] Arguments List.last : simpl never.

(** *** Methods that only read *)

Lemma reads_only_ret {A} (a : A) : Stateful.reads_only (mret a).
Proof. by intros self. Qed.

Lemma reads_only_local {A} (o : outcome A) : Stateful.reads_only (Stateful.local o).
Proof. by intros self. Qed.

Lemma reads_only_attr {A} (attribute : Airport → A) :
  Stateful.reads_only (Stateful.attr attribute).
Proof. by intros self. Qed.

Lemma reads_only_bind {A B} (m : Stateful.method A) (k : A → Stateful.method B) :
  Stateful.reads_only m → (∀ a, Stateful.reads_only (k a)) →
  Stateful.reads_only (m ≫= k).
Proof.
  intros Hm Hk self. unfold mbind, Stateful.method_bind.
  specialize (Hm self). destruct (m self) as [[a|e|] self']; simpl in Hm; subst self'.
  - apply Hk.
  - done.
  - done.
Qed.

Lemma reads_only_fold {A B} (body : A → B → Stateful.method A) l a :
  (∀ a x, Stateful.reads_only (body a x)) →
  Stateful.reads_only (Stateful.fold_method body a l).
Proof.
  intros Hbody. revert a. induction l as [|x l IH]; intros a; simpl.
  - apply reads_only_ret.
  - apply reads_only_bind; [apply Hbody|apply IH].
Qed.

Create HintDb frame discriminated.

(** The frame of a method follows its text: every statement is a
    read, a computation on values of the call, or a call of a method
    that only reads. *)
Ltac frame :=
  repeat first
    [ progress intros
    | apply reads_only_ret
    | apply reads_only_local
    | apply reads_only_attr
    | solve [auto with frame]
    | apply reads_only_fold
    | apply reads_only_bind
    | match goal with
      | |- Stateful.reads_only (match ?x with _ => _ end) => destruct x
      end ].

Lemma runway_config_reads : Stateful.reads_only Stateful.runway_config.
Proof. unfold Stateful.runway_config. frame. Qed.
#[local] Hint Resolve runway_config_reads : frame.

Lemma gate_found_reads gate_id : Stateful.reads_only (Stateful.gate_found gate_id).
Proof. unfold Stateful.gate_found. frame. Qed.
#[local] Hint Resolve gate_found_reads : frame.

Lemma validate_movement_reads movement_type points :
  Stateful.reads_only (Stateful.validate_movement movement_type points).
Proof. unfold Stateful.validate_movement. frame. Qed.
#[local] Hint Resolve validate_movement_reads : frame.

Lemma segment_by_id_reads sid : Stateful.reads_only (Stateful.segment_by_id sid).
Proof. unfold Stateful.segment_by_id. frame. Qed.
#[local] Hint Resolve segment_by_id_reads : frame.

Lemma relax_reads forbidden allowed dist path st edge :
  Stateful.reads_only (Stateful.relax forbidden allowed dist path st edge).
Proof. unfold Stateful.relax. frame. Qed.
#[local] Hint Resolve relax_reads : frame.

Lemma search_reads fuel target_nodes forbidden allowed distances pq found :
  Stateful.reads_only
    (Stateful.search fuel target_nodes forbidden allowed distances pq found).
Proof.
  revert distances pq found.
  induction fuel as [|fuel IH]; intros distances pq found;
    destruct pq as [|x rest]; simpl; frame.
Qed.
#[local] Hint Resolve search_reads : frame.

Lemma in_graph_reads node : Stateful.reads_only (Stateful.in_graph node).
Proof. unfold Stateful.in_graph. frame. Qed.
#[local] Hint Resolve in_graph_reads : frame.

Lemma dijkstra_reads fuel start_nodes target_nodes forbidden allowed :
  Stateful.reads_only
    (Stateful.dijkstra_multi_target fuel start_nodes target_nodes forbidden allowed).
Proof. unfold Stateful.dijkstra_multi_target. frame. Qed.
#[local] Hint Resolve dijkstra_reads : frame.

Lemma names_allowed_reads allowed segment_path :
  Stateful.reads_only (Stateful.names_allowed allowed segment_path).
Proof. induction segment_path as [|sid l IH]; simpl; frame. Qed.
#[local] Hint Resolve names_allowed_reads : frame.

Lemma consider_target_reads allowed distances best target_node :
  Stateful.reads_only (Stateful.consider_target allowed distances best target_node).
Proof. unfold Stateful.consider_target. frame. Qed.
#[local] Hint Resolve consider_target_reads : frame.

Lemma add_path_segment_reads acc sid :
  Stateful.reads_only (Stateful.add_path_segment acc sid).
Proof. unfold Stateful.add_path_segment. frame. Qed.
#[local] Hint Resolve add_path_segment_reads : frame.

Lemma choose_first_reads movement_type first first_segments :
  Stateful.reads_only (Stateful.choose_first movement_type first first_segments).
Proof. unfold Stateful.choose_first. frame. Qed.
#[local] Hint Resolve choose_first_reads : frame.

Lemma closing_node_reads movement_type last_point :
  Stateful.reads_only (Stateful.closing_node movement_type last_point).
Proof. unfold Stateful.closing_node. frame. Qed.
#[local] Hint Resolve closing_node_reads : frame.

Lemma closing_segment_reads movement_type last_point last_node :
  Stateful.reads_only (Stateful.closing_segment movement_type last_point last_node).
Proof. unfold Stateful.closing_segment. frame. Qed.
#[local] Hint Resolve closing_segment_reads : frame.

Lemma waypoint_nodes_reads waypoint :
  Stateful.reads_only (Stateful.waypoint_nodes waypoint).
Proof. unfold Stateful.waypoint_nodes. frame. Qed.
#[local] Hint Resolve waypoint_nodes_reads : frame.

Lemma get_segment_nodes_reads points movement_type waypoint enforce_node :
  Stateful.reads_only
    (Stateful.get_segment_nodes points movement_type waypoint enforce_node).
Proof. unfold Stateful.get_segment_nodes. frame. Qed.
#[local] Hint Resolve get_segment_nodes_reads : frame.

Lemma route_leg_reads set_iter fuel points movement_type st :
  Stateful.reads_only (Stateful.route_leg set_iter fuel points movement_type st).
Proof. unfold Stateful.route_leg. frame. Qed.
#[local] Hint Resolve route_leg_reads : frame.

Lemma advance_reads st best_path best_target :
  Stateful.reads_only (Stateful.advance st best_path best_target).
Proof. unfold Stateful.advance. frame. Qed.
#[local] Hint Resolve advance_reads : frame.

Lemma main_loop_reads set_iter fuel n points movement_type st :
  Stateful.reads_only (Stateful.main_loop set_iter fuel n points movement_type st).
Proof. revert st. induction n as [|n IH]; intros st; simpl; frame. Qed.
#[local] Hint Resolve main_loop_reads : frame.

Lemma initial_state_reads points movement_type :
  Stateful.reads_only (Stateful.initial_state points movement_type).
Proof. unfold Stateful.initial_state. frame. Qed.
#[local] Hint Resolve initial_state_reads : frame.

Lemma find_path_reads set_iter fuel points movement_type :
  Stateful.reads_only (Stateful.find_path set_iter fuel points movement_type).
Proof. unfold Stateful.find_path. frame. Qed.

(** *** The object and the functional form *)

Lemma run_bind {A B} (m : Stateful.method A) (k : A → Stateful.method B)
    (o : outcome A) (k' : A → outcome B) self :
  m self = (o, self) → (∀ a, k a self = (k' a, self)) →
  (m ≫= k) self = (o ≫= k', self).
Proof.
  intros Hm Hk. unfold mbind at 1, Stateful.method_bind. rewrite Hm.
  destruct o; simpl; [apply Hk|done..].
Qed.

Lemma run_returned {A B} (m : Stateful.method A) (k : A → Stateful.method B)
    (a : A) self :
  m self = (Returned a, self) → (m ≫= k) self = k a self.
Proof. intros Hm. unfold mbind, Stateful.method_bind. by rewrite Hm. Qed.

Lemma fold_method_run {A B} (body : A → B → Stateful.method A)
    (body' : A → B → outcome A) self l a :
  (∀ a x, body a x self = (body' a x, self)) →
  Stateful.fold_method body a l self = (foldl_outcome body' a l, self).
Proof.
  intros Hbody. revert a. induction l as [|x l IH]; intros a; simpl; [done|].
  apply run_bind; [apply Hbody|apply IH].
Qed.

Lemma fold_method_returned {A B} (body : A → B → Stateful.method A)
    (body' : A → B → A) self l a :
  (∀ a x, body a x self = (Returned (body' a x), self)) →
  Stateful.fold_method body a l self = (Returned (foldl body' a l), self).
Proof.
  intros Hbody. revert a. induction l as [|x l IH]; intros a; simpl; [done|].
  rewrite (run_returned _ _ _ _ (Hbody a x)). apply IH.
Qed.

Lemma runway_config_run self :
  Stateful.runway_config self = (runway_config self, self).
Proof. reflexivity. Qed.

Lemma gate_found_run gate_id self :
  Stateful.gate_found gate_id self = (Returned (gate_found self gate_id), self).
Proof. reflexivity. Qed.

Lemma validate_movement_run movement_type points self :
  Stateful.validate_movement movement_type points self
  = validate_movement self movement_type points.
Proof.
  unfold validate_movement, validate, Stateful.validate_movement.
  destruct points as [|first [|second rest]]; [done..|].
  destruct movement_type.
  - apply run_bind; [apply runway_config_run|]. intros rc.
    apply run_bind; [done|]. intros [node|]; [apply gate_found_run|done].
  - rewrite (run_returned _ _ _ _ (gate_found_run first self)).
    destruct (gate_found self first); [|done].
    apply run_bind; [apply runway_config_run|]. intros rc.
    apply run_bind; [done|]. by intros [node|].
Qed.

Lemma segment_by_id_run sid self :
  Stateful.segment_by_id sid self = (segment_by_id self sid, self).
Proof. reflexivity. Qed.

Lemma relax_run forbidden allowed dist path st edge self :
  Stateful.relax forbidden allowed dist path st edge self
  = (relax self forbidden allowed dist path st edge, self).
Proof.
  unfold Stateful.relax, relax. destruct edge as [[next_node sid] len].
  case_bool_decide; [done|].
  apply run_bind; [apply segment_by_id_run|]. intros segment.
  destruct (name_excluded allowed (name segment)); [done|].
  apply run_bind; [done|]. intros known.
  by destruct (_ <? _)%float.
Qed.

Lemma search_run fuel target_nodes forbidden allowed distances pq found self :
  Stateful.search fuel target_nodes forbidden allowed distances pq found self
  = (search fuel self target_nodes forbidden allowed distances pq found, self).
Proof.
  revert distances pq found.
  induction fuel as [|fuel IH]; intros distances pq found;
    destruct pq as [|x rest]; simpl; try done;
    case_bool_decide; try done.
  destruct (heappop_from x rest) as [[[dist current] path] pq'].
  apply run_bind; [done|]. intros known.
  destruct (_ <? _)%float; [apply IH|].
  change ((edges ← Stateful.local (getitem (graph self) current);
           '(distances', pq'') ←
             Stateful.fold_method (Stateful.relax forbidden allowed dist path)
                                  (distances, pq') edges;
           Stateful.search fuel target_nodes forbidden allowed distances' pq''
             (if bool_decide (current ∈ target_nodes)
              then found ∪ {[current]} else found)) self
          = (edges ← getitem (graph self) current;
             '(distances', pq'') ←
               foldl_outcome (relax self forbidden allowed dist path)
                             (distances, pq') edges;
             search fuel self target_nodes forbidden allowed distances' pq''
               (if bool_decide (current ∈ target_nodes)
                then found ∪ {[current]} else found), self)).
  apply run_bind; [done|]. intros edges.
  apply run_bind.
  - apply fold_method_run. intros a e. apply relax_run.
  - intros [distances' pq'']. apply IH.
Qed.

Lemma in_graph_run node self :
  Stateful.in_graph node self = (Returned (in_graph self node), self).
Proof. reflexivity. Qed.

Lemma queue_filter (p : string → bool) l acc :
  foldl (λ (pq : list string) start, if p start then pq ++ [start] else pq) acc l
  = acc ++ List.filter p l.
Proof.
  revert acc. induction l as [|x l IH]; intros acc; simpl.
  - by rewrite app_nil_r.
  - rewrite IH. destruct (p x); [|done]. by rewrite <- app_assoc.
Qed.

Lemma dijkstra_run fuel start_nodes target_nodes forbidden allowed self :
  Stateful.dijkstra_multi_target fuel start_nodes target_nodes forbidden allowed self
  = (dijkstra_multi_target fuel self start_nodes target_nodes forbidden allowed,
     self).
Proof.
  unfold Stateful.dijkstra_multi_target, dijkstra_multi_target.
  change ((Stateful.attr graph ≫= ?k) self) with (k (graph self) self).
  cbv beta.
  erewrite run_returned; last first.
  { apply (fold_method_returned _
             (λ (d : Distances) start,
                if in_graph self start then <[start := (0%float, [])]> d else d)).
    intros d start. by rewrite (run_returned _ _ _ _ (in_graph_run start self)). }
  erewrite run_returned; last first.
  { apply (fold_method_returned _
             (λ (pq : list string) start,
                if in_graph self start then pq ++ [start] else pq)).
    intros pq start. by rewrite (run_returned _ _ _ _ (in_graph_run start self)). }
  rewrite queue_filter. simpl. apply search_run.
Qed.

Lemma names_allowed_run allowed segment_path self :
  Stateful.names_allowed allowed segment_path self
  = (names_allowed self allowed segment_path, self).
Proof.
  induction segment_path as [|sid l IH]; simpl; [done|].
  apply run_bind; [apply segment_by_id_run|]. intros segment.
  case_bool_decide; [apply IH|done].
Qed.

Lemma consider_target_run allowed distances best target_node self :
  Stateful.consider_target allowed distances best target_node self
  = (consider_target self allowed distances best target_node, self).
Proof.
  unfold Stateful.consider_target, consider_target.
  apply run_bind; [done|]. intros [dist segment_path].
  destruct (_ <? _)%float; [|done].
  apply run_bind; [apply names_allowed_run|]. by intros [|].
Qed.

Lemma add_path_segment_run acc sid self :
  Stateful.add_path_segment acc sid self = (add_path_segment self acc sid, self).
Proof.
  unfold Stateful.add_path_segment, add_path_segment.
  apply run_bind; [apply segment_by_id_run|]. done.
Qed.

Lemma choose_first_run movement_type first first_segments self :
  Stateful.choose_first movement_type first first_segments self
  = (Returned (choose_first self movement_type first first_segments), self).
Proof. by destruct movement_type. Qed.

Lemma closing_node_run movement_type last_point self :
  Stateful.closing_node movement_type last_point self
  = (closing_node self movement_type last_point, self).
Proof.
  destruct movement_type; [done|].
  unfold Stateful.closing_node, closing_node.
  apply run_bind; [apply runway_config_run|]. done.
Qed.

Lemma closing_segment_run movement_type last_point last_node self :
  Stateful.closing_segment movement_type last_point last_node self
  = (closing_segment self movement_type last_point last_node, self).
Proof.
  unfold Stateful.closing_segment, closing_segment.
  apply run_bind; [apply closing_node_run|]. intros [e|]; [|done].
  by destruct (truthy e).
Qed.

Lemma waypoint_nodes_run waypoint self :
  Stateful.waypoint_nodes waypoint self
  = (Returned (waypoint_nodes self waypoint), self).
Proof. reflexivity. Qed.

Lemma get_segment_nodes_run points movement_type waypoint enforce_node self :
  Stateful.get_segment_nodes points movement_type waypoint enforce_node self
  = (get_segment_nodes self points movement_type waypoint enforce_node, self).
Proof.
  unfold Stateful.get_segment_nodes, get_segment_nodes.
  destruct enforce_node as [node|]; [done|].
  apply run_bind.
  - destruct (_ && _).
    + apply run_bind; [apply runway_config_run|]. done.
    + destruct (_ && _); [|done].
      apply run_bind; [apply runway_config_run|]. done.
  - intros [node|]; [done|apply waypoint_nodes_run].
Qed.

Lemma route_leg_run set_iter fuel points movement_type st self :
  Stateful.route_leg set_iter fuel points movement_type st self
  = (route_leg set_iter fuel self points movement_type st, self).
Proof.
  unfold Stateful.route_leg, route_leg.
  destruct (points !! current_waypoint_idx st) as [current_waypoint|]; [|done].
  destruct (points !! S (current_waypoint_idx st)) as [next_waypoint|]; [|done].
  apply run_bind.
  - destruct (_ && _); [|done].
    apply run_bind; [apply runway_config_run|]. done.
  - intros enforce_node.
    apply run_bind; [apply get_segment_nodes_run|]. intros target_nodes.
    apply run_bind; [apply dijkstra_run|]. intros distances.
    apply run_bind.
    + apply fold_method_run. intros best t. apply consider_target_run.
    + by intros [[[best_target|] best_dist] [best_path|]].
Qed.

Lemma advance_run st best_path best_target self :
  Stateful.advance st best_path best_target self
  = (advance self st best_path best_target, self).
Proof.
  unfold Stateful.advance, advance.
  apply run_bind.
  - apply fold_method_run. intros acc sid. apply add_path_segment_run.
  - by intros [p used].
Qed.

Lemma main_loop_run set_iter fuel n points movement_type st self :
  Stateful.main_loop set_iter fuel n points movement_type st self
  = (main_loop set_iter fuel n self points movement_type st, self).
Proof.
  revert st. induction n as [|n IH]; intros st; simpl; [done|].
  apply run_bind; [apply route_leg_run|]. intros [[best_path best_target]|]; [|done].
  apply run_bind; [apply advance_run|]. apply IH.
Qed.

Lemma initial_state_run points movement_type self :
  Stateful.initial_state points movement_type self
  = (initial_state self points movement_type, self).
Proof.
  unfold Stateful.initial_state, initial_state.
  destruct points as [|first rest]; [done|].
  change ((Stateful.attr segments_by_name ≫= ?k) self)
    with (k (segments_by_name self) self).
  cbv beta.
  destruct (default [] (segments_by_name self !! first)) as [|seg0 segs]; [done|].
  rewrite (run_returned _ _ _ _ (choose_first_run _ _ _ self)).
  destruct (choose_first _ _ _ _) as [chosen gate_node].
  by destruct (default _ chosen).
Qed.

(** Run on an object, the method [find_path] gives what the functional
    form gives of that object, and the object itself. *)
Lemma find_path_run set_iter fuel points movement_type self :
  Stateful.find_path set_iter fuel points movement_type self
  = find_path set_iter fuel self points movement_type.
Proof.
  unfold Stateful.find_path, find_path.
  unfold mbind at 1, Stateful.method_bind. rewrite validate_movement_run.
  unfold validate_movement.
  destruct (validate self movement_type points) as [[|]|e|]; try done.
  unfold route.
  apply run_bind; [apply initial_state_run|]. intros [st0|]; [|done].
  apply run_bind; [apply main_loop_run|]. intros [st|]; [|done].
  apply run_bind; [apply closing_segment_run|]. by intros [seg|].
Qed.

(** *** The loader writes what the functional form builds *)

Lemma process_feature_written acc feature cfg airport_cfg :
  by_name_ok acc →
  Stateful.process_feature feature
    {| config := cfg; segments_by_name := acc.1; all_segments := acc.2;
       graph := ∅; airport_config := airport_cfg |}
  = (Returned tt,
     {| config := cfg;
        segments_by_name := (process_feature acc feature).1;
        all_segments := (process_feature acc feature).2;
        graph := ∅; airport_config := airport_cfg |}).
Proof.
  intros Hacc. destruct acc as [by_name all].
  destruct feature as [c props|c props]; simpl; [|done].
  destruct (GeoJSON.name props) as [n|]; [|done].
  destruct (truthy n); [|done]. simpl.
  unfold mbind, Stateful.method_bind. simpl.
  destruct (by_name !! n) as [l|] eqn:Hl.
  - rewrite bool_decide_eq_true_2 by done. simpl.
    unfold getitem. by rewrite Hl.
  - rewrite bool_decide_eq_false_2 by (by intros [? ?]). simpl.
    unfold getitem. rewrite lookup_insert_eq. simpl.
    by rewrite insert_insert_eq.
Qed.

Lemma process_features_written data acc cfg airport_cfg :
  by_name_ok acc →
  Stateful.for_each Stateful.process_feature data
    {| config := cfg; segments_by_name := acc.1; all_segments := acc.2;
       graph := ∅; airport_config := airport_cfg |}
  = (Returned tt,
     {| config := cfg;
        segments_by_name := (foldl process_feature acc data).1;
        all_segments := (foldl process_feature acc data).2;
        graph := ∅; airport_config := airport_cfg |}).
Proof.
  revert acc. induction data as [|feature data IH]; intros acc Hacc; simpl; [done|].
  unfold mbind at 1, Stateful.method_bind.
  rewrite (process_feature_written acc feature) by done.
  apply IH. apply (RouterFacts.load_by_name acc [feature] Hacc).
Qed.

Lemma add_to_graph_written segment g cfg by_name all airport_cfg :
  Stateful.add_to_graph segment
    {| config := cfg; segments_by_name := by_name; all_segments := all;
       graph := g; airport_config := airport_cfg |}
  = (Returned tt,
     {| config := cfg; segments_by_name := by_name; all_segments := all;
        graph := add_to_graph g segment; airport_config := airport_cfg |}).
Proof.
  unfold Stateful.add_to_graph, add_to_graph.
  assert (Hensure : ∀ g node,
    Stateful.ensure_node node
      {| config := cfg; segments_by_name := by_name; all_segments := all;
         graph := g; airport_config := airport_cfg |}
    = (Returned tt,
       {| config := cfg; segments_by_name := by_name; all_segments := all;
          graph := ensure_node g node; airport_config := airport_cfg |})).
  { intros g0 node. unfold Stateful.ensure_node, ensure_node.
    unfold mbind, Stateful.method_bind. simpl.
    destruct (g0 !! node) as [l|] eqn:Hl.
    - by rewrite bool_decide_eq_true_2.
    - by rewrite bool_decide_eq_false_2 by (by intros [? ?]). }
  assert (Hensured : ∀ g node other, is_Some (g !! node) →
            is_Some (ensure_node g other !! node)).
  { intros g0 node other Hn. unfold ensure_node.
    destruct (g0 !! other); [done|].
    rewrite lookup_insert. by case_decide. }
  assert (Hself : ∀ g node, is_Some (ensure_node g node !! node)).
  { intros g0 node. unfold ensure_node.
    destruct (g0 !! node) eqn:Hl; [by rewrite Hl|].
    by rewrite lookup_insert_eq. }
  assert (Happend : ∀ g node e, is_Some (g !! node) →
    Stateful.append_edge node e
      {| config := cfg; segments_by_name := by_name; all_segments := all;
         graph := g; airport_config := airport_cfg |}
    = (Returned tt,
       {| config := cfg; segments_by_name := by_name; all_segments := all;
          graph := append_edge g node e; airport_config := airport_cfg |})).
  { intros g0 node e [l Hl]. unfold Stateful.append_edge, append_edge.
    unfold mbind, Stateful.method_bind. simpl. unfold getitem. rewrite Hl. simpl.
    assert (Heq : <[node := l ++ [e]]> g0 = alter (λ l, l ++ [e]) node g0).
    { apply map_eq. intros k. rewrite lookup_alter, lookup_insert.
      destruct (decide (node = k)) as [->|Hne]; [by rewrite Hl|done]. }
    by rewrite Heq. }
  assert (Happended : ∀ g node other e, is_Some (g !! node) →
            is_Some (append_edge g other e !! node)).
  { intros g0 node other e Hn. unfold append_edge. rewrite lookup_alter.
    destruct (decide (other = node)) as [->|Hne]; [|done].
    destruct Hn as [l ->]. by eexists. }
  unfold mbind at 1, Stateful.method_bind. rewrite Hensure.
  unfold mbind at 1, Stateful.method_bind. rewrite Hensure.
  unfold mbind at 1, Stateful.method_bind. rewrite Happend by auto.
  rewrite Happend by auto. done.
Qed.

Lemma build_graph_written all0 all g cfg by_name airport_cfg :
  Stateful.for_each Stateful.add_to_graph all
    {| config := cfg; segments_by_name := by_name; all_segments := all0;
       graph := g; airport_config := airport_cfg |}
  = (Returned tt,
     {| config := cfg; segments_by_name := by_name; all_segments := all0;
        graph := foldl add_to_graph g all; airport_config := airport_cfg |}).
Proof.
  revert g. induction all as [|segment all IH]; intros g; simpl; [done|].
  unfold mbind at 1, Stateful.method_bind. rewrite add_to_graph_written.
  apply IH.
Qed.

(** [_load_data], run on the object [__init__] has just made, leaves
    the object the functional form builds. *)
Lemma load_data_written cfg0 cfg data airport_cfg :
  Stateful._load_data cfg data (Stateful.blank cfg0 airport_cfg)
  = (Returned tt, _load_data cfg data airport_cfg).
Proof.
  unfold Stateful._load_data, Stateful.blank.
  unfold mbind at 1, Stateful.method_bind. simpl.
  assert (H0 : by_name_ok (∅, []))
    by (intros k; simpl; by rewrite lookup_empty).
  pose proof (process_features_written data (∅, []) cfg airport_cfg H0) as Hp.
  simpl in Hp.
  unfold mbind at 1, Stateful.method_bind. rewrite Hp.
  unfold mbind at 1, Stateful.method_bind. simpl.
  rewrite build_graph_written. by rewrite RouterFacts.load_data_fields.
Qed.

(** C8. A call of [find_path] on an [Airport], whatever it returns or
    raises, leaves the object as it was: its configuration, its graph,
    [all_segments] and [segments_by_name] are those it had before the
    call. Every statement of the method and of its two nested functions
    reads the attributes of [self]; what they change (the distances, the
    queue, the used segments, the path) are values of the call. The
    loader, by contrast, writes them. *)
Theorem find_path_frame set_iter fuel points movement_type self :
  let after := (Stateful.find_path set_iter fuel points movement_type self).2 in
  after = self
  ∧ config after = config self
  ∧ graph after = graph self
  ∧ all_segments after = all_segments self
  ∧ segments_by_name after = segments_by_name self.
Proof.
  simpl. by rewrite find_path_reads.
Qed.

End StatefulFacts.

Module ProcessFacts.
Import Process.

Lemma dict_get_set_eq {V} (d : list (string * V)) k v :
  dict_get (dict_set d k v) k = Some v.
Proof.
  induction d as [|[k' v'] d IH]; simpl.
  - by rewrite decide_True.
  - destruct (decide (k = k')) as [->|Hne]; simpl.
    + by rewrite decide_True.
    + by rewrite decide_False.
Qed.

Lemma dict_get_set_ne {V} (d : list (string * V)) k k' v :
  k ≠ k' → dict_get (dict_set d k v) k' = dict_get d k'.
Proof.
  intros Hne. induction d as [|[k0 v0] d IH]; simpl.
  - by rewrite decide_False.
  - destruct (decide (k = k0)) as [->|Hne0]; simpl.
    + by rewrite !decide_False.
    + destruct (decide (k' = k0)); [done|apply IH].
Qed.

Lemma parking_end_as_gate segments node seg0 seg :
  parking_end segments (as_gate node seg0) seg ↔ parking_end segments node seg.
Proof. done. Qed.

Lemma mark_gate_marked segments acc entry acc' :
  gates_marked segments acc →
  mark_gate segments acc entry = Returned acc' →
  gates_marked segments acc'.
Proof.
  intros Hacc Hstep.
  assert (Hkeep : ∀ gates', acc' = (acc.1 ++ [entry], gates') →
            (∀ seg, ¬ parking_end segments entry.2 seg) →
            gates' = acc.2 → gates_marked segments acc').
  { intros gates' -> Hnot ->. intros e seg [He|He]%elem_of_app Hpark; simpl.
    - destruct (Hacc e seg He Hpark) as (Ht & Hi & e' & seg' & He' & Hp' & Hn & Hg).
      split; [done|]. split; [done|]. exists e', seg'.
      split; [apply elem_of_app; by left|done].
    - apply list_elem_of_singleton in He as ->. by destruct (Hnot seg). }
  unfold mark_gate in Hstep.
  destruct (connected_segments entry.2) as [|sid [|sid' rest]] eqn:Hconn.
  - injection Hstep as <-. eapply Hkeep; [done| |done].
    intros seg (sid & Hsid & _). congruence.
  - apply bind_returned in Hstep as (segment & Hseg & Hstep).
    unfold dict_getitem in Hseg.
    destruct (dict_get segments sid) as [segment'|] eqn:Hget; [|done].
    injection Hseg as ->.
    case_bool_decide as Htype.
    + injection Hstep as <-.
      assert (Hnew : parking_end segments entry.2 segment) by (by exists sid).
      intros e seg [He|He]%elem_of_app Hpark; simpl in *.
      * destruct (Hacc e seg He Hpark) as (Ht & Hi & e' & seg' & He' & Hp' & Hn & Hg).
        split; [done|]. split; [done|].
        destruct (decide (name segment = name seg)) as [Heq|Hne].
        -- exists (entry.1, as_gate entry.2 segment), segment.
           split; [apply elem_of_app; right; by apply list_elem_of_singleton|].
           split; [done|]. split; [done|].
           rewrite <- Heq. apply dict_get_set_eq.
        -- exists e', seg'. split; [apply elem_of_app; by left|].
           split; [done|]. split; [done|].
           by rewrite dict_get_set_ne.
      * apply list_elem_of_singleton in He as ->. simpl in *.
        destruct Hpark as (sid0 & Hsid0 & Hget0 & Htype0). simpl in Hsid0.
        assert (sid0 = sid) as -> by congruence.
        assert (seg = segment) as -> by congruence.
        split; [done|]. split; [done|].
        exists (entry.1, as_gate entry.2 segment), segment.
        split; [apply elem_of_app; right; by apply list_elem_of_singleton|].
        split; [done|]. split; [done|]. apply dict_get_set_eq.
    + injection Hstep as <-. eapply Hkeep; [done| |done].
      intros seg (sid0 & Hsid0 & Hget0 & Htype0).
      assert (sid0 = sid) as -> by congruence. congruence.
  - injection Hstep as <-. eapply Hkeep; [done| |done].
    intros seg (sid0 & Hsid0 & _). congruence.
Qed.

Lemma mark_gates_marked segments nodes acc acc' :
  gates_marked segments acc →
  foldl_outcome (mark_gate segments) acc nodes = Returned acc' →
  gates_marked segments acc'.
Proof.
  revert acc. induction nodes as [|entry nodes IH]; simpl; intros acc Hacc H.
  - by injection H as <-.
  - apply bind_returned in H as (acc1 & H1 & H).
    eapply IH; [|done]. by eapply mark_gate_marked.
Qed.

Lemma dict_get_is_Some {V} (d : list (string * V)) k :
  is_Some (dict_get d k) ↔ k ∈ d.*1.
Proof.
  induction d as [|[k' v] d IH]; simpl.
  - split; [by intros [? ?]|by intros ?%elem_of_nil].
  - destruct (decide (k = k')) as [->|Hne].
    + split; [intros _; by left|by eauto].
    + rewrite IH. split; [by right|]. by intros [?|?]%elem_of_cons.
Qed.

Lemma skeleton_keys (d d' : list (string * Node)) :
  skeleton <$> d = skeleton <$> d' → d.*1 = d'.*1.
Proof.
  intros H. apply (f_equal (fmap (λ x : string * string * (float * float) * list string, x.1.1.1))) in H.
  by rewrite <- !list_fmap_compose in H.
Qed.

Lemma dict_set_skeleton (d : list (string * Node)) k n t :
  dict_get d k = Some n →
  skeleton <$> dict_set d k (with_node_type n t) = skeleton <$> d.
Proof.
  induction d as [|[k' n'] d IH]; simpl; [done|].
  destruct (decide (k = k')) as [->|Hne]; csimpl.
  - intros H. by injection H as ->.
  - intros H. by rewrite IH.
Qed.

Lemma mark_ends_total t guard nodes seg :
  is_Some (dict_get nodes (start_node seg)) →
  is_Some (dict_get nodes (end_node seg)) →
  ∃ nodes', mark_ends t guard nodes seg = Returned nodes'
            ∧ skeleton <$> nodes' = skeleton <$> nodes.
Proof.
  intros [n1 H1] H2. unfold mark_ends, dict_getitem. simpl. rewrite H1. simpl.
  set (nodes1 := if guard n1 then _ else nodes).
  assert (Hsk : skeleton <$> nodes1 = skeleton <$> nodes).
  { unfold nodes1. destruct (guard n1); [|done]. by apply dict_set_skeleton. }
  apply dict_get_is_Some in H2. rewrite <- (skeleton_keys _ _ Hsk) in H2.
  apply dict_get_is_Some in H2 as [n2 H2]. rewrite H2. simpl.
  eexists. split; [done|].
  destruct (guard n2); [|done]. by rewrite dict_set_skeleton.
Qed.

Lemma mark_pass_total (step : list (string * Node) → string * Segment
                              → outcome (list (string * Node)))
    (segs : list (string * Segment)) nodes0 nodes :
  (∀ nodes entry,
      is_Some (dict_get nodes (start_node entry.2)) →
      is_Some (dict_get nodes (end_node entry.2)) →
      ∃ nodes', step nodes entry = Returned nodes'
                ∧ skeleton <$> nodes' = skeleton <$> nodes) →
  (∀ entry, entry ∈ segs →
      is_Some (dict_get nodes0 (start_node entry.2))
      ∧ is_Some (dict_get nodes0 (end_node entry.2))) →
  skeleton <$> nodes = skeleton <$> nodes0 →
  ∃ nodes', foldl_outcome step nodes segs = Returned nodes'
            ∧ skeleton <$> nodes' = skeleton <$> nodes0.
Proof.
  intros Hstep. revert nodes. induction segs as [|entry segs IH]; intros nodes Hwf Hsk.
  - by exists nodes.
  - simpl. destruct (Hwf entry) as [Hs He]; [by left|].
    rewrite dict_get_is_Some, <- (skeleton_keys _ _ Hsk), <- dict_get_is_Some in Hs, He.
    destruct (Hstep nodes entry Hs He) as (nodes1 & -> & Hsk1). simpl.
    apply IH; [|congruence]. intros e He'. apply Hwf. by right.
Qed.

Lemma mark_gates_total segments nodes acc :
  (∀ entry sid, entry ∈ nodes → connected_segments entry.2 = [sid] →
     is_Some (dict_get segments sid)) →
  ∃ acc', foldl_outcome (mark_gate segments) acc nodes = Returned acc'
          ∧ skeleton <$> acc'.1 = (skeleton <$> acc.1) ++ (skeleton <$> nodes).
Proof.
  revert acc. induction nodes as [|entry nodes IH]; intros acc Hwf; simpl.
  - exists acc. by rewrite app_nil_r.
  - assert (∃ acc1, mark_gate segments acc entry = Returned acc1
                    ∧ skeleton <$> acc1.1 = (skeleton <$> acc.1) ++ [skeleton entry])
      as (acc1 & -> & Hsk1).
    { unfold mark_gate.
      destruct (connected_segments entry.2) as [|sid [|sid' rest]] eqn:Hconn;
        try (eexists; split; [done|]; simpl; by rewrite fmap_app).
      destruct (Hwf entry sid) as [seg Hseg]; [by left|done|].
      unfold dict_getitem. rewrite Hseg. simpl.
      case_bool_decide; eexists; (split; [done|]); simpl; by rewrite fmap_app. }
    simpl. destruct (IH acc1) as (acc' & -> & Hsk); [intros e sid He; apply Hwf; by right|].
    exists acc'. split; [done|]. rewrite Hsk, Hsk1. by rewrite <- app_assoc.
Qed.

Lemma identify_total p :
  well_formed p →
  ∃ p', _identify_special_nodes p = Returned p'
        ∧ skeleton <$> nodes p' = skeleton <$> nodes p
        ∧ segments p' = segments p.
Proof.
  intros [Hsegs Hnodes]. unfold _identify_special_nodes.
  destruct (mark_pass_total (mark_runway_exits p) (segments p) (nodes p) (nodes p))
    as (nodes1 & -> & Hsk1); [|done|done|].
  { intros nodes entry Hs He. unfold mark_runway_exits.
    case_bool_decide; [by apply mark_ends_total|by exists nodes]. }
  simpl.
  destruct (mark_pass_total (mark_parking_exits (parking_exits p))
              (segments p) (nodes p) nodes1)
    as (nodes2 & -> & Hsk2); [|done|done|].
  { intros nodes entry Hs He. unfold mark_parking_exits.
    case_bool_decide; [by apply mark_ends_total|by exists nodes]. }
  simpl.
  destruct (mark_gates_total (segments p) nodes2 ([], gates p))
    as ([nodes3 gates3] & -> & Hsk3).
  { intros entry sid He Hconn.
    assert (Hin : skeleton entry ∈ skeleton <$> nodes p).
    { rewrite <- Hsk2. by apply list_elem_of_fmap_2. }
    apply list_elem_of_fmap in Hin as (entry0 & Heq & Hin).
    apply (Hnodes entry0 sid Hin). unfold skeleton in Heq. congruence. }
  simpl in *. eexists. split; [done|]. simpl. split; [congruence|done].
Qed.

Lemma identify_marks_gates p p' :
  _identify_special_nodes p = Returned p' →
  gates_marked (segments p') (nodes p', gates p').
Proof.
  unfold _identify_special_nodes. intros H.
  apply bind_returned in H as (nodes1 & _ & H).
  apply bind_returned in H as (nodes2 & _ & H).
  apply bind_returned in H as ([nodes3 gates3] & Hfold & H).
  injection H as <-. simpl.
  assert (H0 : gates_marked (segments p) ([], gates p))
    by (intros e seg He; by apply elem_of_nil in He).
  exact (mark_gates_marked _ _ _ _ H0 Hfold).
Qed.

Lemma parking_end_unique segments node seg seg' :
  parking_end segments node seg → parking_end segments node seg' → seg = seg'.
Proof.
  intros (sid & Hsid & Hget & _) (sid' & Hsid' & Hget' & _). congruence.
Qed.

Lemma mark_gate_indexed segments gates0 acc entry acc' :
  gates_indexed segments gates0 acc →
  mark_gate segments acc entry = Returned acc' →
  gates_indexed segments gates0 acc'.
Proof.
  intros [Hlast Hnone] Hstep.
  assert (Hkeep : (∀ seg, ¬ parking_end segments entry.2 seg) →
            gates_indexed segments gates0 (acc.1 ++ [entry], acc.2)).
  { intros Hnot. split; simpl.
    - intros i e seg Hi Hpark Hl.
      apply lookup_app_Some in Hi as [Hi|[_ Hi]].
      + apply (Hlast i e seg Hi Hpark). intros j e' seg' Hj He'.
        apply (Hl j e' seg' Hj). by apply lookup_app_l_Some.
      + apply list_lookup_singleton_Some in Hi as [_ <-]. by destruct (Hnot seg).
    - intros n Hn. apply Hnone. intros e seg He. apply Hn.
      apply elem_of_app. by left. }
  unfold mark_gate in Hstep.
  destruct (connected_segments entry.2) as [|sid [|sid' rest]] eqn:Hconn.
  - injection Hstep as <-. apply Hkeep.
    intros seg (sid & Hsid & _). congruence.
  - apply bind_returned in Hstep as (segment & Hseg & Hstep).
    unfold dict_getitem in Hseg.
    destruct (dict_get segments sid) as [segment'|] eqn:Hget; [|done].
    injection Hseg as ->.
    case_bool_decide as Htype.
    + injection Hstep as <-.
      assert (Hnew : parking_end segments entry.2 segment) by (by exists sid).
      split; simpl.
      * intros i e seg Hi Hpark Hl.
        apply lookup_app_Some in Hi as [Hi|[Hlen Hi]].
        -- assert (Hne : name segment ≠ name seg).
           { apply (Hl (List.length acc.1) (entry.1, as_gate entry.2 segment)).
             - by eapply lookup_lt_Some.
             - by rewrite list_lookup_middle.
             - done. }
           rewrite dict_get_set_ne by done.
           apply (Hlast i e seg Hi Hpark). intros j e' seg' Hj He'.
           apply (Hl j e' seg' Hj). by apply lookup_app_l_Some.
        -- apply list_lookup_singleton_Some in Hi as [_ <-]. simpl in *.
           rewrite (parking_end_unique _ _ _ _ Hpark Hnew).
           by rewrite dict_get_set_eq.
      * intros n Hn.
        assert (Hne : name segment ≠ n).
        { apply (Hn (entry.1, as_gate entry.2 segment)); [|done].
          apply elem_of_app. right. by apply list_elem_of_singleton. }
        rewrite dict_get_set_ne by done.
        apply Hnone. intros e seg He. apply Hn. apply elem_of_app. by left.
    + injection Hstep as <-. apply Hkeep.
      intros seg (sid0 & Hsid0 & Hget0 & Htype0).
      assert (sid0 = sid) as -> by congruence. congruence.
  - injection Hstep as <-. apply Hkeep.
    intros seg (sid0 & Hsid0 & _). congruence.
Qed.

Lemma mark_gates_indexed segments gates0 nodes acc acc' :
  gates_indexed segments gates0 acc →
  foldl_outcome (mark_gate segments) acc nodes = Returned acc' →
  gates_indexed segments gates0 acc'.
Proof.
  revert acc. induction nodes as [|entry nodes IH]; simpl; intros acc Hacc H.
  - by injection H as <-.
  - apply bind_returned in H as (acc1 & H1 & H).
    eapply IH; [|done]. by eapply mark_gate_indexed.
Qed.

Lemma identify_indexes_gates p p' :
  _identify_special_nodes p = Returned p' →
  gates_indexed (segments p') (gates p) (nodes p', gates p').
Proof.
  unfold _identify_special_nodes. intros H.
  apply bind_returned in H as (nodes1 & _ & H).
  apply bind_returned in H as (nodes2 & _ & H).
  apply bind_returned in H as ([nodes3 gates3] & Hfold & H).
  injection H as <-. simpl.
  assert (H0 : gates_indexed (segments p) (gates p) ([], gates p)).
  { split; [|done]. intros i e seg Hi. simpl in Hi. by rewrite lookup_nil in Hi. }
  exact (mark_gates_indexed _ _ _ _ _ H0 Hfold).
Qed.

(** C7, amended. On a processor whose segments end at existing nodes,
    [_identify_special_nodes] returns; it changes no node's id,
    coordinates or incident segments; and afterwards every node with
    exactly one incident segment, of type [parking_position], has
    [node_type] ["gate"] and as gate metadata the name, the heading and
    the id of that segment, whatever the two earlier passes made of it.
    The gate index holds one record per name: under the name of the
    segment stands the record (node id, coordinates, heading of the
    segment, id of the segment) of the last such node, in the order of
    [self.nodes], whose segment bears the name; a node is registered
    itself when no later gate node shares its name, and a name that no
    such node bears keeps what the index held. *)
Theorem gate_rule p :
  well_formed p →
  ∃ p', _identify_special_nodes p = Returned p'
    ∧ skeleton <$> nodes p' = skeleton <$> nodes p
    ∧ segments p' = segments p
    ∧ (∀ entry seg, entry ∈ nodes p' → parking_end (segments p') entry.2 seg →
        node_type entry.2 = "gate"
        ∧ gate_info entry.2
          = Some {| gi_gate_id := name seg; gi_heading := heading seg;
                    gi_segment_id := segment_id seg |})
    ∧ (∀ i entry seg, nodes p' !! i = Some entry →
        parking_end (segments p') entry.2 seg →
        (∀ j entry' seg', i < j → nodes p' !! j = Some entry' →
           parking_end (segments p') entry'.2 seg' → name seg' ≠ name seg) →
        dict_get (gates p') (name seg)
        = Some {| g_node_id := node_id entry.2;
                  g_coordinates := coordinates entry.2;
                  g_heading := heading seg;
                  g_segment_id := segment_id seg |})
    ∧ (∀ n, (∀ entry seg, entry ∈ nodes p' →
               parking_end (segments p') entry.2 seg → name seg ≠ n) →
            dict_get (gates p') n = dict_get (gates p) n).
Proof.
  intros Hwf. destruct (identify_total p Hwf) as (p' & Hrun & Hsk & Hsegs).
  exists p'. split; [done|]. split; [done|]. split; [done|].
  pose proof (identify_marks_gates _ _ Hrun) as Hmarked.
  destruct (identify_indexes_gates _ _ Hrun) as [Hlast Hnone].
  split; [|split].
  - intros entry seg Hin Hpark.
    destruct (Hmarked entry seg Hin Hpark) as (Htype & Hinfo & _).
    by split.
  - intros i entry seg Hi Hpark Hl. exact (Hlast i entry seg Hi Hpark Hl).
  - exact Hnone.
Qed.

Lemma gate_rule_witness :
  well_formed Examples.unclassified
  ∧ ∃ p', _identify_special_nodes Examples.unclassified = Returned p'
      ∧ (node_type <$> dict_get (nodes p') "N00000") = Some "gate"
      ∧ (gate_info <$> dict_get (nodes p') "N00000")
        = Some (Some {| gi_gate_id := "K24"; gi_heading := 0;
                        gi_segment_id := "S00000" |})
      ∧ dict_get (gates p') "K24"
        = Some {| g_node_id := "N00000"; g_coordinates := (2.25, 48.5)%float;
                  g_heading := 0; g_segment_id := "S00000" |}
      ∧ dict_get (gates p') "W2" = None.
Proof.
  assert (H : well_formed Examples.unclassified).
  { split.
    - intros entry Hin. simpl in Hin.
      repeat (apply elem_of_cons in Hin as [->|Hin]); [| |by apply elem_of_nil in Hin];
        split; vm_compute; eauto.
    - intros entry sid Hin Hconn. simpl in Hin.
      repeat (apply elem_of_cons in Hin as [->|Hin]); [| | |by apply elem_of_nil in Hin];
        simpl in Hconn; try discriminate Hconn; injection Hconn as <-;
        vm_compute; eauto. }
  split; [exact H|].
  destruct (gate_rule _ H) as (p' & Hrun & Hsk & Hsegs & Hgates & Hlast & Hnone).
  exists p'. split; [exact Hrun|].
  assert (Hnodes : ∃ n0 n1 n2,
            nodes p' = [("N00000", n0); ("N00001", n1); ("N00002", n2)]
            ∧ connected_segments n0 = ["S00000"]
            ∧ node_id n0 = "N00000" ∧ coordinates n0 = (2.25, 48.5)%float
            ∧ connected_segments n1 = ["S00000"; "S00001"]
            ∧ connected_segments n2 = ["S00001"]).
  { destruct (nodes p') as [|[k0 n0] [|[k1 n1] [|[k2 n2] [|e l]]]];
      try discriminate Hsk.
    injection Hsk as -> ? ? ? -> ? ? ? -> ? ? ?.
    exists n0, n1, n2. by repeat split. }
  destruct Hnodes as (n0 & n1 & n2 & Hn & Hc0 & Hid0 & Hco0 & Hc1 & Hc2).
  set (seg := {| segment_id := "S00000"; start_node := "N00000";
                 end_node := "N00001";
                 geometry := [(2.25, 48.5); (2.5, 48.5)]%float;
                 segment_type := "parking_position"; name := "K24";
                 length := 735; heading := 0 |}).
  assert (Hpark : parking_end (segments p') n0 seg).
  { exists "S00000". rewrite Hsegs. by repeat split. }
  assert (Hother : ∀ entry seg', entry ∈ nodes p' →
            parking_end (segments p') entry.2 seg' → entry = ("N00000", n0)).
  { intros entry seg' Hin (sid & Hsid & Hget & Htype). rewrite Hn in Hin.
    repeat (apply elem_of_cons in Hin as [->|Hin]); [done| | |by apply elem_of_nil in Hin];
      simpl in Hsid.
    - congruence.
    - rewrite Hc2 in Hsid. injection Hsid as <-. rewrite Hsegs in Hget.
      vm_compute in Hget. injection Hget as <-. discriminate Htype. }
  destruct (Hgates ("N00000", n0) seg) as [Htype Hinfo];
    [rewrite Hn; by left|exact Hpark|].
  simpl in Htype, Hinfo.
  split; [by rewrite Hn; simpl; rewrite Htype|].
  split; [by rewrite Hn; simpl; rewrite Hinfo|].
  split.
  - rewrite <- Hid0, <- Hco0.
    apply (Hlast 0 ("N00000", n0) seg); [by rewrite Hn|exact Hpark|].
    intros j entry' seg' Hj Hlook Hpark'.
    assert (Hin : entry' ∈ nodes p') by (by eapply list_elem_of_lookup_2).
    rewrite (Hother _ _ Hin Hpark') in Hlook. rewrite Hn in Hlook.
    destruct j as [|[|[|j]]]; simpl in Hlook; [lia|..]; discriminate Hlook.
  - rewrite (Hnone "W2"); [reflexivity|].
    intros entry seg' Hin Hpark'. pose proof (Hother _ _ Hin Hpark') as ->.
    simpl in Hpark'. rewrite (parking_end_unique _ _ _ _ Hpark' Hpark).
    discriminate.
Defined.

(** C7 as stated fails on a parking stub that meets no other line: both
    of its ends have the stub as their one segment, both become gates
    of the same name, and the gate index, which holds one record per
    name, keeps the second end only. The first end is a gate that is not
    registered. *)
Theorem one_gate_per_name :
  well_formed Examples.isolated_stub
  ∧ ∃ p' n0 n1 seg,
      _identify_special_nodes Examples.isolated_stub = Returned p'
      ∧ nodes p' = [("N00000", n0); ("N00001", n1)]
      ∧ parking_end (segments p') n0 seg
      ∧ parking_end (segments p') n1 seg
      ∧ name seg = "K24"
      ∧ node_id n0 = "N00000" ∧ node_type n0 = "gate"
      ∧ node_id n1 = "N00001" ∧ node_type n1 = "gate"
      ∧ gates p'
        = [("K24", {| g_node_id := "N00001"; g_coordinates := (2.5, 48.5)%float;
                      g_heading := 0; g_segment_id := "S00000" |})].
Proof.
  split.
  - split.
    + intros entry Hin. simpl in Hin.
      apply elem_of_cons in Hin as [->|Hin]; [|by apply elem_of_nil in Hin].
      split; vm_compute; eauto.
    + intros entry sid Hin Hconn. simpl in Hin.
      repeat (apply elem_of_cons in Hin as [->|Hin]); [| |by apply elem_of_nil in Hin];
        simpl in Hconn; injection Hconn as <-; vm_compute; eauto.
  - eexists _, _, _, _. split; [vm_compute; reflexivity|].
    split; [reflexivity|].
    split; [exists "S00000"; by repeat split|].
    split; [exists "S00000"; by repeat split|].
    by repeat split.
Qed.
End ProcessFacts.

Module IndexerFacts.
Import Process.


(** [==] on floats is symmetric and transitive (not reflexive: a NaN
    differs from itself). *)
Lemma SFeqb_true (a b : SpecFloat.spec_float) :
  SpecFloat.SFeqb a b = true ↔
  match a, b with
  | SpecFloat.S754_zero _, SpecFloat.S754_zero _ => True
  | SpecFloat.S754_infinity s, SpecFloat.S754_infinity s' => s = s'
  | SpecFloat.S754_finite s m e, SpecFloat.S754_finite s' m' e' =>
      s = s' ∧ m = m' ∧ e = e'
  | _, _ => False
  end.
Proof.
  unfold SpecFloat.SFeqb.
  destruct a as [s| s | |s m e], b as [s'|s'| |s' m' e']; simpl;
    try (by destruct s); try (by destruct s'); try done.
  - destruct s, s'; split; done.
  - change (PosDef.Pos.compare_cont Eq m m') with (Pos.compare m m').
    destruct s, s'; try (split; [done|by intros (? & _)]);
      destruct (Z.compare_spec e e') as [He|He|He];
      destruct (Pos.compare_spec m m') as [Hm|Hm|Hm]; simpl;
      split; try done; try (intros (_ & ? & ?); lia); try (intros _; by subst).
Qed.

Lemma float_eqb_sym (a b : float) : (a =? b)%float = (b =? a)%float.
Proof.
  rewrite !FloatAxioms.eqb_spec.
  apply eq_true_iff_eq. rewrite !SFeqb_true.
  destruct (FloatOps.Prim2SF a), (FloatOps.Prim2SF b); intuition congruence.
Qed.

Lemma float_eqb_trans (a b c : float) :
  (a =? b)%float = true → (b =? c)%float = true → (a =? c)%float = true.
Proof.
  rewrite !FloatAxioms.eqb_spec, !SFeqb_true.
  destruct (FloatOps.Prim2SF a), (FloatOps.Prim2SF b), (FloatOps.Prim2SF c);
    intuition congruence.
Qed.

Lemma key_eq_sym k1 k2 : key_eq k1 k2 = key_eq k2 k1.
Proof. unfold key_eq. by rewrite (float_eqb_sym k1.1), (float_eqb_sym k1.2). Qed.

Lemma key_eq_trans k1 k2 k3 :
  key_eq k1 k2 = true → key_eq k2 k3 = true → key_eq k1 k3 = true.
Proof.
  unfold key_eq. rewrite !andb_true_iff. intros [H1 H2] [H3 H4].
  eauto using float_eqb_trans.
Qed.

(** Identifiers are distinct for distinct numbers. *)
Lemma parse_zero s : parse ("0" +:+ s) = parse s.
Proof.
  unfold parse. cbv [String.append]. simpl.
  by destruct (DecimalString.NilEmpty.uint_of_string s).
Qed.

Lemma parse_zeros k s : parse (zeros k +:+ s) = parse s.
Proof.
  induction k as [|k IH]; [done|].
  change (zeros (S k) +:+ s) with ("0" +:+ (zeros k +:+ s)).
  by rewrite parse_zero.
Qed.

Lemma parse_pad5 n : parse (pad5 n) = Some n.
Proof.
  unfold pad5. rewrite parse_zeros. unfold parse, decimal.
  rewrite DecimalString.NilEmpty.usu. simpl. f_equal. apply DecimalNat.Unsigned.of_to.
Qed.

Lemma format_id_inj prefix : Inj (=) (=) (format_id prefix).
Proof.
  intros n m H. unfold format_id in H.
  assert (Hpad : pad5 n = pad5 m).
  { induction prefix as [|c prefix IH]; simpl in H; [done|]. injection H as H. auto. }
  apply (f_equal parse) in Hpad. rewrite !parse_pad5 in Hpad. by injection Hpad.
Qed.

Lemma key_eq_same k1 k2 : key_eq k1 k2 = true ↔ same_key k1 k2.
Proof. unfold key_eq, same_key. by rewrite andb_true_iff. Qed.

Lemma same_key_sym k1 k2 : same_key k1 k2 → same_key k2 k1.
Proof. rewrite <- !key_eq_same. by rewrite key_eq_sym. Qed.

Lemma same_key_trans k1 k2 k3 :
  same_key k1 k2 → same_key k2 k3 → same_key k1 k3.
Proof. rewrite <- !key_eq_same. apply key_eq_trans. Qed.

Section Deduplication.
Variable round : float → nat → float.

Lemma round_point_key pt : _round_point round pt 7 = key_of round pt.
Proof. reflexivity. Qed.

Lemma first_seen_app points pt j k :
  first_seen round points j k → first_seen round (points ++ [pt]) j k.
Proof.
  intros [Hj Hbefore].
  assert (Hlt : j < List.length points).
  { destruct (points !! j) eqn:E; [by eapply lookup_lt_Some|done]. }
  split.
  - by rewrite lookup_app_l.
  - intros j' pt' Hj' Hpt'. rewrite lookup_app_l in Hpt' by lia. eauto.
Qed.

Lemma existsb_key_false (unique : list (float * float * Node)) k entry :
  existsb (λ entry, key_eq entry.1 k) unique = false →
  entry ∈ unique → ¬ same_key entry.1 k.
Proof.
  intros H Hin Hs%key_eq_same.
  assert (Ht : existsb (λ entry, key_eq entry.1 k) unique = true).
  { apply existsb_exists. exists entry. by rewrite <- list_elem_of_In. }
  congruence.
Qed.

Lemma add_point_deduplicated points unique pt :
  deduplicated round points unique →
  deduplicated round (points ++ [pt]) (add_point round unique pt).
Proof.
  intros [Hnum Hdist Hcov (js & Hlen & Hmono & Hfirst)].
  unfold add_point. rewrite round_point_key.
  destruct (existsb _ unique) eqn:Hex.
  - (* a node of that key exists *)
    split; [done|done| |].
    + intros pt' [Hin| ->%list_elem_of_singleton]%elem_of_app Hself; [eauto|].
      apply existsb_exists in Hex as (entry & Hin & Heq%key_eq_same).
      exists entry. by rewrite list_elem_of_In.
    + exists js. split; [done|]. split; [done|].
      intros i entry j Hi Hj. apply first_seen_app. eauto.
  - (* a new node *)
    set (node := {| node_id := _ |}).
    split.
    + intros i entry [Hi|[Hi Heq]]%lookup_app_Some; [eauto|].
      apply list_lookup_singleton_Some in Heq as [Hi0 <-]. simpl.
      split; [|done]. f_equal. lia.
    + intros i1 i2 e1 e2 Hne [H1|[Hi1 H1]]%lookup_app_Some
             [H2|[Hi2 H2]]%lookup_app_Some; [eauto| | |].
      * apply list_lookup_singleton_Some in H2 as [_ <-]. simpl.
        eapply existsb_key_false; [done|]. by eapply list_elem_of_lookup_2.
      * apply list_lookup_singleton_Some in H1 as [_ <-]. simpl.
        intros Hs%same_key_sym. revert Hs.
        eapply existsb_key_false; [done|]. by eapply list_elem_of_lookup_2.
      * apply list_lookup_singleton_Some in H1 as [? _].
        apply list_lookup_singleton_Some in H2 as [? _]. lia.
    + intros pt' [Hin| ->%list_elem_of_singleton]%elem_of_app Hself.
      * destruct (Hcov _ Hin Hself) as (entry & He & Heq).
        exists entry. split; [apply elem_of_app; by left|done].
      * exists (key_of round pt, node).
        split; [apply elem_of_app; right; by apply list_elem_of_singleton|done].
    + exists (js ++ [List.length points]).
      assert (Hbound : ∀ i j, js !! i = Some j → j < List.length points).
      { intros i j Hj.
        assert (Hi : i < List.length unique)
          by (rewrite <- Hlen; by eapply lookup_lt_Some).
        apply lookup_lt_is_Some in Hi as [entry Hentry].
        destruct (Hfirst _ _ _ Hentry Hj) as [Hk _].
        destruct (points !! j) eqn:E; [by eapply lookup_lt_Some|done]. }
      split; [by rewrite !length_app, Hlen|]. split.
      * intros i1 i2 j1 j2 Hlt [H1|[Hi1 H1]]%lookup_app_Some
               [H2|[Hi2 H2]]%lookup_app_Some; [eauto| | |].
        -- apply list_lookup_singleton_Some in H2 as [_ <-]. eauto.
        -- apply lookup_lt_Some in H2. lia.
        -- apply list_lookup_singleton_Some in H1 as [? _].
           apply list_lookup_singleton_Some in H2 as [? _]. lia.
      * intros i entry j [Hi|[Hi Heq]]%lookup_app_Some Hj.
        -- rewrite lookup_app_l in Hj
             by (rewrite Hlen; by eapply lookup_lt_Some).
           apply first_seen_app. eauto.
        -- apply list_lookup_singleton_Some in Heq as [Hi0 <-].
           rewrite lookup_app_r in Hj by lia.
           apply list_lookup_singleton_Some in Hj as [_ <-]. simpl.
           split; [by rewrite list_lookup_middle|].
           intros j' pt' Hj' Hpt' Heq. rewrite lookup_app_l in Hpt' by done.
           destruct (Hcov pt') as (entry & Hin & He).
           { by eapply list_elem_of_lookup_2. }
           { eapply same_key_trans; [done|]. by apply same_key_sym. }
           apply (existsb_key_false _ _ _ Hex Hin).
           by eapply same_key_trans.
Qed.

Lemma create_nodes_deduplicated points :
  deduplicated round points (create_nodes round points).
Proof.
  unfold create_nodes. induction points as [|pt points IH] using rev_ind.
  - split; try done.
    + by intros pt ?%elem_of_nil.
    + exists []. split; [done|]. split; by intros.
  - rewrite foldl_snoc. by apply add_point_deduplicated.
Qed.

Lemma filter_none {A} (P : A → Prop) `{∀ x, Decision (P x)} (l : list A) :
  (∀ x, x ∈ l → ¬ P x) → filter P l = [].
Proof.
  induction l as [|a l IH]; intros Hnone; [done|].
  rewrite filter_cons, decide_False by (apply Hnone; by left).
  apply IH. intros x Hx. apply Hnone. by right.
Qed.

Lemma filter_exactly_one {A} (P : A → Prop) `{∀ x, Decision (P x)} (l : list A) :
  (∃ x, x ∈ l ∧ P x) →
  (∀ i1 i2 x1 x2, l !! i1 = Some x1 → l !! i2 = Some x2 → P x1 → P x2 → i1 = i2) →
  ∃ x, filter P l = [x].
Proof.
  induction l as [|a l IH]; intros (x & Hin & Hx) Huniq.
  - by apply elem_of_nil in Hin.
  - rewrite filter_cons. destruct (decide (P a)) as [Ha|Ha].
    + exists a. f_equal. apply filter_none. intros y Hy Hpy.
      apply list_elem_of_lookup in Hy as [i Hi].
      by specialize (Huniq 0 (S i) a y eq_refl Hi Ha Hpy).
    + apply IH.
      * exists x. split; [|done]. apply elem_of_cons in Hin as [->|Hin]; done.
      * intros i1 i2 x1 x2 H1 H2 Hp1 Hp2.
        specialize (Huniq (S i1) (S i2) x1 x2 H1 H2 Hp1 Hp2). lia.
Qed.

Lemma exactly_one_node points unique pt :
  deduplicated round points unique → pt ∈ points →
  same_key (key_of round pt) (key_of round pt) →
  ∃ entry, nodes_at unique (key_of round pt) = [entry].
Proof.
  intros Hd Hin Hself. apply filter_exactly_one.
  - destruct (covered _ _ _ Hd pt Hin Hself) as (entry & He & Heq). eauto.
  - intros i1 i2 x1 x2 H1 H2 Hp1 Hp2.
    destruct (decide (i1 = i2)) as [|Hne]; [done|].
    destruct (distinct _ _ _ Hd i1 i2 x1 x2 Hne H1 H2).
    eapply same_key_trans; [done|]. by apply same_key_sym.
Qed.

Lemma nodes_at_equal_keys unique k1 k2 :
  same_key k1 k2 → nodes_at unique k1 = nodes_at unique k2.
Proof.
  intros Heq. unfold nodes_at. apply list_filter_iff. intros entry. split; intros H.
  - by eapply same_key_trans.
  - eapply same_key_trans; [done|]. by apply same_key_sym.
Qed.

Lemma node_ids_distinct points unique :
  deduplicated round points unique → NoDup (node_id ∘ snd <$> unique).
Proof.
  intros Hd.
  assert (Hids : node_id ∘ snd <$> unique
                 = format_id "N" <$> seq 0 (List.length unique)).
  { apply list_eq. intros i. rewrite !list_lookup_fmap.
    destruct (unique !! i) as [entry|] eqn:E; simpl.
    - rewrite lookup_seq_lt by (by eapply lookup_lt_Some). simpl.
      f_equal. by apply (numbered _ _ _ Hd).
    - rewrite lookup_seq_ge; [done|]. by apply lookup_ge_None. }
  rewrite Hids. apply NoDup_fmap_2; [apply format_id_inj|apply NoDup_seq].
Qed.

Lemma dict_set_fresh {V} (d : list (string * V)) k v :
  k ∉ d.*1 → dict_set d k v = d ++ [(k, v)].
Proof.
  induction d as [|[k' v'] d IH]; simpl; [done|]. intros Hk.
  rewrite decide_False by (intros ->; apply Hk; by left).
  rewrite IH; [done|]. intros Hin. apply Hk. by right.
Qed.

Lemma nodes_of_distinct (unique : list (float * float * Node)) :
  NoDup (node_id ∘ snd <$> unique) →
  nodes_of unique = (λ entry, (node_id entry.2, entry.2)) <$> unique.
Proof.
  unfold nodes_of. induction unique as [|entry unique IH] using rev_ind; [done|].
  rewrite fmap_app, foldl_snoc. intros [Hnd [Hnotin _]]%NoDup_app.
  rewrite IH by done. rewrite fmap_app. simpl.
  apply dict_set_fresh. rewrite <- list_fmap_compose.
  intros Hin. apply (Hnotin _ Hin). by apply list_elem_of_singleton.
Qed.
End Deduplication.

Lemma last_or_default {A} (l : list A) (x d : A) :
  last l = Some x → List.last l d = x.
Proof.
  induction l as [|a [|b l] IH]; simpl; intros H; try congruence.
  apply IH. exact H.
Qed.

Lemma endpoints_ends line :
  line ≠ [] →
  ∃ es, endpoints line = Returned es ∧ ∀ pt, end_of line pt → pt ∈ es.
Proof.
  destruct line as [|c line]; [done|]. intros _. eexists. split; [reflexivity|].
  intros pt (c' & [Hc|Hc] & ->).
  - injection Hc as <-. by left.
  - rewrite (last_or_default _ _ c Hc). right. by left.
Qed.

Lemma fold_endpoints (lines : list (list (float * float))) acc :
  Forall (λ line, line ≠ []) lines →
  ∃ ends,
    foldl_outcome (λ acc line, e ← endpoints line; Returned (acc ++ e)) acc lines
      = Returned ends
    ∧ (∀ pt, pt ∈ acc → pt ∈ ends)
    ∧ ∀ line pt, line ∈ lines → end_of line pt → pt ∈ ends.
Proof.
  intros Hlines. revert acc.
  induction Hlines as [|l lines Hl Hlines IH]; simpl; intros acc.
  - exists acc. split; [done|]. split; [done|]. by intros line pt ?%elem_of_nil.
  - destruct (endpoints_ends l Hl) as (es & -> & Hes). simpl.
    destruct (IH (acc ++ es)) as (ends & -> & Hacc & Hends).
    exists ends. split; [done|]. split.
    + intros pt Hpt. apply Hacc, elem_of_app. by left.
    + intros line pt [->|Hin]%elem_of_cons Hend; [|eauto].
      apply Hacc, elem_of_app. right. by apply Hes.
Qed.

(** C6. The indexer on lines that each have a coordinate. The
    candidate points exist, and the first and the last coordinate of
    every line are among them. After the loop "Create nodes", with the
    key of a point being its two coordinates rounded to 7 decimal
    digits: two ends of lines whose keys are equal share exactly one
    node; every candidate point has exactly one node of its key; two
    nodes never have equal keys; the nodes are numbered [N00000],
    [N00001], ... and hold as coordinates the keys, in the order in which
    the keys were first met among the candidates; the ids are distinct,
    and [self.nodes] holds each node under its id. *)
Theorem node_deduplication round intersection lines :
  Forall (λ line, line ≠ []) lines →
  ∃ points,
    candidate_points intersection lines = Returned points
    ∧ (∀ line pt, line ∈ lines → end_of line pt → pt ∈ points)
    ∧ let unique := create_nodes round points in
      (∀ line1 line2 pt1 pt2,
          line1 ∈ lines → line2 ∈ lines →
          end_of line1 pt1 → end_of line2 pt2 →
          same_key (round (x pt1) 7, round (y pt1) 7)
                   (round (x pt2) 7, round (y pt2) 7) →
          ∃ entry, nodes_at unique (round (x pt1) 7, round (y pt1) 7) = [entry]
                   ∧ nodes_at unique (round (x pt2) 7, round (y pt2) 7) = [entry])
      ∧ (∀ pt, pt ∈ points →
          same_key (key_of round pt) (key_of round pt) →
          ∃ entry, nodes_at unique (key_of round pt) = [entry])
      ∧ (∀ i1 i2 e1 e2, i1 ≠ i2 →
          unique !! i1 = Some e1 → unique !! i2 = Some e2 →
          ¬ same_key e1.1 e2.1)
      ∧ (∀ i entry, unique !! i = Some entry →
          node_id entry.2 = format_id "N" i ∧ coordinates entry.2 = entry.1)
      ∧ (∃ js : list nat,
          List.length js = List.length unique
          ∧ (∀ i1 i2 j1 j2, i1 < i2 → js !! i1 = Some j1 → js !! i2 = Some j2 → j1 < j2)
          ∧ ∀ i entry j, unique !! i = Some entry → js !! i = Some j →
              first_seen round points j entry.1)
      ∧ NoDup (node_id ∘ snd <$> unique)
      ∧ nodes_of unique = (λ entry, (node_id entry.2, entry.2)) <$> unique.
Proof.
  intros Hlines. unfold candidate_points.
  destruct (fold_endpoints lines [] Hlines) as (ends & -> & _ & Hends). simpl.
  eexists. split; [reflexivity|].
  assert (Hcand : ∀ line pt, line ∈ lines → end_of line pt →
                    pt ∈ ends ++ intersections intersection lines).
  { intros line pt Hl Hpt. apply elem_of_app. left. eauto. }
  split; [exact Hcand|].
  set (points := ends ++ intersections intersection lines) in *.
  pose proof (create_nodes_deduplicated round points) as Hd.
  pose proof (node_ids_distinct _ _ _ Hd) as Hids.
  split; [|split; [|split; [|split; [|split; [|split]]]]].
  - intros line1 line2 pt1 pt2 Hl1 Hl2 Hp1 Hp2 Heq.
    change (round (x pt1) 7, round (y pt1) 7) with (key_of round pt1) in *.
    change (round (x pt2) 7, round (y pt2) 7) with (key_of round pt2) in *.
    assert (Hself : same_key (key_of round pt1) (key_of round pt1)).
    { eapply same_key_trans; [done|]. by apply same_key_sym. }
    destruct (exactly_one_node _ _ _ _ Hd (Hcand _ _ Hl1 Hp1) Hself)
      as (entry & Hentry).
    exists entry. split; [done|]. by rewrite <- (nodes_at_equal_keys _ _ _ Heq).
  - intros pt Hin Hself. by eapply exactly_one_node.
  - apply (distinct _ _ _ Hd).
  - apply (numbered _ _ _ Hd).
  - apply (in_order _ _ _ Hd).
  - done.
  - by apply nodes_of_distinct.
Qed.

Lemma node_deduplication_witness :
  Forall (λ line : list (float * float), line ≠ []) Examples.two_lines
  ∧ ∃ points,
      candidate_points Examples.no_crossing Examples.two_lines = Returned points
      ∧ (node_id ∘ snd <$> create_nodes Examples.nearest points)
        = ["N00000"; "N00001"; "N00002"]
      ∧ ∃ entry,
          nodes_at (create_nodes Examples.nearest points)
                   (Examples.nearest Examples.above_one 7, Examples.nearest 1 7)
          = [entry]
          ∧ nodes_at (create_nodes Examples.nearest points)
                     (Examples.nearest Examples.further_above_one 7,
                      Examples.nearest 1 7)
            = [entry]
          ∧ node_id entry.2 = "N00001"
          ∧ coordinates entry.2 = (1, 1)%float.
Proof.
  assert (H : Forall (λ line : list (float * float), line ≠ []) Examples.two_lines)
    by (by repeat constructor).
  split; [exact H|].
  destruct (node_deduplication Examples.nearest Examples.no_crossing _ H)
    as (points & Hpoints & _ & Hshared & _ & _ & Hnum & _).
  exists points. split; [exact Hpoints|].
  injection Hpoints as <-.
  split; [vm_compute; reflexivity|].
  destruct (Hshared [(0, 0); (Examples.above_one, 1)]%float
              [(Examples.further_above_one, 1); (2, 0)]%float
              {| x := Examples.above_one; y := 1 |}
              {| x := Examples.further_above_one; y := 1 |})
    as (entry & Hentry1 & Hentry2).
  - by left.
  - right. by left.
  - exists (Examples.above_one, 1%float). split; [by right|done].
  - exists (Examples.further_above_one, 1%float). split; [by left|done].
  - split; vm_compute; reflexivity.
  - exists entry. split; [exact Hentry1|]. split; [exact Hentry2|].
    vm_compute in Hentry1. injection Hentry1 as <-. split; vm_compute; reflexivity.
Defined.
End IndexerFacts.

(** *** The configuration file between the exporter and the router *)

Lemma exported_points_raise (p : Process.AirportProcessor) (airport_config wp : string) :
  airport_config = "WEST" ∨ airport_config = "EAST" →
  ∃ rc, Pathfinder.runway_config (router_of p airport_config) = Returned rc
        ∧ Pathfinder.find_point wp (Config.exits rc) = Raised ValueError
        ∧ Pathfinder.find_point wp (Config.entrances rc) = Raised ValueError.
Proof.
  intros H. unfold router_of, Pathfinder.runway_config.
  rewrite RouterFacts.load_data_fields. simpl.
  destruct H as [-> | ->]; eexists; (split; [reflexivity|]); split; reflexivity.
Qed.

(** C1 fails. In the configuration [export_config] writes, for any
    processor, the entrances and exits of WEST and of EAST are bare names,
    and the router's first unpacking of either list raises [ValueError]:
    so do [validate_movement] and [find_path] on the exported files. *)
Theorem exported_config_not_readable :
  (∀ p wp,
     (∃ rc, Pathfinder.runway_config (router_of p "WEST") = Returned rc
            ∧ Pathfinder.find_point wp (Config.exits rc) = Raised ValueError
            ∧ Pathfinder.find_point wp (Config.entrances rc) = Raised ValueError)
     ∧ (∃ rc, Pathfinder.runway_config (router_of p "EAST") = Returned rc
              ∧ Pathfinder.find_point wp (Config.exits rc) = Raised ValueError
              ∧ Pathfinder.find_point wp (Config.entrances rc) = Raised ValueError))
  ∧ Pathfinder.validate_movement (router_of Examples.classified "WEST")
      Pathfinder.ARRIVAL ["W34"; "K24"]
    = (Raised ValueError, router_of Examples.classified "WEST")
  ∧ Pathfinder.validate_movement (router_of Examples.classified "EAST")
      Pathfinder.DEPARTURE ["K24"; "W37"]
    = (Raised ValueError, router_of Examples.classified "EAST")
  ∧ (Pathfinder.find_path Examples.ascending 100 (router_of Examples.classified "WEST")
       ["W34"; "K24"] Pathfinder.ARRIVAL).1
    = Raised ValueError.
Proof.
  split; [|split; [|split]].
  - intros p wp. split; apply exported_points_raise; auto.
  - vm_compute; reflexivity.
  - vm_compute; reflexivity.
  - vm_compute; reflexivity.
Qed.


Module RoutingFacts.
Import Pathfinder Routing.

(** *** The graph of a loaded network *)

Lemma ensure_node_exact g k node :
  ensure_node g k !! node
  = if decide (k = node) then Some (default [] (g !! node)) else g !! node.
Proof.
  unfold ensure_node. destruct (decide (k = node)) as [->|Hne].
  - destruct (g !! node) as [l|] eqn:E; [by rewrite E|].
    by rewrite lookup_insert_eq.
  - destruct (g !! k); [done|]. by rewrite lookup_insert_ne.
Qed.

Lemma append_edge_exact g k e node :
  append_edge g k e !! node
  = if decide (k = node) then (λ l, l ++ [e]) <$> g !! node else g !! node.
Proof.
  unfold append_edge. rewrite lookup_alter.
  by destruct (decide (k = node)) as [->|Hne].
Qed.

Lemma add_to_graph_exact g s node :
  add_to_graph g s !! node
  = if touches node s
    then Some (default [] (g !! node) ++ edges_at node s)
    else g !! node.
Proof.
  unfold add_to_graph, touches, edges_at.
  rewrite !append_edge_exact, !ensure_node_exact.
  destruct (decide (end_node s = node)) as [He|He];
    destruct (decide (start_node s = node)) as [Hs|Hs]; simpl.
  - rewrite (bool_decide_eq_true_2 (node = start_node s)) by done. simpl.
    by rewrite <- app_assoc.
  - rewrite (bool_decide_eq_false_2 (node = start_node s)) by done.
    rewrite (bool_decide_eq_true_2 (node = end_node s)) by done. simpl.
    done.
  - rewrite (bool_decide_eq_true_2 (node = start_node s)) by done. simpl.
    done.
  - rewrite (bool_decide_eq_false_2 (node = start_node s)) by done.
    rewrite (bool_decide_eq_false_2 (node = end_node s)) by done. simpl.
    done.
Qed.

Lemma edges_at_untouched node s : touches node s = false → edges_at node s = [].
Proof.
  unfold touches, edges_at. intros [H1 H2]%orb_false_iff.
  apply bool_decide_eq_false in H1, H2.
  by rewrite !decide_False by congruence.
Qed.

Lemma edges_at_none node all :
  existsb (touches node) all = false → all ≫= edges_at node = [].
Proof.
  induction all as [|s all IH]; [done|].
  rewrite bind_cons. simpl. intros [H1 H2]%orb_false_iff.
  by rewrite edges_at_untouched, IH.
Qed.

Lemma build_graph_exact all node :
  foldl add_to_graph ∅ all !! node
  = if existsb (touches node) all
    then Some (all ≫= edges_at node) else None.
Proof.
  induction all as [|s all IH] using rev_ind; [simpl; by rewrite lookup_empty|].
  rewrite foldl_snoc, add_to_graph_exact, IH, existsb_app, bind_app. simpl.
  rewrite app_nil_r, orb_false_r.
  destruct (touches node s) eqn:Ht.
  - rewrite orb_true_r. destruct (existsb _ all) eqn:Hx; [done|].
    by rewrite (edges_at_none _ _ Hx).
  - rewrite orb_false_r, edges_at_untouched, app_nil_r by done. done.
Qed.

(** X1. The adjacency of a loaded network, exactly: a node has a row when
    some loaded segment touches it, and the row lists, in the order of
    [all_segments], the far end, id and length of every loaded segment
    at that node, a segment from a node to itself twice. *)
Theorem loaded_graph_rows cfg data airport_cfg node :
  let self := _load_data cfg data airport_cfg in
  graph self !! node
  = if existsb (touches node) (all_segments self)
    then Some (all_segments self ≫= edges_at node) else None.
Proof.
  simpl. rewrite RouterFacts.load_data_fields. simpl. apply build_graph_exact.
Qed.

(** *** Validation *)

Lemma last_cons_default (x : string) l d :
  last (x :: l) = Some (List.last (x :: l) d).
Proof.
  revert x. induction l as [|y l IH]; intros x; [done|].
  change (last (x :: y :: l)) with (last (y :: l)).
  change (List.last (x :: y :: l) d) with (List.last (y :: l) d). apply IH.
Qed.

(** X2. With a readable runway configuration [validate_movement] always
    answers, and it answers True exactly for the requests of two names
    or more whose runway end is listed (first name an exit of an
    arrival, last name an entrance of a departure) and whose other end
    is the id of a gate. *)
Theorem validate_accepts self movement_type points :
  readable self →
  ∃ b, (validate_movement self movement_type points).1 = Returned b
       ∧ (b = true ↔ accepted self movement_type points).
Proof.
  intros (rc & Hrc & Hex & Hen). unfold validate_movement, accepted. simpl.
  destruct points as [|first [|second rest]].
  - exists false. split; [done|]. split; [done|]. simpl. lia.
  - exists false. split; [done|]. split; [done|]. simpl. lia.
  - pose proof (last_cons_default first (second :: rest) first) as Hlast.
    assert (Hlen : 2 ≤ List.length (first :: second :: rest)) by (simpl; lia).
    unfold validate.
    assert (Hhead : head (first :: second :: rest) = Some first) by done.
    remember (first :: second :: rest) as points eqn:Hpoints.
    unfold listed_exits, listed_entrances. rewrite Hrc.
    destruct movement_type; simpl.
    + destruct (RouterFacts.find_point_pairs first _ Hex) as (o & -> & Hnone & Hsome).
      simpl. destruct o as [node|].
      * exists (gate_found self (List.last points first)). split; [done|].
        rewrite RouterFacts.gate_found_known. split.
        -- intros Hg. split; [done|]. split; [|by eauto].
           exists first. split; [done|].
           destruct (decide (first ∈ point_name <$> Config.exits rc)); [done|].
           by specialize (Hnone n).
        -- intros (_ & _ & g & Hg & Hk). rewrite Hlast in Hg. by injection Hg as <-.
      * exists false. split; [done|]. split; [done|].
        intros (_ & (w & Hw & Hin) & _). rewrite Hhead in Hw.
        injection Hw as <-. by destruct (Hsome Hin).
    + destruct (gate_found self first) eqn:Hg.
      * apply RouterFacts.gate_found_known in Hg.
        destruct (RouterFacts.find_point_pairs (List.last points first) _ Hen)
          as (o & -> & Hnone & Hsome).
        simpl. destruct o as [node|].
        -- exists true. split; [done|]. split; [|done]. intros _.
           split; [done|]. split; [by eauto|].
           exists (List.last points first). split; [done|].
           destruct (decide (List.last points first
                             ∈ point_name <$> Config.entrances rc)); [done|].
           by specialize (Hnone n).
        -- exists false. split; [done|]. split; [done|].
           intros (_ & _ & w & Hw & Hin). rewrite Hlast in Hw.
           injection Hw as <-. by destruct (Hsome Hin).
      * exists false. split; [done|]. split; [done|].
        intros (_ & (g & Hh & Hk) & _). rewrite Hhead in Hh.
        injection Hh as <-.
        apply RouterFacts.gate_found_known in Hk. congruence.
Qed.

(** *** The search *)

Lemma heappop_from_elems x l m r :
  heappop_from x l = (m, r) →
  m ∈ x :: l ∧ ∀ e, e ∈ r → e ∈ x :: l.
Proof.
  revert x m r. induction l as [|y l IH]; intros x m r; simpl.
  - intros [= <- <-]. split; [left|]. by intros e H%elem_of_nil.
  - destruct (entry_lt y x).
    + destruct (heappop_from y l) as [m' r'] eqn:E. intros [= <- <-].
      destruct (IH _ _ _ E) as [Hm Hr]. split.
      * by right.
      * intros e [->|He]%elem_of_cons; [left|]. right. by apply Hr.
    + destruct (heappop_from x l) as [m' r'] eqn:E. intros [= <- <-].
      destruct (IH _ _ _ E) as [Hm Hr]. split.
      * apply elem_of_cons in Hm as [->|Hm]; [left|]. right. by right.
      * intros e [->|He]%elem_of_cons; [right; left|].
        apply Hr, elem_of_cons in He as [->|He]; [left|]. right. by right.
Qed.

Lemma foldl_outcome_invariant {A B} (P : A → Prop) (f : A → B → outcome A) l :
  (∀ a x a', x ∈ l → P a → f a x = Returned a' → P a') →
  ∀ a a', P a → foldl_outcome f a l = Returned a' → P a'.
Proof.
  induction l as [|x l IH]; intros Hf a a' Ha; simpl.
  - by intros [= <-].
  - intros (a1 & H1 & H2)%bind_returned.
    apply (IH (λ a0 y a0' Hy, Hf a0 y a0' (list_elem_of_further _ _ _ Hy)) a1);
      [|done].
    apply (Hf a x); [left|done..].
Qed.

Lemma relax_sound self starts forbidden allowed dist current path edges st edge st' :
  found self starts forbidden allowed dist current path →
  graph self !! current = Some edges → edge ∈ edges →
  sound self starts forbidden allowed st →
  relax self forbidden allowed dist path st edge = Returned st' →
  sound self starts forbidden allowed st'.
Proof.
  intros [(a & Ha & Hwalk) Huse] Hedges Hedge Hst. unfold relax.
  destruct edge as [[next sid] len].
  case_bool_decide as Hforb; [by intros [= <-]|].
  intros (seg & Hseg & H)%bind_returned. revert H.
  destruct (name_excluded allowed (name seg)) eqn:Hname; [by intros [= <-]|].
  intros (known & Hknown & H)%bind_returned. revert H.
  destruct (_ <? _)%float; [|by intros [= <-]].
  intros [= <-].
  assert (Hnew : found self starts forbidden allowed (dist + len) next
                       (path ++ [sid])).
  { split.
    - exists a. split; [done|]. by eapply walk_snoc.
    - apply Forall_app. split; [done|]. constructor; [|done]. split; [done|].
      by exists seg. }
  destruct Hst as (Hdom & Hrows & Hpq). unfold getitem in Hknown.
  destruct (st.1 !! next) as [k|] eqn:Hk; [|done].
  split; [|split]; simpl.
  - intros node. rewrite lookup_insert. case_decide as Hn; [|apply Hdom].
    subst node. rewrite <- Hdom, Hk. split; eauto.
  - intros node row. rewrite lookup_insert. case_decide as Hn; [|apply Hrows].
    subst node. intros [= <-]. by right.
  - intros d n p [[= -> -> ->]|Hin]%elem_of_cons; [done|]. by apply Hpq.
Qed.

Lemma search_sound fuel self starts targets forbidden allowed distances pq ft result :
  sound self starts forbidden allowed (distances, pq) →
  search fuel self targets forbidden allowed distances pq ft = Returned result →
  sound self starts forbidden allowed (result, []).
Proof.
  revert distances pq ft.
  assert (Hdone : ∀ distances pq,
            sound self starts forbidden allowed (distances, pq) →
            sound self starts forbidden allowed (distances, [])).
  { intros distances pq (Hdom & Hrows & _). split; [done|]. split; [done|].
    by intros d n p H%elem_of_nil. }
  induction fuel as [|fuel IH]; intros distances pq ft Hst; simpl.
  - destruct pq as [|x rest]; [intros [= <-]; eauto|].
    case_bool_decide as Hsz; [done|]. intros [= <-]; eauto.
  - destruct pq as [|x rest]; [intros [= <-]; eauto|].
    case_bool_decide as Hsz; [|intros [= <-]; eauto].
    destruct (heappop_from x rest) as [[[dist current] path] pq'] eqn:Hpop.
    apply heappop_from_elems in Hpop as [Hm Hrest].
    destruct Hst as (Hdom & Hrows & Hpq). simpl in *.
    assert (Hst' : sound self starts forbidden allowed (distances, pq')).
    { split; [done|]. split; [done|]. intros d n p Hin. by apply Hpq, Hrest. }
    intros (known & Hknown & H)%bind_returned. revert H.
    destruct (_ <? _)%float; [by apply IH|].
    intros (edges & Hedges & H)%bind_returned. revert H.
    intros ([distances' pq''] & Hfold & H)%bind_returned. revert H.
    apply IH.
    unfold getitem in Hedges.
    destruct (graph self !! current) as [edges'|] eqn:Hg; [|done].
    injection Hedges as ->.
    eapply (foldl_outcome_invariant (sound self starts forbidden allowed));
      [|exact Hst'|exact Hfold].
    intros a e a' He Ha. eapply relax_sound; eauto.
Qed.

Lemma initial_rows_sound self starts forbidden allowed l (d : Distances) :
  (∀ a, a ∈ l → a ∈ starts) →
  (∀ node, is_Some (d !! node) ↔ is_Some (graph self !! node)) →
  (∀ node row, d !! node = Some row →
     row_ok self starts forbidden allowed node row) →
  let d' := foldl (λ (d : Distances) start,
                     if in_graph self start
                     then <[start := (0%float, [])]> d else d) d l in
  (∀ node, is_Some (d' !! node) ↔ is_Some (graph self !! node))
  ∧ (∀ node row, d' !! node = Some row →
       row_ok self starts forbidden allowed node row).
Proof.
  revert d. induction l as [|a l IH]; intros d Hl Hdom Hrows; [done|].
  simpl. apply IH.
  - intros b Hb. apply Hl. by right.
  - unfold in_graph. case_bool_decide as Hin; [|done].
    intros node. rewrite lookup_insert. case_decide as Hn; [|apply Hdom].
    subst. split; eauto.
  - unfold in_graph. case_bool_decide as Hin; [|done].
    intros node row. rewrite lookup_insert. case_decide as Hn; [|apply Hrows].
    subst. intros [= <-]. right. split; [|by constructor].
    exists node. split; [apply Hl; left|constructor].
Qed.

Lemma dijkstra_sound fuel self start_nodes target_nodes
    forbidden_segments allowed_segment_names distances :
  dijkstra_multi_target fuel self start_nodes target_nodes
    forbidden_segments allowed_segment_names = Returned distances →
  sound self start_nodes (default ∅ forbidden_segments) allowed_segment_names
        (distances, []).
Proof.
  unfold dijkstra_multi_target. apply search_sound.
  destruct (initial_rows_sound self start_nodes
              (default ∅ forbidden_segments) allowed_segment_names start_nodes
              ((λ _ : list Edge, (infinity, [] : list string)) <$> graph self))
    as [Hdom Hrows]; [done| | |].
  - intros n. rewrite lookup_fmap. by rewrite fmap_is_Some.
  - intros n row. rewrite lookup_fmap.
    destruct (graph self !! n); [|done]. intros [= <-]. by left.
  - split; [done|]. split; [done|]. simpl.
    intros d n p (a & [= -> -> ->] & Ha)%list_elem_of_fmap.
    apply list_elem_of_In, filter_In in Ha as [Ha%list_elem_of_In _].
    split; [|by constructor]. exists a. split; [done|constructor].
Qed.

(** X3. What a search returns is a table with one row for each node of
    the graph and no other. A row is either the initial
    [(inf, [])] or a route that exists: its segments lead, each one
    from where the one before ended, from a start node to the node of
    the row; none of them is forbidden, none has a name outside a
    non-empty [allowed_segment_names]; and its distance is the sum of
    their lengths, added in that order. *)
Theorem search_rows_are_routes fuel self start_nodes target_nodes
    forbidden_segments allowed_segment_names distances node :
  dijkstra_multi_target fuel self start_nodes target_nodes
    forbidden_segments allowed_segment_names = Returned distances →
  (is_Some (distances !! node) ↔ is_Some (graph self !! node))
  ∧ ∀ row, distances !! node = Some row →
      row_ok self start_nodes (default ∅ forbidden_segments)
             allowed_segment_names node row.
Proof.
  intros (Hdom & Hrows & _)%dijkstra_sound.
  split; [apply Hdom|apply Hrows].
Qed.

(** *** The search does not raise *)

Lemma foldl_outcome_safe {A B} (P : A → Prop) (f : A → B → outcome A) l :
  (∀ a x, x ∈ l → P a →
     (∃ a', f a x = Returned a' ∧ P a') ∨ f a x = OutOfFuel) →
  ∀ a, P a →
    (∃ a', foldl_outcome f a l = Returned a' ∧ P a')
    ∨ foldl_outcome f a l = OutOfFuel.
Proof.
  induction l as [|x l IH]; intros Hf a Ha; simpl.
  - left. by exists a.
  - destruct (Hf a x) as [(a1 & -> & Ha1)| ->]; [left|done| |by right].
    simpl. apply IH; [|done]. intros a' y Hy. apply Hf. by right.
Qed.

Lemma relax_safe self forbidden allowed dist path edges current st edge :
  closed self →
  graph self !! current = Some edges → edge ∈ edges →
  safe self st →
  ∃ st', relax self forbidden allowed dist path st edge = Returned st'
         ∧ safe self st'.
Proof.
  intros Hclosed Hedges Hedge [Hdom Hpq]. unfold relax.
  destruct edge as [[next sid] len].
  destruct (Hclosed _ _ _ _ _ Hedges Hedge) as [Hnext [seg Hseg]].
  case_bool_decide as Hforb; [by exists st|].
  rewrite Hseg. simpl.
  destruct (name_excluded allowed (name seg)); [by exists st|].
  apply Hdom in Hnext as Hrow. destruct Hrow as [known Hknown].
  unfold getitem. rewrite Hknown. simpl.
  destruct (_ <? _)%float; [|by exists st].
  eexists. split; [done|]. split; simpl.
  - intros node. rewrite lookup_insert. case_decide as Hn; [|apply Hdom].
    subst node. split; eauto.
  - intros d n p [[= -> -> ->]|Hin]%elem_of_cons; [done|]. by eapply Hpq.
Qed.

Lemma search_safe fuel self targets forbidden allowed distances pq ft e :
  closed self → safe self (distances, pq) →
  search fuel self targets forbidden allowed distances pq ft ≠ Raised e.
Proof.
  intros Hclosed. revert distances pq ft.
  induction fuel as [|fuel IH]; intros distances pq ft Hsafe; simpl.
  - destruct pq as [|x rest]; [done|]. by case_bool_decide.
  - destruct pq as [|x rest]; [done|]. case_bool_decide as Hsz; [|done].
    destruct (heappop_from x rest) as [[[dist current] path] pq'] eqn:Hpop.
    apply heappop_from_elems in Hpop as [Hm Hrest].
    destruct Hsafe as [Hdom Hpq]. simpl in *.
    assert (Hsafe' : safe self (distances, pq')).
    { split; [done|]. intros d n p Hin. eapply Hpq. by apply Hrest. }
    destruct (Hpq _ _ _ Hm) as [edges Hedges].
    destruct (proj2 (Hdom current)) as [known Hknown]; [by eexists|].
    unfold getitem. rewrite Hknown, Hedges. simpl.
    destruct (_ <? _)%float; [by apply IH|].
    destruct (foldl_outcome_safe (safe self)
                (relax self forbidden allowed dist path) edges) with (a := (distances, pq'))
      as [([d' q'] & -> & Hsafe'')| ->]; [|done| |done].
    + intros a edge Hedge Ha. left. by eapply relax_safe.
    + simpl. by apply IH.
Qed.

Lemma loaded_closed cfg data airport_cfg :
  closed (_load_data cfg data airport_cfg).
Proof.
  intros b edges c sid len Hedges Hedge.
  rewrite RouterFacts.load_data_fields in *. simpl in *.
  set (all := (foldl process_feature (∅, []) data).2) in *.
  destruct (RouterFacts.build_graph_ok all _ _ Hedges) as [_ Hall].
  destruct (Hall _ Hedge) as (s & Hs & Hof). split.
  - rewrite build_graph_exact.
    replace (existsb (touches c) all) with true; [by eexists|]. symmetry.
    apply existsb_exists. exists s. split; [by apply list_elem_of_In|].
    destruct Hof as [[_ [= -> _ _]]|[_ [= -> _ _]]];
      [by apply RouterFacts.touches_end|by apply RouterFacts.touches_start].
  - unfold segment_by_id. simpl. fold all.
    assert (Hid : segment_id s = sid)
      by (by destruct Hof as [[_ [= _ -> _]]|[_ [= _ -> _]]]).
    destruct (List.find _ all) as [seg|] eqn:Hfind; [by eexists|].
    apply list_elem_of_In in Hs.
    pose proof (find_none _ _ Hfind _ Hs) as Hno. simpl in Hno.
    by apply bool_decide_eq_false in Hno.
Qed.

Lemma dijkstra_safe fuel self start_nodes target_nodes forbidden allowed e :
  closed self →
  dijkstra_multi_target fuel self start_nodes target_nodes forbidden allowed
  ≠ Raised e.
Proof.
  intros Hclosed. unfold dijkstra_multi_target. apply search_safe; [done|].
  split; simpl.
  - destruct (initial_rows_sound self start_nodes ∅ None start_nodes
                ((λ _ : list Edge, (infinity, [] : list string)) <$> graph self))
      as [Hdom _]; [done| | |done].
    + intros n. rewrite lookup_fmap. by rewrite fmap_is_Some.
    + intros n row. rewrite lookup_fmap.
      destruct (graph self !! n); [|done]. intros [= <-]. by left.
  - intros d n p (a & [= -> -> ->] & Ha)%list_elem_of_fmap.
    apply list_elem_of_In, filter_In in Ha as [_ Ha].
    unfold in_graph in Ha. by apply bool_decide_eq_true in Ha.
Qed.

(** X4. On an airport loaded from a network file the search never
    raises: every entry of the graph leads to a node of the graph over
    a segment of [all_segments], so neither [distances[...]],
    [self.graph[...]] nor [next(...)] fails, whatever the start nodes,
    targets and restrictions are. It returns, or the bound on the
    iterations is reached. *)
Theorem search_never_raises fuel cfg data airport_cfg start_nodes target_nodes
    forbidden_segments allowed_segment_names :
  (∃ distances,
      dijkstra_multi_target fuel (_load_data cfg data airport_cfg) start_nodes
        target_nodes forbidden_segments allowed_segment_names
      = Returned distances)
  ∨ dijkstra_multi_target fuel (_load_data cfg data airport_cfg) start_nodes
      target_nodes forbidden_segments allowed_segment_names
    = OutOfFuel.
Proof.
  pose proof (λ e, dijkstra_safe fuel (_load_data cfg data airport_cfg)
                     start_nodes target_nodes forbidden_segments
                     allowed_segment_names e (loaded_closed _ _ _)) as H.
  destruct (dijkstra_multi_target _ _ _ _ _ _) as [d|e|]; [by eauto| |by right].
  by destruct (H e).
Qed.

(** *** One leg *)

Lemma infinity_not_lt x : (infinity <? x)%float = false.
Proof.
  rewrite FloatAxioms.ltb_spec.
  change (FloatOps.Prim2SF infinity) with (SpecFloat.S754_infinity false).
  by destruct (FloatOps.Prim2SF x) as [[]|[]| |[]].
Qed.

Lemma enforce_node_redundant self points movement_type waypoint enforce targets :
  (if bool_decide (movement_type = DEPARTURE)
      && bool_decide (last points = Some waypoint)
   then rc ← runway_config self; find_point waypoint (Config.entrances rc)
   else Returned None) = Returned enforce →
  get_segment_nodes self points movement_type waypoint enforce = Returned targets →
  get_segment_nodes self points movement_type waypoint None = Returned targets.
Proof.
  intros Henf. destruct enforce as [node|]; [|done].
  intros [= <-]. unfold get_segment_nodes.
  destruct (bool_decide (movement_type = DEPARTURE)
            && bool_decide (last points = Some waypoint)) eqn:Hc; [|done].
  apply andb_true_iff in Hc as [Hm%bool_decide_eq_true _]. subst movement_type.
  simpl. by rewrite Henf.
Qed.

Lemma consider_targets_chosen self allowed distances targets best :
  foldl_outcome (consider_target self allowed distances)
                (None, infinity, None) targets = Returned best →
  best = (None, infinity, None)
  ∨ ∃ t d p x, best = (Some t, d, Some p) ∧ t ∈ targets
               ∧ distances !! t = Some (d, p) ∧ (d <? x)%float = true.
Proof.
  apply (foldl_outcome_invariant
           (λ best, best = (None, infinity, None)
                    ∨ ∃ t d p x, best = (Some t, d, Some p) ∧ t ∈ targets
                                 ∧ distances !! t = Some (d, p)
                                 ∧ (d <? x)%float = true)); [|by left].
  intros b t b' Ht Hb. unfold consider_target, getitem.
  destruct (distances !! t) as [[dist sp]|] eqn:Hrow; [|done]. simpl.
  destruct (dist <? b.1.2)%float eqn:Hlt; [|by intros [= <-]].
  intros (valid & _ & H)%bind_returned. destruct valid; injection H as <-; [|done].
  right. by exists t, dist, sp, b.1.2.
Qed.

Lemma route_leg_walk set_iter fuel self points movement_type st
    best_path best_target :
  enumerates set_iter →
  route_leg set_iter fuel self points movement_type st
    = Returned (Some (best_path, best_target)) →
  ∃ next_waypoint targets d,
    points !! S (current_waypoint_idx st) = Some next_waypoint
    ∧ get_segment_nodes self points movement_type next_waypoint None
      = Returned targets
    ∧ best_target ∈ targets
    ∧ walk self (last_node st) best_path d best_target
    ∧ Forall (λ sid, sid ∉ used_segments st) best_path.
Proof.
  intros Hit. unfold route_leg.
  destruct (points !! current_waypoint_idx st) as [w_i|]; [|done].
  destruct (points !! S (current_waypoint_idx st)) as [w_j|]; [|done].
  intros (enforce & Henf & H)%bind_returned.
  apply bind_returned in H as (targets & Htargets & H).
  apply bind_returned in H as (distances & Hsearch & H).
  apply bind_returned in H as (best & Hbest & H).
  apply consider_targets_chosen in Hbest
    as [->|(t & d & p & x & -> & Ht & Hrow & Hlt)]; [done|].
  injection H as <- <-.
  exists w_j, targets, d. split; [done|].
  split; [by eapply enforce_node_redundant|].
  split.
  { rewrite <- elem_of_elements. by rewrite <- (Hit targets). }
  destruct (dijkstra_sound _ _ _ _ _ _ _ Hsearch) as (_ & Hrows & _).
  destruct (Hrows _ _ Hrow) as [[= -> ->]|[(a & Ha & Hwalk) Huse]].
  { by rewrite infinity_not_lt in Hlt. }
  simpl in *. apply list_elem_of_singleton in Ha as ->. split; [done|].
  eapply Forall_impl; [exact Huse|]. by intros sid [Hsid _].
Qed.

(** X5. A leg the loop accepts is a route from the anchor to a node of
    the next waypoint: its segments lead, each from where the one
    before ended, from [last_node] to [best_target]; none of them is in
    [used_segments]; and [best_target] is one of the nodes
    [get_segment_nodes] gives for the next waypoint without
    [enforce_node], which therefore never changes the targets. *)
Theorem leg_is_route set_iter fuel self points movement_type st
    best_path best_target :
  enumerates set_iter →
  route_leg set_iter fuel self points movement_type st
    = Returned (Some (best_path, best_target)) →
  ∃ next_waypoint targets d,
    points !! S (current_waypoint_idx st) = Some next_waypoint
    ∧ get_segment_nodes self points movement_type next_waypoint None
      = Returned targets
    ∧ best_target ∈ targets
    ∧ walk self (last_node st) best_path d best_target
    ∧ Forall (λ sid, sid ∉ used_segments st) best_path.
Proof. apply route_leg_walk. Qed.

(** *** The loop over the legs *)

Lemma segment_by_id_held self sid seg :
  segment_by_id self sid = Returned seg →
  seg ∈ all_segments self ∧ segment_id seg = sid.
Proof.
  unfold segment_by_id.
  destruct (List.find _ _) as [s|] eqn:E; [|done]. intros [= <-].
  apply find_some in E as [Hin Hid]. split; [by apply list_elem_of_In|].
  by apply bool_decide_eq_true in Hid.
Qed.

Lemma add_segment_priced self p seg :
  priced self p → held self seg →
  priced self (add_segment p (segment_id seg) (length seg)).
Proof.
  intros (segs & Hids & Hheld & Hsum) Hseg. exists (segs ++ [seg]).
  split; [|split].
  - simpl. by rewrite Hids, fmap_app.
  - apply Forall_app. split; [done|]. by constructor.
  - simpl. unfold summed. by rewrite foldl_snoc, Hsum.
Qed.

Lemma add_path_segments_priced self best_path acc acc' :
  foldl_outcome (add_path_segment self) acc best_path = Returned acc' →
  (priced self acc.1 → priced self acc'.1)
  ∧ ∀ sid, sid ∈ acc'.2 ↔ sid ∈ acc.2 ∨ sid ∈ best_path.
Proof.
  revert acc. induction best_path as [|sid l IH]; simpl; intros acc H.
  - injection H as <-. split; [done|]. intros sid. split; [by left|].
    by intros [?|?%elem_of_nil].
  - apply bind_returned in H as (a1 & H1 & H).
    destruct (IH _ H) as [Hp Hu]. unfold add_path_segment in H1.
    apply bind_returned in H1 as (seg & Hseg & H1). injection H1 as <-.
    apply segment_by_id_held in Hseg as [Hin <-]. simpl in *. split.
    + intros Hacc. apply Hp, add_segment_priced; [done|by left].
    + intros x. rewrite Hu, elem_of_union, elem_of_singleton, elem_of_cons.
      tauto.
Qed.

Lemma advance_used self st best_path best_target st' :
  advance self st best_path best_target = Returned st' →
  (priced self (path st) → priced self (path st'))
  ∧ (∀ sid, sid ∈ used_segments st' ↔ sid ∈ used_segments st ∨ sid ∈ best_path)
  ∧ last_node st' = best_target
  ∧ current_waypoint_idx st' = S (current_waypoint_idx st).
Proof.
  unfold advance. intros ([p used] & Hfold & H)%bind_returned.
  injection H as <-. simpl.
  by destruct (add_path_segments_priced _ _ _ _ Hfold).
Qed.

Lemma main_loop_priced set_iter fuel self points movement_type n st st' :
  main_loop set_iter fuel n self points movement_type st = Returned (Some st') →
  priced self (path st) → priced self (path st').
Proof.
  revert st. induction n as [|n IH]; simpl; intros st H.
  - by injection H as <-.
  - apply bind_returned in H as (leg & Hleg & H).
    destruct leg as [[best_path best_target]|]; [|done].
    apply bind_returned in H as (st1 & Hadv & H).
    intros Hp. apply (IH _ H). by apply (advance_used _ _ _ _ _ Hadv).
Qed.

Lemma main_loop_chain set_iter fuel self points movement_type n st st' :
  enumerates set_iter →
  main_loop set_iter fuel n self points movement_type st = Returned (Some st') →
  chain self (last_node st)
        (leg_paths set_iter fuel n self points movement_type st) (last_node st').
Proof.
  intros Hit. revert st. induction n as [|n IH]; simpl; intros st H.
  - injection H as <-. constructor.
  - apply bind_returned in H as (leg & Hleg & H). rewrite Hleg.
    destruct leg as [[best_path best_target]|]; [|done].
    apply bind_returned in H as (st1 & Hadv & H). rewrite Hadv.
    destruct (route_leg_walk _ _ _ _ _ _ _ _ Hit Hleg)
      as (w & targets & d & _ & _ & _ & Hwalk & _).
    destruct (advance_used _ _ _ _ _ Hadv) as (_ & _ & Hlast & _).
    econstructor; [exact Hwalk|]. rewrite <- Hlast. by apply IH.
Qed.

Lemma main_loop_fresh set_iter fuel self points movement_type n st st' :
  enumerates set_iter →
  main_loop set_iter fuel n self points movement_type st = Returned (Some st') →
  ∀ i leg sid,
    leg_paths set_iter fuel n self points movement_type st !! i = Some leg →
    sid ∈ leg →
    (sid ∉ used_segments st)
    ∧ ∀ j leg', j < i →
        leg_paths set_iter fuel n self points movement_type st !! j = Some leg' →
        sid ∉ leg'.
Proof.
  intros Hit. revert st. induction n as [|n IH]; simpl; intros st H.
  - by intros i leg sid Hi.
  - apply bind_returned in H as (leg0 & Hleg & H). rewrite Hleg.
    destruct leg0 as [[best_path best_target]|]; [|done].
    apply bind_returned in H as (st1 & Hadv & H). rewrite Hadv.
    destruct (route_leg_walk _ _ _ _ _ _ _ _ Hit Hleg)
      as (w & targets & d & _ & _ & _ & _ & Hfresh).
    destruct (advance_used _ _ _ _ _ Hadv) as (_ & Hused & _).
    rewrite Forall_forall in Hfresh.
    intros [|i] leg sid Hi Hsid; simpl in Hi.
    + injection Hi as <-. split; [by apply Hfresh|]. intros j leg' Hj. lia.
    + destruct (IH _ H _ _ _ Hi Hsid) as [Hnew Hearlier].
      rewrite Hused in Hnew. split; [tauto|].
      intros [|j] leg' Hj Hleg'; simpl in Hleg'.
      * injection Hleg' as <-. tauto.
      * apply (Hearlier j); [lia|done].
Qed.

Lemma initial_state_priced self points movement_type st0 :
  initial_state self points movement_type = Returned (Some st0) →
  priced self (path st0).
Proof.
  unfold initial_state. destruct points as [|first rest]; [done|].
  destruct (segments_by_name self !! first) as [l|] eqn:Hl; [|done]. simpl.
  destruct l as [|seg0 segs]; [done|].
  cbv beta iota.
  remember (seg0 :: segs) as first_segments eqn:Hfs.
  assert (Hseg0 : seg0 ∈ first_segments) by (subst; left).
  clear Hfs.
  destruct (choose_first _ _ _ _) as [chosen gate_node] eqn:Hc.
  assert (Hin : ∀ c, chosen = Some c → c.1 ∈ first_segments).
  { intros [seg node] ->. unfold choose_first in Hc.
    destruct movement_type.
    - injection Hc as Hc _. apply fmap_Some in Hc as (s & Hs & [= -> _]).
      apply find_some in Hs as [Hs _]. by apply list_elem_of_In.
    - injection Hc as Hc _.
      destruct (find_gate_node _ _ _) as [g|]; [|done].
      destruct (truthy g); [|done].
      apply fmap_Some in Hc as (s & Hs & [= -> _]).
      apply find_some in Hs as [Hs _]. by apply list_elem_of_In. }
  assert (Hfirst : (default (seg0, end_node seg0) chosen).1 ∈ first_segments).
  { destruct chosen as [c|]; [by apply Hin|done]. }
  destruct (default _ chosen) as [first_segment first_node].
  intros [= <-]. simpl in *.
  apply (add_segment_priced self TaxiPath_init first_segment).
  - exists []. split; [done|]. split; [constructor|done].
  - right. by exists first, first_segments.
Qed.

Lemma find_path_stages set_iter fuel self points movement_type p :
  (find_path set_iter fuel self points movement_type).1 = Returned (Some p) →
  validate self movement_type points = Returned true
  ∧ ∃ st0 st closing,
      initial_state self points movement_type = Returned (Some st0)
      ∧ main_loop set_iter fuel (List.length points - 1) self points
                  movement_type st0 = Returned (Some st)
      ∧ closing_segment self movement_type (default "" (last points))
                        (last_node st) = Returned closing
      ∧ p = match closing with
            | Some seg => add_segment (path st) (segment_id seg) (length seg)
            | None => path st
            end.
Proof.
  unfold find_path, validate_movement.
  destruct (validate self movement_type points) as [[]| |]; simpl; [|done..].
  unfold route. intros H. split; [done|].
  apply bind_returned in H as (st0 & Hinit & H).
  destruct st0 as [st0|]; [|done].
  apply bind_returned in H as (st & Hloop & H).
  destruct st as [st|]; [|done].
  apply bind_returned in H as (closing & Hclosing & H).
  exists st0, st, closing. split; [done|]. split; [done|]. split; [done|].
  by destruct closing; injection H as <-.
Qed.

(** X6. The distance of a returned path is what its segments add up to:
    the ids of the path are, in order, those of segments the airport
    holds, and [total_distance] is the sum of their lengths, added from
    the left starting at 0. *)
Theorem total_distance_is_sum set_iter fuel self points movement_type p :
  (find_path set_iter fuel self points movement_type).1 = Returned (Some p) →
  ∃ segs, segments p = segment_id <$> segs
          ∧ Forall (held self) segs
          ∧ total_distance p = summed segs.
Proof.
  intros (_ & st0 & st & closing & Hinit & Hloop & Hclosing & ->)%find_path_stages.
  assert (Hp : priced self (path st)).
  { apply (main_loop_priced _ _ _ _ _ _ _ _ Hloop).
    by apply (initial_state_priced _ _ _ _ Hinit). }
  destruct closing as [seg|]; [|done].
  apply add_segment_priced; [done|].
  unfold closing_segment in Hclosing.
  apply bind_returned in Hclosing as (node & _ & H).
  destruct node as [e|]; [|done]. destruct (truthy e); [|done].
  injection H as H. apply find_some in H as [H _].
  destruct (segments_by_name self !! default "" (last points)) as [l|] eqn:Hl;
    [|done].
  right. exists (default "" (last points)), l. split; [done|].
  by apply list_elem_of_In.
Qed.

(** X7. The legs of a returned path hang together: leg 0 starts at the
    node the loop starts from, every leg is a walk in the graph that
    starts where the leg before ended, and the last one ends at the
    node the loop ends at. *)
Theorem legs_form_chain set_iter fuel self points movement_type p :
  enumerates set_iter →
  (find_path set_iter fuel self points movement_type).1 = Returned (Some p) →
  ∃ st0 st,
    initial_state self points movement_type = Returned (Some st0)
    ∧ main_loop set_iter fuel (List.length points - 1) self points
                movement_type st0 = Returned (Some st)
    ∧ chain self (last_node st0)
            (leg_paths set_iter fuel (List.length points - 1) self points
                       movement_type st0)
            (last_node st).
Proof.
  intros Hit (_ & st0 & st & closing & Hinit & Hloop & _)%find_path_stages.
  exists st0, st. split; [done|]. split; [done|]. by apply main_loop_chain.
Qed.

(** X8. No leg of a returned path reuses a segment: a segment of a leg is
    neither in [used_segments] as the loop starts (the first segment,
    when it was marked) nor in an earlier leg. *)
Theorem legs_never_reuse set_iter fuel self points movement_type p :
  enumerates set_iter →
  (find_path set_iter fuel self points movement_type).1 = Returned (Some p) →
  ∃ st0,
    initial_state self points movement_type = Returned (Some st0)
    ∧ let legs := leg_paths set_iter fuel (List.length points - 1) self points
                            movement_type st0 in
      ∀ i leg sid, legs !! i = Some leg → sid ∈ leg →
        (sid ∉ used_segments st0)
        ∧ ∀ j leg', j < i → legs !! j = Some leg' → sid ∉ leg'.
Proof.
  intros Hit (_ & st0 & st & closing & Hinit & Hloop & _)%find_path_stages.
  exists st0. split; [done|]. by apply (main_loop_fresh _ _ _ _ _ _ _ _ Hit Hloop).
Qed.

Lemma main_loop_leg_at set_iter fuel self points movement_type n st st' i :
  main_loop set_iter fuel n self points movement_type st = Returned (Some st') →
  current_waypoint_idx st ≤ i < current_waypoint_idx st + n →
  ∃ st_i best_path best_target,
    current_waypoint_idx st_i = i
    ∧ route_leg set_iter fuel self points movement_type st_i
      = Returned (Some (best_path, best_target))
    ∧ (i = current_waypoint_idx st + n - 1 → best_target = last_node st').
Proof.
  revert st. induction n as [|n IH]; simpl; intros st H Hi; [lia|].
  apply bind_returned in H as (leg & Hleg & H).
  destruct leg as [[best_path best_target]|]; [|done].
  apply bind_returned in H as (st1 & Hadv & H).
  destruct (advance_used _ _ _ _ _ Hadv) as (_ & _ & Hlast & Hidx).
  destruct (decide (i = current_waypoint_idx st)) as [->|Hne].
  - exists st, best_path, best_target. split; [done|]. split; [done|].
    intros Hn. assert (n = 0) as -> by lia. simpl in H. by injection H as <-.
  - destruct (IH st1 H) as (st_i & bp & bt & Hi' & Hleg' & Hend); [lia|].
    exists st_i, bp, bt. split; [done|]. split; [done|].
    intros Hn. apply Hend. lia.
Qed.

Lemma waypoint_nodes_unknown self w :
  default [] (segments_by_name self !! w) = [] → waypoint_nodes self w = ∅.
Proof. unfold waypoint_nodes. by intros ->. Qed.

Lemma validate_length self movement_type points :
  validate self movement_type points = Returned true → 2 ≤ List.length points.
Proof. destruct points as [|? [|? ?]]; [done..|]. simpl. lia. Qed.

(** X9. A waypoint that names no loaded segment, and that the
    configuration does not pin (it is not the first name of an arrival
    nor the last name of a departure), makes the request fail:
    [find_path] returns no path for it, whatever the other waypoints. *)
Theorem unknown_waypoint_no_path set_iter fuel self points movement_type w p :
  enumerates set_iter →
  w ∈ points →
  default [] (segments_by_name self !! w) = [] →
  unpinned movement_type points w →
  (find_path set_iter fuel self points movement_type).1 ≠ Returned (Some p).
Proof.
  intros Hit Hw Hnone Hfree
    (Hvalid & st0 & st & closing & Hinit & Hloop & _)%find_path_stages.
  apply validate_length in Hvalid.
  apply list_elem_of_lookup in Hw as [[|i] Hi].
  - unfold initial_state in Hinit. destruct points as [|first rest]; [done|].
    injection Hi as ->. by rewrite Hnone in Hinit.
  - destruct (RouterFacts.initial_state_spec _ _ _ _ Hinit) as [Hidx _].
    apply lookup_lt_Some in Hi as Hlt.
    destruct (main_loop_leg_at _ _ _ _ _ _ _ _ i Hloop)
      as (st_i & bp & bt & Hidx' & Hleg & _); [lia|].
    destruct (route_leg_walk _ _ _ _ _ _ _ _ Hit Hleg)
      as (w' & targets & d & Hw' & Htargets & Hin & _).
    rewrite Hidx', Hi in Hw'. injection Hw' as <-.
    unfold get_segment_nodes in Htargets.
    assert (Hpin : bool_decide (movement_type = ARRIVAL)
                   && bool_decide (head points = Some w) = false
                   ∧ bool_decide (movement_type = DEPARTURE)
                     && bool_decide (last points = Some w) = false).
    { destruct movement_type; simpl in *; by rewrite bool_decide_eq_false_2. }
    destruct Hpin as [Hpin1 Hpin2]. rewrite Hpin1, Hpin2 in Htargets.
    simpl in Htargets. injection Htargets as <-.
    rewrite waypoint_nodes_unknown in Hin by done.
    by apply elem_of_empty in Hin.
Qed.

Lemma validate_departure self points :
  validate self DEPARTURE points = Returned true →
  ∃ w e, last points = Some w
         ∧ closing_node self DEPARTURE w = Returned (Some e).
Proof.
  destruct points as [|first [|second rest]]; [done..|].
  pose proof (last_cons_default first (second :: rest) first) as Hlast.
  unfold validate, closing_node.
  remember (first :: second :: rest) as points eqn:Hpoints.
  destruct (gate_found self first); [|done].
  destruct (runway_config self) as [rc| |]; simpl; [|done..].
  destruct (find_point _ _) as [[e|]| |] eqn:He; simpl; [|done..].
  intros _. exists (List.last points first), e. split; [done|].
  by rewrite He.
Qed.

(** X10. A departure that returns a path ends its last leg at the node
    the active runway configuration lists for the entrance, the last
    name of the request. *)
Theorem departure_reaches_entrance set_iter fuel self points p :
  enumerates set_iter →
  (find_path set_iter fuel self points DEPARTURE).1 = Returned (Some p) →
  ∃ st0 st entrance entrance_node,
    initial_state self points DEPARTURE = Returned (Some st0)
    ∧ main_loop set_iter fuel (List.length points - 1) self points
                DEPARTURE st0 = Returned (Some st)
    ∧ last points = Some entrance
    ∧ closing_node self DEPARTURE entrance = Returned (Some entrance_node)
    ∧ last_node st = entrance_node.
Proof.
  intros Hit (Hvalid & st0 & st & closing & Hinit & Hloop & _)%find_path_stages.
  destruct (validate_departure _ _ Hvalid) as (w & e & Hlast & Hnode).
  apply validate_length in Hvalid.
  exists st0, st, w, e. split; [done|]. split; [done|]. split; [done|].
  split; [done|].
  destruct (RouterFacts.initial_state_spec _ _ _ _ Hinit) as [Hidx _].
  destruct (main_loop_leg_at _ _ _ _ _ _ _ _ (List.length points - 2) Hloop)
    as (st_i & bp & bt & Hidx' & Hleg & Hend); [lia|].
  rewrite <- Hend by lia.
  destruct (route_leg_walk _ _ _ _ _ _ _ _ Hit Hleg)
    as (w' & targets & d & Hw' & Htargets & Hin & _).
  rewrite last_lookup in Hlast.
  replace (S (current_waypoint_idx st_i)) with (pred (List.length points))
    in Hw' by lia.
  rewrite Hlast in Hw'. injection Hw' as <-.
  unfold get_segment_nodes in Htargets. rewrite <- last_lookup in Hlast.
  rewrite (bool_decide_eq_true_2 (last points = Some w)) in Htargets by done.
  simpl in Htargets. unfold closing_node in Hnode. rewrite Hnode in Htargets.
  simpl in Htargets. injection Htargets as <-.
  by apply elem_of_singleton in Hin.
Qed.

Lemma add_path_segments_waypoints self best_path acc acc' :
  foldl_outcome (add_path_segment self) acc best_path = Returned acc' →
  waypoints acc'.1 = waypoints acc.1.
Proof.
  revert acc. induction best_path as [|sid l IH]; simpl; intros acc H.
  - by injection H as <-.
  - apply bind_returned in H as (a1 & H1 & H). rewrite (IH _ H).
    unfold add_path_segment in H1.
    apply bind_returned in H1 as (seg & _ & H1). by injection H1 as <-.
Qed.

Lemma main_loop_waypoints set_iter fuel self points movement_type n st st' :
  main_loop set_iter fuel n self points movement_type st = Returned (Some st') →
  waypoints (path st') = waypoints (path st).
Proof.
  revert st. induction n as [|n IH]; simpl; intros st H.
  - by injection H as <-.
  - apply bind_returned in H as (leg & Hleg & H).
    destruct leg as [[best_path best_target]|]; [|done].
    apply bind_returned in H as (st1 & Hadv & H). rewrite (IH _ H).
    unfold advance in Hadv.
    apply bind_returned in Hadv as ([p used] & Hfold & [= <-]). simpl.
    by apply add_path_segments_waypoints in Hfold.
Qed.

Lemma initial_state_waypoints self points movement_type st0 :
  initial_state self points movement_type = Returned (Some st0) →
  waypoints (path st0) = [].
Proof.
  unfold initial_state. destruct points as [|first rest]; [done|].
  destruct (default [] _) as [|seg0 segs]; [done|].
  destruct (choose_first _ _ _ _) as [chosen gate_node].
  destruct (default _ chosen) as [first_segment first_node].
  intros H. by injection H as <-.
Qed.

Lemma initial_state_first self points movement_type st0 :
  initial_state self points movement_type = Returned (Some st0) →
  ∃ first seg,
    head points = Some first
    ∧ seg ∈ default [] (segments_by_name self !! first)
    ∧ segments (path st0) = [segment_id seg].
Proof.
  unfold initial_state. destruct points as [|first rest]; [done|].
  destruct (default [] (segments_by_name self !! first)) as [|seg0 segs] eqn:Hl;
    [done|].
  cbv beta iota.
  remember (seg0 :: segs) as first_segments eqn:Hfs.
  assert (Hseg0 : seg0 ∈ first_segments) by (subst; left).
  clear Hfs.
  destruct (choose_first _ _ _ _) as [chosen gate_node] eqn:Hc.
  assert (Hin : ∀ c, chosen = Some c → c.1 ∈ first_segments).
  { intros [seg node] ->. unfold choose_first in Hc.
    destruct movement_type.
    - injection Hc as Hc _. apply fmap_Some in Hc as (s & Hs & [= -> _]).
      apply find_some in Hs as [Hs _]. by apply list_elem_of_In.
    - injection Hc as Hc _.
      destruct (find_gate_node _ _ _) as [g|]; [|done].
      destruct (truthy g); [|done].
      apply fmap_Some in Hc as (s & Hs & [= -> _]).
      apply find_some in Hs as [Hs _]. by apply list_elem_of_In. }
  assert (Hfirst : (default (seg0, end_node seg0) chosen).1 ∈ first_segments).
  { destruct chosen as [c|]; [by apply Hin|done]. }
  destruct (default _ chosen) as [first_segment first_node].
  intros [= <-]. simpl in *. exists first, first_segment.
  split; [done|]. split; [|done]. by rewrite Hl.
Qed.

Lemma closing_segment_listed self movement_type last_point last_node seg :
  closing_segment self movement_type last_point last_node = Returned (Some seg) →
  seg ∈ default [] (segments_by_name self !! last_point).
Proof.
  unfold closing_segment. intros (node & _ & H)%bind_returned.
  destruct node as [e|]; [|done]. destruct (truthy e); [|done].
  injection H as H. apply find_some in H as [H _]. by apply list_elem_of_In.
Qed.

Lemma loaded_by_name cfg data airport_cfg n seg :
  let self := _load_data cfg data airport_cfg in
  seg ∈ default [] (segments_by_name self !! n) →
  seg ∈ all_segments self ∧ name seg = n.
Proof.
  simpl. rewrite RouterFacts.load_data_fields. simpl.
  assert (H : by_name_ok (foldl process_feature (∅, []) data)).
  { apply RouterFacts.load_by_name. intros k. simpl. by rewrite lookup_empty. }
  rewrite (H n).
  destruct (filter _ _) as [|s l] eqn:E; [by intros ?%elem_of_nil|].
  simpl. rewrite <- E. by intros [? ?]%list_elem_of_filter.
Qed.

Lemma path_within_request_loaded set_iter fuel cfg data airport_cfg points
    movement_type p :
  (find_path set_iter fuel (_load_data cfg data airport_cfg) points
             movement_type).1 = Returned (Some p) →
  ∀ sid, sid ∈ segments p →
    ∃ seg, seg ∈ all_segments (_load_data cfg data airport_cfg)
           ∧ segment_id seg = sid ∧ name seg ∈ points.
Proof.
  set (self := _load_data cfg data airport_cfg).
  intros (Hvalid & st0 & st & closing & Hinit & Hloop & Hclosing & ->)%find_path_stages.
  apply validate_length in Hvalid.
  destruct (initial_state_first _ _ _ _ Hinit) as (first & seg0 & Hhead & Hseg0 & Hp0).
  destruct (RouterFacts.initial_state_spec _ _ _ _ Hinit) as [Hidx _].
  destruct (RouterFacts.main_loop_legs _ _ _ _ _ _ _ _ Hloop)
    as (Hsegs & _ & Hlegs).
  assert (Hloop_ok : ∀ sid, sid ∈ segments (path st) →
            ∃ seg, seg ∈ all_segments self ∧ segment_id seg = sid
                   ∧ name seg ∈ points).
  { intros sid. rewrite Hsegs, Hp0.
    intros [Hsid%list_elem_of_singleton|Hin]%elem_of_app.
    - subst sid.
      apply (loaded_by_name cfg data airport_cfg) in Hseg0 as [Hall Hname].
      exists seg0. split; [done|]. split; [done|]. rewrite Hname.
      destruct points; [done|]. injection Hhead as ->. left.
    - apply list_elem_of_In, in_concat in Hin as (leg & Hleg & Hsid).
      apply list_elem_of_In in Hleg, Hsid.
      apply list_elem_of_lookup in Hleg as [i Hi].
      destruct (Hlegs _ _ Hi) as (w_i & w_j & Hwi & Hwj & Hall).
      destruct (Hall _ Hsid) as (seg & Hseg & Hname).
      apply segment_by_id_held in Hseg as [Hin' Hid].
      exists seg. split; [done|]. split; [done|].
      destruct Hname as [-> | ->]; by eapply list_elem_of_lookup_2. }
  destruct closing as [seg|]; [|done]. simpl. intros sid.
  intros [Hin|Hsid%list_elem_of_singleton]%elem_of_app; [by apply Hloop_ok|].
  subst sid.
  apply closing_segment_listed in Hclosing.
  apply (loaded_by_name cfg data airport_cfg) in Hclosing as [Hall Hname].
  exists seg. split; [done|]. split; [done|]. rewrite Hname.
  destruct (last points) as [w|] eqn:Hlast; simpl.
  - apply last_Some in Hlast as [l ->]. apply elem_of_app. right. left.
  - apply last_None in Hlast. subst. simpl in Hvalid. lia.
Qed.

(** X11. The route stays on the taxiways of the request: on an airport
    loaded from a network file, every segment id of a path [find_path]
    returns (the first segment, the legs and the closing segment) is
    the id of a loaded segment named after one of the waypoints. *)
Theorem path_within_request set_iter fuel cfg data airport_cfg points
    movement_type p :
  (find_path set_iter fuel (_load_data cfg data airport_cfg) points
             movement_type).1 = Returned (Some p) →
  ∀ sid, sid ∈ segments p →
    ∃ seg, seg ∈ all_segments (_load_data cfg data airport_cfg)
           ∧ segment_id seg = sid ∧ name seg ∈ points.
Proof. apply path_within_request_loaded. Qed.

(** X12. [find_path] records no waypoint: the [waypoints] of a path it
    returns are empty; the nodes the legs end at are not kept. *)
Theorem waypoints_stay_empty set_iter fuel self points movement_type p :
  (find_path set_iter fuel self points movement_type).1 = Returned (Some p) →
  waypoints p = [].
Proof.
  intros (_ & st0 & st & closing & Hinit & Hloop & _ & ->)%find_path_stages.
  apply initial_state_waypoints in Hinit.
  apply main_loop_waypoints in Hloop.
  destruct closing; simpl; congruence.
Qed.

(** *** The theorems at work on the examples *)

Lemma validate_accepts_witness :
  readable Examples.far_end
  ∧ ∃ b, (validate_movement Examples.far_end DEPARTURE Examples.request).1
         = Returned b
         ∧ (b = true ↔ accepted Examples.far_end DEPARTURE Examples.request).
Proof.
  assert (H : readable Examples.far_end).
  { eexists. split; [reflexivity|]. split; repeat constructor. }
  split; [exact H|]. exact (validate_accepts _ DEPARTURE Examples.request H).
Defined.

Lemma search_rows_are_routes_witness :
  ∃ distances,
    dijkstra_multi_target 100 Examples.far_end ["N0"] {["N3"]} None None
    = Returned distances
    ∧ (is_Some (distances !! "N3") ↔ is_Some (graph Examples.far_end !! "N3"))
    ∧ ∀ row, distances !! "N3" = Some row →
        row_ok Examples.far_end ["N0"] ∅ None "N3" row.
Proof.
  destruct (dijkstra_multi_target 100 Examples.far_end ["N0"] {["N3"]} None None)
    as [distances|e|] eqn:H.
  - exists distances. split; [reflexivity|].
    exact (search_rows_are_routes _ _ _ _ _ _ _ "N3" H).
  - exfalso. vm_compute in H. discriminate H.
  - exfalso. vm_compute in H. discriminate H.
Defined.

Lemma leg_is_route_witness :
  enumerates Examples.ascending
  ∧ route_leg Examples.ascending 100 Examples.far_end Examples.request
              DEPARTURE Examples.at_gate
    = Returned (Some (["S0"], "N1"))
  ∧ ∃ next_waypoint targets d,
      Examples.request !! 1 = Some next_waypoint
      ∧ get_segment_nodes Examples.far_end Examples.request DEPARTURE
                          next_waypoint None = Returned targets
      ∧ "N1" ∈ targets
      ∧ walk Examples.far_end "N0" ["S0"] d "N1"
      ∧ Forall (λ sid, sid ∉ (∅ : gset string)) ["S0"].
Proof.
  assert (Hit : enumerates Examples.ascending) by (by intros s).
  assert (H : route_leg Examples.ascending 100 Examples.far_end Examples.request
                        DEPARTURE Examples.at_gate
              = Returned (Some (["S0"], "N1"))) by (vm_compute; reflexivity).
  split; [exact Hit|]. split; [exact H|].
  exact (leg_is_route _ _ _ _ _ _ _ _ Hit H).
Defined.

Lemma total_distance_is_sum_witness :
  (find_path Examples.ascending 100 Examples.far_end Examples.request DEPARTURE).1
  = Returned (Some Examples.far_end_path)
  ∧ ∃ segs, segments Examples.far_end_path = segment_id <$> segs
            ∧ Forall (held Examples.far_end) segs
            ∧ total_distance Examples.far_end_path = summed segs.
Proof.
  assert (H : (find_path Examples.ascending 100 Examples.far_end
                         Examples.request DEPARTURE).1
              = Returned (Some Examples.far_end_path))
    by (vm_compute; reflexivity).
  split; [exact H|]. exact (total_distance_is_sum _ _ _ _ _ _ H).
Defined.

Lemma legs_form_chain_witness :
  enumerates Examples.ascending
  ∧ (find_path Examples.ascending 100 Examples.far_end Examples.request
               DEPARTURE).1
    = Returned (Some Examples.far_end_path)
  ∧ ∃ st0 st,
      initial_state Examples.far_end Examples.request DEPARTURE
      = Returned (Some st0)
      ∧ main_loop Examples.ascending 100 2 Examples.far_end Examples.request
                  DEPARTURE st0 = Returned (Some st)
      ∧ chain Examples.far_end (last_node st0)
              (leg_paths Examples.ascending 100 2 Examples.far_end
                         Examples.request DEPARTURE st0)
              (last_node st).
Proof.
  assert (Hit : enumerates Examples.ascending) by (by intros s).
  assert (H : (find_path Examples.ascending 100 Examples.far_end
                         Examples.request DEPARTURE).1
              = Returned (Some Examples.far_end_path))
    by (vm_compute; reflexivity).
  split; [exact Hit|]. split; [exact H|].
  exact (legs_form_chain _ _ _ _ _ _ Hit H).
Defined.

Lemma legs_never_reuse_witness :
  enumerates Examples.ascending
  ∧ (find_path Examples.ascending 100 Examples.far_end Examples.request
               DEPARTURE).1
    = Returned (Some Examples.far_end_path)
  ∧ ∃ st0,
      initial_state Examples.far_end Examples.request DEPARTURE
      = Returned (Some st0)
      ∧ ∀ i leg sid,
          leg_paths Examples.ascending 100 2 Examples.far_end Examples.request
                    DEPARTURE st0 !! i = Some leg →
          sid ∈ leg →
          (sid ∉ used_segments st0)
          ∧ ∀ j leg', j < i →
              leg_paths Examples.ascending 100 2 Examples.far_end
                        Examples.request DEPARTURE st0 !! j = Some leg' →
              sid ∉ leg'.
Proof.
  assert (Hit : enumerates Examples.ascending) by (by intros s).
  assert (H : (find_path Examples.ascending 100 Examples.far_end
                         Examples.request DEPARTURE).1
              = Returned (Some Examples.far_end_path))
    by (vm_compute; reflexivity).
  split; [exact Hit|]. split; [exact H|].
  exact (legs_never_reuse _ _ _ _ _ _ Hit H).
Defined.

Lemma unknown_waypoint_no_path_witness :
  enumerates Examples.ascending
  ∧ "X9" ∈ ["K24"; "X9"; "W37"]
  ∧ default [] (segments_by_name Examples.far_end !! "X9") = []
  ∧ unpinned DEPARTURE ["K24"; "X9"; "W37"] "X9"
  ∧ (find_path Examples.ascending 100 Examples.far_end ["K24"; "X9"; "W37"]
               DEPARTURE).1
    ≠ Returned (Some Examples.far_end_path).
Proof.
  assert (Hit : enumerates Examples.ascending) by (by intros s).
  assert (Hin : "X9" ∈ ["K24"; "X9"; "W37"]) by (right; left).
  assert (Hnone : default [] (segments_by_name Examples.far_end !! "X9") = [])
    by (vm_compute; reflexivity).
  assert (Hfree : unpinned DEPARTURE ["K24"; "X9"; "W37"] "X9")
    by (simpl; discriminate).
  split; [exact Hit|]. split; [exact Hin|]. split; [exact Hnone|].
  split; [exact Hfree|].
  exact (unknown_waypoint_no_path _ 100 _ _ _ _ Examples.far_end_path
           Hit Hin Hnone Hfree).
Defined.

Lemma path_within_request_witness :
  (find_path Examples.ascending 100 Examples.far_end Examples.request DEPARTURE).1
  = Returned (Some Examples.far_end_path)
  ∧ ∀ sid, sid ∈ segments Examples.far_end_path →
      ∃ seg, seg ∈ all_segments Examples.far_end
             ∧ segment_id seg = sid ∧ name seg ∈ Examples.request.
Proof.
  assert (H : (find_path Examples.ascending 100 Examples.far_end
                         Examples.request DEPARTURE).1
              = Returned (Some Examples.far_end_path))
    by (vm_compute; reflexivity).
  split; [exact H|].
  exact (path_within_request Examples.ascending 100 _ _ _ _ _ _ H).
Defined.

Lemma waypoints_stay_empty_witness :
  (find_path Examples.ascending 100 Examples.far_end Examples.request DEPARTURE).1
  = Returned (Some Examples.far_end_path)
  ∧ waypoints Examples.far_end_path = [].
Proof.
  assert (H : (find_path Examples.ascending 100 Examples.far_end
                         Examples.request DEPARTURE).1
              = Returned (Some Examples.far_end_path))
    by (vm_compute; reflexivity).
  split; [exact H|]. exact (waypoints_stay_empty _ _ _ _ _ _ H).
Defined.

Lemma departure_reaches_entrance_witness :
  enumerates Examples.ascending
  ∧ (find_path Examples.ascending 100 Examples.far_end Examples.request
               DEPARTURE).1
    = Returned (Some Examples.far_end_path)
  ∧ ∃ st0 st entrance entrance_node,
      initial_state Examples.far_end Examples.request DEPARTURE
      = Returned (Some st0)
      ∧ main_loop Examples.ascending 100 2 Examples.far_end Examples.request
                  DEPARTURE st0 = Returned (Some st)
      ∧ last Examples.request = Some entrance
      ∧ closing_node Examples.far_end DEPARTURE entrance
        = Returned (Some entrance_node)
      ∧ last_node st = entrance_node.
Proof.
  assert (Hit : enumerates Examples.ascending) by (by intros s).
  assert (H : (find_path Examples.ascending 100 Examples.far_end
                         Examples.request DEPARTURE).1
              = Returned (Some Examples.far_end_path))
    by (vm_compute; reflexivity).
  split; [exact Hit|]. split; [exact H|].
  exact (departure_reaches_entrance _ _ _ _ _ Hit H).
Defined.

End RoutingFacts.

Module PipelineFacts.
Import Process Pipeline.

(** *** The network file *)

Lemma segment_feature_loaded (s : Segment) :
  Pathfinder.segment_of_feature (segment_feature s)
  = if truthy (name s) then Some (taxi_segment s) else None.
Proof. unfold segment_feature. simpl. by destruct (truthy (name s)). Qed.

Lemma node_features_dropped (ns : list (string * Node)) :
  omap Pathfinder.segment_of_feature (node_feature ∘ snd <$> ns) = [].
Proof. induction ns as [|n ns IH]; [done|]. simpl. exact IH. Qed.

Lemma segment_features_kept (ss : list (string * Segment)) :
  omap Pathfinder.segment_of_feature (segment_feature ∘ snd <$> ss)
  = taxi_segment <$> filter (λ s, name s ≠ "") (snd <$> ss).
Proof.
  induction ss as [|[k s] ss IH]; [done|].
  rewrite !fmap_cons.
  change (omap Pathfinder.segment_of_feature
            ((segment_feature ∘ snd) (k, s) :: (segment_feature ∘ snd <$> ss)))
    with (match Pathfinder.segment_of_feature (segment_feature s) with
          | Some t => t :: omap Pathfinder.segment_of_feature
                             (segment_feature ∘ snd <$> ss)
          | None => omap Pathfinder.segment_of_feature
                         (segment_feature ∘ snd <$> ss)
          end).
  rewrite segment_feature_loaded, IH, filter_cons. unfold truthy. simpl.
  destruct (String.eqb_spec (name s) "") as [He|Hne]; simpl.
  - by rewrite decide_False by (by intros H).
  - by rewrite decide_True by done.
Qed.

Lemma exported_segments_spec (p : AirportProcessor) (airport_config : string) :
  Pathfinder.all_segments (router_of p airport_config)
  = taxi_segment <$> filter (λ s, name s ≠ "") (snd <$> segments p).
Proof.
  unfold router_of. rewrite RouterFacts.load_data_fields. simpl.
  rewrite RouterFacts.load_all. simpl. unfold export_network.
  rewrite omap_app, node_features_dropped, app_nil_r.
  apply segment_features_kept.
Qed.

(** X13. A router started on the files of a processor holds exactly the
    named segments of the processor, in their order, each with its id,
    name, end nodes, length and type; the unnamed segments and the
    node features leave nothing. *)
Theorem exported_segments_loaded (p : AirportProcessor) (airport_config : string) :
  Pathfinder.all_segments (router_of p airport_config)
  = taxi_segment <$> filter (λ s, name s ≠ "") (snd <$> segments p).
Proof. apply exported_segments_spec. Qed.

(** *** The configuration file *)

Lemma dict_get_elem {V} (d : list (string * V)) k v :
  dict_get d k = Some v → (k, v) ∈ d.
Proof.
  induction d as [|[k' v'] d IH]; simpl; [done|].
  destruct (decide (k = k')) as [->|Hne].
  - intros [= ->]. left.
  - intros H. right. by apply IH.
Qed.

Lemma elem_dict_get {V} (d : list (string * V)) k v :
  NoDup d.*1 → (k, v) ∈ d → dict_get d k = Some v.
Proof.
  induction d as [|[k' v'] d IH]; simpl; [by intros _ H%elem_of_nil|].
  intros [Hk Hd]%NoDup_cons [[= -> ->]|Hin]%elem_of_cons.
  - by rewrite decide_True.
  - destruct (decide (k = k')) as [->|Hne]; [|by apply IH].
    exfalso. apply Hk. apply list_elem_of_fmap. by exists (k', v).
Qed.

Lemma dict_set_keys {V} (d : list (string * V)) k v :
  (dict_set d k v).*1 = if decide (k ∈ d.*1) then d.*1 else d.*1 ++ [k].
Proof.
  induction d as [|[k' v'] d IH].
  - destruct (decide (k ∈ ([] : list (string * V)).*1)) as [Hin|Hout];
      [by apply elem_of_nil in Hin|done].
  - simpl dict_set. rewrite (fmap_cons fst (k', v') d).
    destruct (decide (k = k')) as [->|Hne].
    + rewrite fmap_cons. simpl.
      destruct (decide (k' ∈ k' :: d.*1)) as [Hin|Hout]; [done|].
      exfalso. apply Hout. left.
    + rewrite fmap_cons, IH. simpl.
      destruct (decide (k ∈ d.*1)) as [Hin|Hout];
        destruct (decide (k ∈ k' :: d.*1)) as [Hin'|Hout']; try done.
      * exfalso. apply Hout'. by right.
      * apply elem_of_cons in Hin' as [?|?]; done.
Qed.

Lemma dict_set_NoDup {V} (d : list (string * V)) k v :
  NoDup d.*1 → NoDup (dict_set d k v).*1.
Proof.
  intros Hd. rewrite dict_set_keys. destruct (decide (k ∈ d.*1)); [done|].
  apply NoDup_app. split; [done|]. split.
  - intros x Hx [->|?%elem_of_nil]%elem_of_cons; done.
  - apply NoDup_singleton.
Qed.

Lemma gates_of_terminal_snoc gates entry tid :
  gates_of_terminal (gates ++ [entry]) tid
  = gates_of_terminal gates tid
    ++ if decide (terminal_id entry.1 = tid)
       then [gate_entry entry.1 entry.2] else [].
Proof.
  unfold gates_of_terminal. rewrite filter_app, fmap_app. f_equal.
  rewrite filter_cons, filter_nil. by destruct (decide _).
Qed.

Lemma group_gates_snoc gates entry :
  group_gates (gates ++ [entry])
  = dict_set (group_gates gates) (terminal_id entry.1)
      (default [] (dict_get (group_gates gates) (terminal_id entry.1))
       ++ [gate_entry entry.1 entry.2]).
Proof. unfold group_gates. by rewrite foldl_snoc. Qed.

Lemma group_gates_lookup gates tid :
  dict_get (group_gates gates) tid
  = match gates_of_terminal gates tid with
    | [] => None
    | l => Some l
    end.
Proof.
  induction gates as [|entry gates IH] using rev_ind; [done|].
  rewrite group_gates_snoc, gates_of_terminal_snoc.
  destruct (decide (terminal_id entry.1 = tid)) as [<-|Hne].
  - rewrite ProcessFacts.dict_get_set_eq, IH.
    by destruct (gates_of_terminal gates (terminal_id entry.1)).
  - rewrite ProcessFacts.dict_get_set_ne, IH, app_nil_r by done. done.
Qed.

Lemma group_gates_NoDup gates : NoDup (group_gates gates).*1.
Proof.
  induction gates as [|entry gates IH] using rev_ind; [constructor|].
  rewrite group_gates_snoc. by apply dict_set_NoDup.
Qed.

Lemma insert_gate_perm g l : insert_gate g l ≡ₚ g :: l.
Proof.
  induction l as [|h l IH]; simpl; [done|].
  destruct (String.ltb _ _); [|done]. rewrite IH. apply Permutation_swap.
Qed.

Lemma sorted_gates_perm l : sorted_gates l ≡ₚ l.
Proof.
  induction l as [|g l IH]; simpl; [done|].
  change (insert_gate g (sorted_gates l) ≡ₚ g :: l).
  by rewrite insert_gate_perm, IH.
Qed.

Lemma sorted_gates_elem g l : g ∈ sorted_gates l ↔ g ∈ l.
Proof. by rewrite sorted_gates_perm. Qed.

Lemma ltb_leb (a b : string) : String.ltb a b = true → String.leb a b = true.
Proof. unfold String.ltb, String.leb. by destruct (String.compare a b). Qed.

Lemma not_ltb_leb (a b : string) : String.ltb a b = false → String.leb b a = true.
Proof.
  unfold String.ltb, String.leb. rewrite (String.compare_antisym a b).
  by destruct (String.compare b a).
Qed.

Lemma insert_gate_sorted g l :
  Sorted gate_le l → Sorted gate_le (insert_gate g l).
Proof.
  induction 1 as [|h l Hl IH Hh]; simpl.
  - by repeat constructor.
  - destruct (String.ltb (Config.gate_id h) (Config.gate_id g)) eqn:Hlt.
    + constructor; [done|].
      destruct l as [|h' l]; simpl in *.
      * constructor. by apply ltb_leb.
      * destruct (String.ltb (Config.gate_id h') (Config.gate_id g)).
        -- constructor. by inversion Hh.
        -- constructor. by apply ltb_leb.
    + constructor; [by constructor|]. constructor. by apply not_ltb_leb.
Qed.

Lemma sorted_gates_sorted l : Sorted gate_le (sorted_gates l).
Proof.
  induction l as [|g l IH]; [constructor|].
  change (Sorted gate_le (insert_gate g (sorted_gates l))).
  by apply insert_gate_sorted.
Qed.

Lemma dict_get_fmap {V W} (f : V → W) (d : list (string * V)) k :
  dict_get ((λ entry : string * V, (entry.1, f entry.2)) <$> d) k
  = f <$> dict_get d k.
Proof.
  induction d as [|[k' v] d IH]; [done|]. rewrite fmap_cons. simpl.
  by destruct (decide (k = k')).
Qed.

Lemma exported_terminal_lookup p tid :
  dict_get (Config.terminals (export_config p)) tid
  = match gates_of_terminal (gates p) tid with
    | [] => None
    | l => Some {| Config.gates := sorted_gates l |}
    end.
Proof.
  unfold export_config. simpl.
  rewrite (dict_get_fmap (λ l, {| Config.gates := sorted_gates l |})).
  rewrite group_gates_lookup. by destruct (gates_of_terminal (gates p) tid).
Qed.

Lemma exported_terminal_keys p :
  (Config.terminals (export_config p)).*1 = (group_gates (gates p)).*1.
Proof.
  unfold export_config. simpl. rewrite <- list_fmap_compose.
  by apply list_fmap_ext.
Qed.

Lemma exported_terminal_elem p tid t :
  (tid, t) ∈ Config.terminals (export_config p) →
  gates_of_terminal (gates p) tid ≠ []
  ∧ t = {| Config.gates := sorted_gates (gates_of_terminal (gates p) tid) |}.
Proof.
  intros Hin. apply elem_dict_get in Hin.
  - rewrite exported_terminal_lookup in Hin.
    destruct (gates_of_terminal (gates p) tid) as [|g l]; [done|].
    by injection Hin as <-.
  - rewrite exported_terminal_keys. apply group_gates_NoDup.
Qed.

Lemma exported_terminals_spec (p : AirportProcessor) :
  NoDup (Config.terminals (export_config p)).*1
  ∧ (∀ tid t, (tid, t) ∈ Config.terminals (export_config p) →
       Config.gates t ≠ []
       ∧ Sorted gate_le (Config.gates t)
       ∧ Config.gates t ≡ₚ gates_of_terminal (gates p) tid)
  ∧ (∀ entry, entry ∈ gates p →
       ∃ t, (terminal_id entry.1, t) ∈ Config.terminals (export_config p)
            ∧ gate_entry entry.1 entry.2 ∈ Config.gates t).
Proof.
  split; [|split].
  - rewrite exported_terminal_keys. apply group_gates_NoDup.
  - intros tid t (Hne & ->)%exported_terminal_elem. simpl. split; [|split].
    + intros Hnil. apply Hne. apply Permutation_nil.
      by rewrite <- Hnil, sorted_gates_perm.
    + apply sorted_gates_sorted.
    + apply sorted_gates_perm.
  - intros entry Hentry.
    assert (Hin : gate_entry entry.1 entry.2
                  ∈ gates_of_terminal (gates p) (terminal_id entry.1)).
    { unfold gates_of_terminal. apply list_elem_of_fmap. exists entry.
      split; [done|]. by apply list_elem_of_filter. }
    pose proof (exported_terminal_lookup p (terminal_id entry.1)) as Hget.
    destruct (gates_of_terminal (gates p) (terminal_id entry.1)) as [|g l] eqn:E;
      [by apply elem_of_nil in Hin|].
    eexists. split; [by apply dict_get_elem|].
    by apply (proj2 (sorted_gates_elem _ _)).
Qed.



(** The id [K²4], its middle character the superscript two: Python
    counts it a digit, and the terminal is [K]. *)
Lemma superscript_is_a_digit :
  terminal_id ("K" +:+ String (Ascii.ascii_of_nat 178) "4") = "K"
  ∧ without_digits ("K" +:+ String (Ascii.ascii_of_nat 178) "4") = "K".
Proof. split; vm_compute; reflexivity. Qed.



(** *** The router on the configuration file *)

Lemma find_gate_node_uniform gid n terminals acc :
  (∀ t gate, t ∈ terminals →
     List.find (λ gate, bool_decide (Config.gate_id gate = gid))
               (Config.gates t.2) = Some gate →
     Config.node_id gate = n) →
  acc = None ∨ acc = Some n →
  Pathfinder.find_gate_node gid terminals acc
  = if existsb (λ t : string * Config.Terminal,
                  bool_decide (is_Some
                    (List.find (λ gate, bool_decide (Config.gate_id gate = gid))
                               (Config.gates t.2))))
               terminals
    then Some n else acc.
Proof.
  revert acc. induction terminals as [|t ts IH]; intros acc Hall Hacc; [done|].
  simpl.
  assert (Hts : ∀ t' gate, t' ∈ ts →
            List.find (λ gate, bool_decide (Config.gate_id gate = gid))
                      (Config.gates t'.2) = Some gate →
            Config.node_id gate = n).
  { intros t' gate Ht'. apply Hall. by right. }
  destruct (List.find _ (Config.gates t.2)) as [gate|] eqn:Hfind.
  - rewrite (Hall t gate) by (done || left).
    rewrite bool_decide_eq_true_2 by eauto. simpl.
    destruct (truthy n); [done|]. rewrite IH by auto.
    by destruct (existsb _ ts).
  - rewrite bool_decide_eq_false_2 by (by intros [? ?]). simpl.
    destruct Hacc as [->| ->]; [by apply IH; auto|].
    destruct (truthy n).
    + by destruct (existsb _ ts).
    + by apply IH; auto.
Qed.

Lemma gates_of_terminal_elem gates tid gate :
  gate ∈ gates_of_terminal gates tid →
  ∃ g, (Config.gate_id gate, g) ∈ gates
       ∧ gate = gate_entry (Config.gate_id gate) g
       ∧ terminal_id (Config.gate_id gate) = tid.
Proof.
  unfold gates_of_terminal.
  intros ([k g] & -> & [Htid Hin]%list_elem_of_filter)%list_elem_of_fmap.
  by exists g.
Qed.

Lemma exported_find p gid t gate :
  NoDup (gates p).*1 →
  t ∈ Config.terminals (export_config p) →
  List.find (λ gate, bool_decide (Config.gate_id gate = gid))
            (Config.gates t.2) = Some gate →
  ∃ g, dict_get (gates p) gid = Some g ∧ gate = gate_entry gid g
       ∧ t.1 = terminal_id gid.
Proof.
  intros Hnd Ht Hfind. destruct t as [tid t].
  apply exported_terminal_elem in Ht as [_ ->].
  apply find_some in Hfind as [Hin Hid]. apply bool_decide_eq_true in Hid.
  apply list_elem_of_In in Hin. simpl in Hin.
  apply (proj1 (sorted_gates_elem _ _)) in Hin.
  apply gates_of_terminal_elem in Hin as (g & Hg & Hgate & Htid).
  rewrite Hid in *. exists g. split; [by apply elem_dict_get|]. by split.
Qed.

Lemma exported_find_some p gid g :
  dict_get (gates p) gid = Some g →
  ∃ t, t ∈ Config.terminals (export_config p)
       ∧ is_Some (List.find (λ gate, bool_decide (Config.gate_id gate = gid))
                            (Config.gates t.2)).
Proof.
  intros Hget%dict_get_elem.
  destruct (exported_terminals_spec p) as (_ & _ & Hall).
  destruct (Hall _ Hget) as (t & Ht & Hin). exists (terminal_id gid, t).
  split; [done|]. simpl in *.
  destruct (List.find _ (Config.gates t)) as [gate|] eqn:Hfind; [by eexists|].
  exfalso. apply list_elem_of_In in Hin.
  pose proof (find_none _ _ Hfind _ Hin) as Hno. simpl in Hno.
  by apply bool_decide_eq_false in Hno.
Qed.

Lemma exported_gate_node p gid :
  NoDup (gates p).*1 →
  Pathfinder.find_gate_node gid (Config.terminals (export_config p)) None
  = g_node_id <$> dict_get (gates p) gid.
Proof.
  intros Hnd.
  destruct (dict_get (gates p) gid) as [g|] eqn:Hget; simpl.
  - rewrite (find_gate_node_uniform gid (g_node_id g)); [|
      |by left].
    + destruct (exported_find_some _ _ _ Hget) as (t & Ht & Hsome).
      replace (existsb _ _) with true; [done|]. symmetry.
      apply existsb_exists. exists t. split; [by apply list_elem_of_In|].
      by apply bool_decide_eq_true.
    + intros t gate Ht Hfind.
      destruct (exported_find _ _ _ _ Hnd Ht Hfind) as (g' & Hg' & -> & _).
      rewrite Hget in Hg'. by injection Hg' as <-.
  - rewrite (find_gate_node_uniform gid ""); [| |by left].
    + replace (existsb _ _) with false; [done|]. symmetry.
      apply not_true_is_false. intros (t & Ht & Hsome)%existsb_exists.
      apply bool_decide_eq_true in Hsome as [gate Hfind].
      apply list_elem_of_In in Ht.
      destruct (exported_find _ _ _ _ Hnd Ht Hfind) as (g' & Hg' & _).
      congruence.
    + intros t gate Ht Hfind.
      destruct (exported_find _ _ _ _ Hnd Ht Hfind) as (g' & Hg' & _).
      congruence.
Qed.

(** X15. A router started on the files of a processor finds the gates of
    the index, and only them: a name passes the gate test of
    [validate_movement] exactly when it is a key of [self.gates], and
    the node the router takes for a gate is the node the index
    records for it. *)
Theorem exported_gates_found (p : AirportProcessor) (airport_config gid : string) :
  NoDup (gates p).*1 →
  let self := router_of p airport_config in
  (Pathfinder.known_gate self gid ↔ is_Some (dict_get (gates p) gid))
  ∧ Pathfinder.find_gate_node gid (Config.terminals (Pathfinder.config self)) None
    = g_node_id <$> dict_get (gates p) gid.
Proof.
  intros Hnd. unfold router_of. rewrite RouterFacts.load_data_fields. simpl.
  split; [|by apply exported_gate_node].
  unfold Pathfinder.known_gate. simpl. split.
  - intros (t & gate & Ht & Hgate & Hid).
    destruct t as [tid t]. apply exported_terminal_elem in Ht as [_ ->].
    simpl in Hgate. apply (proj1 (sorted_gates_elem _ _)) in Hgate.
    apply gates_of_terminal_elem in Hgate as (g & Hg & _).
    rewrite Hid in Hg. exists g. by apply elem_dict_get.
  - intros [g Hget]. apply dict_get_elem in Hget.
    destruct (exported_terminals_spec p) as (_ & _ & Hall).
    destruct (Hall _ Hget) as (t & Ht & Hin).
    by exists (terminal_id gid, t), (gate_entry gid g).
Qed.

(** X16. From the classifier to the router: on a processor whose segments
    end at existing nodes the classifier returns, and afterwards the
    name of every parking position that is the only segment of a node
    passes the gate test of a router started on the exported files;
    when the name is not empty that router also holds the segment. *)
Theorem classified_gates_routable (p : AirportProcessor) (airport_config : string) :
  well_formed p →
  ∃ p', _identify_special_nodes p = Returned p'
    ∧ ∀ entry seg, entry ∈ nodes p' → parking_end (segments p') entry.2 seg →
        Pathfinder.known_gate (router_of p' airport_config) (name seg)
        ∧ (name seg ≠ "" →
           taxi_segment seg
           ∈ Pathfinder.all_segments (router_of p' airport_config)).
Proof.
  intros Hwf.
  destruct (ProcessFacts.identify_total p Hwf) as (p' & Hp' & _ & _).
  exists p'. split; [done|]. intros entry seg Hin Hpark. split.
  - destruct (ProcessFacts.identify_marks_gates _ _ Hp' entry seg Hin Hpark)
      as (_ & _ & entry' & seg' & _ & _ & _ & Hget).
    apply dict_get_elem in Hget.
    destruct (exported_terminals_spec p') as (_ & _ & Hall).
    destruct (Hall _ Hget) as (t & Ht & Hgate).
    unfold router_of. rewrite RouterFacts.load_data_fields.
    exists (terminal_id (name seg), t), (gate_entry (name seg) (gate_record_of entry'.2 seg')).
    by split.
  - intros Hname. rewrite exported_segments_spec.
    apply list_elem_of_fmap. exists seg. split; [done|].
    apply list_elem_of_filter. split; [done|].
    destruct Hpark as (sid & _ & Hget & _). apply dict_get_elem in Hget.
    apply list_elem_of_fmap. by exists (sid, seg).
Qed.

(** *** The theorems at work on the examples *)

Lemma example_well_formed : well_formed Examples.unclassified.
Proof.
  split.
  - intros entry Hin. simpl in Hin.
    repeat (apply elem_of_cons in Hin as [->|Hin]); [| |by apply elem_of_nil in Hin];
      split; vm_compute; eauto.
  - intros entry sid Hin Hconn. simpl in Hin.
    repeat (apply elem_of_cons in Hin as [->|Hin]); [| | |by apply elem_of_nil in Hin];
      simpl in Hconn; try discriminate Hconn; injection Hconn as <-;
      vm_compute; eauto.
Defined.

Lemma classified_gates_routable_witness :
  well_formed Examples.unclassified
  ∧ ∃ p', _identify_special_nodes Examples.unclassified = Returned p'
      ∧ ∀ entry seg, entry ∈ nodes p' → parking_end (segments p') entry.2 seg →
          Pathfinder.known_gate (router_of p' "WEST") (name seg)
          ∧ (name seg ≠ "" →
             taxi_segment seg ∈ Pathfinder.all_segments (router_of p' "WEST")).
Proof.
  split; [exact example_well_formed|].
  exact (classified_gates_routable Examples.unclassified "WEST" example_well_formed).
Defined.

Lemma exported_gates_found_witness :
  NoDup (gates Examples.classified).*1
  ∧ (Pathfinder.known_gate (router_of Examples.classified "WEST") "K24"
     ↔ is_Some (dict_get (gates Examples.classified) "K24"))
  ∧ Pathfinder.find_gate_node "K24"
      (Config.terminals (Pathfinder.config (router_of Examples.classified "WEST")))
      None
    = g_node_id <$> dict_get (gates Examples.classified) "K24".
Proof.
  assert (H : NoDup (gates Examples.classified).*1).
  { change ((gates Examples.classified).*1) with ["K24"]. apply NoDup_singleton. }
  split; [exact H|].
  exact (exported_gates_found Examples.classified "WEST" "K24" H).
Defined.

End PipelineFacts.

Module RolesFacts.
Import Process Roles.

Lemma with_node_type_idem n t :
  with_node_type (with_node_type n t) t = with_node_type n t.
Proof. done. Qed.

Lemma marked_marked t guard b1 b2 n :
  marked t guard b2 (marked t guard b1 n) = marked t guard (b1 || b2) n.
Proof.
  unfold marked. destruct b1, b2; simpl; try done.
  destruct (guard n) eqn:Hg; simpl; [|by rewrite Hg].
  by destruct (guard (with_node_type n t)).
Qed.

Lemma mark_step_get t (guard : Node → bool) (nodes : list (string * Node))
    id nodes' k :
  (n ← dict_getitem nodes id;
   Returned (if guard n then dict_set nodes id (with_node_type n t) else nodes))
  = Returned nodes' →
  dict_get nodes' k
  = marked t guard (bool_decide (id = k)) <$> dict_get nodes k.
Proof.
  unfold dict_getitem. destruct (dict_get nodes id) as [n|] eqn:Hn; [|done].
  simpl. intros [= <-]. unfold marked.
  case_bool_decide as Hk; simpl.
  - subst k. rewrite Hn. simpl. destruct (guard n); [|by rewrite Hn].
    by rewrite ProcessFacts.dict_get_set_eq.
  - destruct (guard n).
    + rewrite ProcessFacts.dict_get_set_ne by done. by destruct (dict_get nodes k).
    + by destruct (dict_get nodes k).
Qed.

Lemma option_fmap_marked t guard b1 b2 (o : option Node) :
  marked t guard b2 <$> (marked t guard b1 <$> o)
  = marked t guard (b1 || b2) <$> o.
Proof. destruct o; simpl; [|done]. by rewrite marked_marked. Qed.

Lemma mark_ends_get t guard nodes seg nodes' k :
  mark_ends t guard nodes seg = Returned nodes' →
  dict_get nodes' k = marked t guard (ends_at k seg) <$> dict_get nodes k.
Proof.
  unfold mark_ends. simpl.
  intros (nodes1 & H1 & H2)%bind_returned.
  apply bind_returned in H2 as (nodes2 & H2 & [= <-]).
  rewrite (mark_step_get _ _ _ _ _ k H2), (mark_step_get _ _ _ _ _ k H1).
  by rewrite option_fmap_marked.
Qed.

Lemma marked_untouched t guard (o : option Node) : marked t guard false <$> o = o.
Proof. by destruct o. Qed.

Lemma mark_runway_exits_get p nodes entry nodes' k :
  mark_runway_exits p nodes entry = Returned nodes' →
  dict_get nodes' k
  = marked "runway_exit" (λ _, true)
           (bool_decide (name entry.2 ∈ runway_points p) && ends_at k entry.2)
    <$> dict_get nodes k.
Proof.
  unfold mark_runway_exits. case_bool_decide as Hsel; simpl.
  - apply mark_ends_get.
  - intros [= <-]. by rewrite marked_untouched.
Qed.

Lemma mark_parking_exits_get exits nodes entry nodes' k :
  mark_parking_exits exits nodes entry = Returned nodes' →
  dict_get nodes' k
  = marked "parking_exit" (λ n, bool_decide (node_type n = "intersection"))
           (bool_decide (name entry.2 ∈ exits) && ends_at k entry.2)
    <$> dict_get nodes k.
Proof.
  unfold mark_parking_exits. case_bool_decide as Hsel; simpl.
  - apply mark_ends_get.
  - intros [= <-]. by rewrite marked_untouched.
Qed.

Lemma pass_get t guard (sel : string * Segment → bool)
    (step : list (string * Node) → string * Segment
            → outcome (list (string * Node))) segs nodes nodes' k :
  (∀ nodes entry nodes',
     step nodes entry = Returned nodes' →
     dict_get nodes' k
     = marked t guard (sel entry && ends_at k entry.2) <$> dict_get nodes k) →
  foldl_outcome step nodes segs = Returned nodes' →
  dict_get nodes' k
  = marked t guard (existsb (λ entry, sel entry && ends_at k entry.2) segs)
    <$> dict_get nodes k.
Proof.
  intros Hstep. revert nodes. induction segs as [|entry segs IH]; intros nodes.
  - simpl. intros [= <-]. by rewrite marked_untouched.
  - simpl. intros (nodes1 & H1 & H2)%bind_returned.
    rewrite (IH _ H2), (Hstep _ _ _ H1). by rewrite option_fmap_marked.
Qed.

Lemma mark_gate_get segments acc entry acc' :
  mark_gate segments acc entry = Returned acc' →
  acc'.1 = acc.1 ++ [(entry.1, gated segments entry.2)].
Proof.
  unfold mark_gate, gated, gate_segment, dict_getitem.
  destruct entry as [k n]. simpl.
  destruct (connected_segments n) as [|sid [|]]; try by intros [= <-].
  destruct (dict_get segments sid) as [s|]; [|done]. simpl.
  by case_bool_decide; intros [= <-].
Qed.

Lemma mark_gates_get segments nodes acc acc' :
  foldl_outcome (mark_gate segments) acc nodes = Returned acc' →
  acc'.1 = acc.1 ++ ((λ entry : string * Node,
                        (entry.1, gated segments entry.2)) <$> nodes).
Proof.
  revert acc. induction nodes as [|entry nodes IH]; intros acc.
  - simpl. intros [= <-]. by rewrite app_nil_r.
  - rewrite fmap_cons. simpl. intros (acc1 & H1 & H2)%bind_returned.
    rewrite (IH _ H2), (mark_gate_get _ _ _ _ H1).
    by rewrite <- app_assoc.
Qed.

Lemma identify_get p p' k :
  _identify_special_nodes p = Returned p' →
  dict_get (nodes p') k
  = (λ n, gated (segments p)
            (marked "parking_exit"
               (λ n, bool_decide (node_type n = "intersection"))
               (on_named (parking_exits p) (segments p) k)
               (marked "runway_exit" (λ _, true)
                  (on_named (runway_points p) (segments p) k) n)))
    <$> dict_get (nodes p) k.
Proof.
  unfold _identify_special_nodes.
  intros (nodes1 & H1 & H)%bind_returned.
  apply bind_returned in H as (nodes2 & H2 & H).
  apply bind_returned in H as ([nodes3 gates3] & H3 & [= <-]). simpl.
  apply mark_gates_get in H3. simpl in H3. subst nodes3.
  rewrite (PipelineFacts.dict_get_fmap (gated (segments p))).
  rewrite (pass_get "parking_exit" _
             (λ entry, bool_decide (name entry.2 ∈ parking_exits p))
             _ _ _ _ k (λ nodes entry nodes', mark_parking_exits_get _ nodes entry nodes' k) H2).
  rewrite (pass_get "runway_exit" _
             (λ entry, bool_decide (name entry.2 ∈ runway_points p))
             _ _ _ _ k (λ nodes entry nodes', mark_runway_exits_get p nodes entry nodes' k) H1).
  by destruct (dict_get (nodes p) k).
Qed.

Lemma gated_type segments n :
  node_type (gated segments n)
  = match gate_segment segments n with
    | Some _ => "gate"
    | None => node_type n
    end.
Proof. unfold gated. by destruct (gate_segment segments n). Qed.

Lemma gate_segment_marked segments t guard b n :
  gate_segment segments (marked t guard b n) = gate_segment segments n.
Proof. unfold marked. by destruct (b && guard n). Qed.

(** X17. The type of every node after classification, in closed form. On
    a processor whose segments end at existing nodes the classifier
    returns, and the node stored under a key keeps its id, coordinates
    and incident segments and gets the type: "gate" when its only
    incident segment is a parking position; else "runway_exit" when a
    segment named after a known runway point ends there; else
    "parking_exit" when it was an "intersection" and a segment named
    as an exit taxiway of a parking position ends there; else the type
    it had. *)
Theorem classified_roles (p : AirportProcessor) :
  well_formed p →
  ∃ p', _identify_special_nodes p = Returned p'
    ∧ (nodes p').*1 = (nodes p).*1
    ∧ ∀ k n, dict_get (nodes p) k = Some n →
        ∃ n', dict_get (nodes p') k = Some n'
              ∧ node_type n' = role p k n
              ∧ node_id n' = node_id n
              ∧ coordinates n' = coordinates n
              ∧ connected_segments n' = connected_segments n.
Proof.
  intros Hwf.
  destruct (ProcessFacts.identify_total p Hwf) as (p' & Hp' & Hsk & _).
  exists p'. split; [done|]. split; [by apply ProcessFacts.skeleton_keys|].
  intros k n Hn. rewrite (identify_get _ _ k Hp'), Hn. simpl.
  eexists. split; [done|]. split.
  - rewrite gated_type, !gate_segment_marked. unfold role.
    destruct (gate_segment (segments p) n); [done|].
    unfold marked. simpl.
    destruct (on_named (runway_points p) (segments p) k); simpl.
    + by rewrite andb_false_r.
    + by destruct (on_named (parking_exits p) (segments p) k
                   && bool_decide (node_type n = "intersection")).
  - unfold gated, marked.
    by destruct (gate_segment _ _), (_ && true), (_ && bool_decide _).
Qed.

Lemma classified_roles_witness :
  well_formed Examples.unclassified
  ∧ ∃ p', _identify_special_nodes Examples.unclassified = Returned p'
      ∧ (nodes p').*1 = (nodes Examples.unclassified).*1
      ∧ ∀ k n, dict_get (nodes Examples.unclassified) k = Some n →
          ∃ n', dict_get (nodes p') k = Some n'
                ∧ node_type n' = role Examples.unclassified k n
                ∧ node_id n' = node_id n
                ∧ coordinates n' = coordinates n
                ∧ connected_segments n' = connected_segments n.
Proof.
  split; [exact PipelineFacts.example_well_formed|].
  exact (classified_roles Examples.unclassified PipelineFacts.example_well_formed).
Defined.

End RolesFacts.

Module AssignerFacts.
Import Raising Assigner.

Lemma bind_answer {A B} (m : answer A) (f : A → answer B) b :
  m ≫= f = Done b → ∃ a, m = Done a ∧ f a = Done b.
Proof. destruct m; simpl; [eauto|done..]. Qed.

Lemma choice_elem {A} r (seq : list A) a : choice r seq = Done a → a ∈ seq.
Proof.
  unfold choice. destruct (seq !! _) as [a'|] eqn:E; [|done].
  intros [= <-]. by eapply list_elem_of_lookup_2.
Qed.

Lemma choice_total {A} r (seq : list A) :
  seq ≠ [] → ∃ a, choice r seq = Done a.
Proof.
  intros Hne. unfold choice.
  destruct (lookup_lt_is_Some_2 seq (r mod List.length seq)) as [a Ha].
  - apply Nat.mod_upper_bound. by destruct seq.
  - rewrite Ha. by eexists.
Qed.

Lemma free_gates_elem exclude_gates terminal gate :
  gate ∈ free_gates exclude_gates terminal
  ↔ gate ∈ Config.gates terminal
    ∧ (Config.gate_id gate ∉ default [] exclude_gates).
Proof.
  unfold free_gates. rewrite list_elem_of_In, filter_In, <- list_elem_of_In.
  by rewrite negb_true_iff, bool_decide_eq_false.
Qed.

Lemma is_allowed_terminal_spec exclude_terminals tid :
  is_allowed_terminal exclude_terminals tid = true
  ↔ tid ∉ default [] exclude_terminals.
Proof.
  unfold is_allowed_terminal. by rewrite negb_true_iff, bool_decide_eq_false.
Qed.

Lemma preferred_gates_elem self pref exclude_gates exclude_terminals gate :
  gate ∈ preferred_gates self pref exclude_gates exclude_terminals
  ↔ ∃ tid terminal,
      given pref = Some tid
      ∧ dict_get (Config.terminals (config self)) tid = Some terminal
      ∧ gate ∈ Config.gates terminal
      ∧ (tid ∉ default [] exclude_terminals)
      ∧ (Config.gate_id gate ∉ default [] exclude_gates).
Proof.
  unfold preferred_gates. split.
  - destruct (given pref) as [tid|]; [|by intros ?%elem_of_nil].
    destruct (is_allowed_terminal _ tid) eqn:Hal; [|by intros ?%elem_of_nil].
    apply is_allowed_terminal_spec in Hal.
    destruct (dict_get _ tid) as [t|] eqn:Ht; [|by intros ?%elem_of_nil].
    intros [Hin Hfree]%free_gates_elem. by exists tid, t.
  - intros (tid & t & -> & Ht & Hin & Hal & Hfree).
    apply is_allowed_terminal_spec in Hal. rewrite Hal, Ht.
    by apply free_gates_elem.
Qed.

Lemma all_free_gates_elem self exclude_gates exclude_terminals gate :
  gate ∈ all_free_gates self exclude_gates exclude_terminals
  ↔ eligible self exclude_gates exclude_terminals gate.
Proof.
  unfold all_free_gates, eligible.
  induction (Config.terminals (config self)) as [|entry l IH] using rev_ind.
  - simpl. split; [by intros ?%elem_of_nil|].
    by intros (? & ? & ?%elem_of_nil & _).
  - rewrite foldl_snoc.
    destruct (is_allowed_terminal exclude_terminals entry.1) eqn:Hal.
    + rewrite elem_of_app, IH, free_gates_elem.
      apply is_allowed_terminal_spec in Hal. split.
      * intros [(tid & t & Hin & ?)|[Hg Hfree]].
        -- exists tid, t. split; [|done]. apply elem_of_app. by left.
        -- exists entry.1, entry.2. split; [|done].
           apply elem_of_app. right. destruct entry. left.
      * intros (tid & t & [Hin|Hin%list_elem_of_singleton]%elem_of_app & Hg & Ht & Hfree).
        -- left. by exists tid, t.
        -- right. by subst entry.
    + rewrite IH. apply not_true_iff_false in Hal.
      rewrite is_allowed_terminal_spec in Hal. split.
      * intros (tid & t & Hin & ?). exists tid, t. split; [|done].
        apply elem_of_app. by left.
      * intros (tid & t & [Hin|Hin%list_elem_of_singleton]%elem_of_app & Hg & Ht & Hfree).
        -- by exists tid, t.
        -- subst entry. done.
Qed.

Lemma preferred_eligible self pref exclude_gates exclude_terminals gate :
  gate ∈ preferred_gates self pref exclude_gates exclude_terminals →
  eligible self exclude_gates exclude_terminals gate.
Proof.
  intros (tid & t & _ & Ht & Hin & Hal & Hfree)%preferred_gates_elem.
  exists tid, t. split; [|done]. by apply PipelineFacts.dict_get_elem.
Qed.

Lemma get_gate_by_id_elem self gid gate :
  get_gate_by_id self gid = Some gate →
  ∃ terminal,
    dict_get (Config.terminals (config self)) (Process.terminal_id gid)
    = Some terminal
    ∧ gate ∈ Config.gates terminal ∧ Config.gate_id gate = gid.
Proof.
  unfold get_gate_by_id. destruct (dict_get _ _) as [t|]; [|done].
  intros [Hin Hid]%find_some. exists t. split; [done|].
  split; [by apply list_elem_of_In|]. by apply bool_decide_eq_true in Hid.
Qed.

Lemma find_gate_eligible self r specific_gate terminal_preference
    exclude_gates exclude_terminals gate :
  find_gate self r specific_gate terminal_preference
            exclude_gates exclude_terminals = Done (Some gate) →
  eligible self exclude_gates exclude_terminals gate
  ∧ ∀ requested, given specific_gate = Some requested →
      Config.gate_id gate = requested.
Proof.
  unfold find_gate. destruct (given specific_gate) as [sg|].
  - destruct (get_gate_by_id self sg) as [g|] eqn:Hg; [|done].
    destruct (is_allowed_terminal _ _) eqn:Hal; [|done]. simpl.
    case_bool_decide as Hex; [done|]. intros [= ->].
    apply get_gate_by_id_elem in Hg as (t & Ht & Hin & Hid).
    apply is_allowed_terminal_spec in Hal. split.
    + exists (Process.terminal_id sg), t.
      split; [by apply PipelineFacts.dict_get_elem|]. by rewrite Hid.
    + by intros ? [= <-].
  - intros H. split; [|done].
    destruct (preferred_gates _ _ _ _) as [|g0 l0] eqn:Hpref.
    + destruct (all_free_gates _ _ _) as [|g1 l1] eqn:Hall; [done|].
      apply bind_answer in H as (g & Hg%choice_elem & [= ->]).
      apply all_free_gates_elem. by rewrite Hall.
    + apply bind_answer in H as (g & Hg%choice_elem & [= ->]).
      apply (preferred_eligible self terminal_preference). by rewrite Hpref.
Qed.

(** X18. A gate [find_gate] returns is never excluded: it is a gate of a
    terminal of the configuration that is not in [exclude_terminals],
    its id is not in [exclude_gates], and it is the requested gate when
    one was requested. *)
Theorem find_gate_respects_exclusions self r specific_gate terminal_preference
    exclude_gates exclude_terminals gate :
  find_gate self r specific_gate terminal_preference
            exclude_gates exclude_terminals = Done (Some gate) →
  eligible self exclude_gates exclude_terminals gate
  ∧ ∀ requested, given specific_gate = Some requested →
      Config.gate_id gate = requested.
Proof. apply find_gate_eligible. Qed.

(** X19. Without a requested gate [find_gate] never raises, and it
    returns a gate whenever one is eligible: the answer is [None] only
    when every gate of every terminal is excluded, by its id or by its
    terminal. *)
Theorem find_gate_finds self r specific_gate terminal_preference
    exclude_gates exclude_terminals :
  given specific_gate = None →
  ∃ o, find_gate self r specific_gate terminal_preference
                 exclude_gates exclude_terminals = Done o
       ∧ (o = None ↔ ∀ gate, ¬ eligible self exclude_gates exclude_terminals gate).
Proof.
  intros Hsg. unfold find_gate. rewrite Hsg.
  destruct (preferred_gates _ _ _ _) as [|g0 l0] eqn:Hpref.
  - destruct (all_free_gates _ _ _) as [|g1 l1] eqn:Hall.
    + exists None. split; [done|]. split; [|done]. intros _ gate Hel.
      apply all_free_gates_elem in Hel. rewrite Hall in Hel.
      by apply elem_of_nil in Hel.
    + destruct (choice_total r (g1 :: l1)) as [g Hg]; [done|].
      rewrite Hg. simpl. exists (Some g). split; [done|]. split; [done|].
      intros Hno. exfalso. apply (Hno g1), all_free_gates_elem.
      rewrite Hall. left.
  - destruct (choice_total r (g0 :: l0)) as [g Hg]; [done|].
    rewrite Hg. simpl. exists (Some g). split; [done|]. split; [done|].
    intros Hno. exfalso.
    apply (Hno g0), (preferred_eligible self terminal_preference).
    rewrite Hpref. left.
Qed.

(** X20. The terminal preference is honoured: when no gate is requested
    and the preferred terminal is allowed and has a gate that is not
    excluded, the gate [find_gate] returns is a gate of that
    terminal. *)
Theorem preference_honoured self r specific_gate preferred exclude_gates
    exclude_terminals terminal gate0 gate :
  given specific_gate = None →
  truthy preferred = true →
  preferred ∉ default [] exclude_terminals →
  dict_get (Config.terminals (config self)) preferred = Some terminal →
  gate0 ∈ Config.gates terminal →
  Config.gate_id gate0 ∉ default [] exclude_gates →
  find_gate self r specific_gate (Some preferred)
            exclude_gates exclude_terminals = Done (Some gate) →
  gate ∈ Config.gates terminal
  ∧ Config.gate_id gate ∉ default [] exclude_gates.
Proof.
  intros Hsg Hpref Hal Ht Hin0 Hfree0. unfold find_gate. rewrite Hsg.
  assert (Hgiven : given (Some preferred) = Some preferred)
    by (simpl; by rewrite Hpref).
  assert (H0 : gate0 ∈ preferred_gates self (Some preferred)
                         exclude_gates exclude_terminals).
  { apply preferred_gates_elem. by exists preferred, terminal. }
  destruct (preferred_gates _ _ _ _) as [|g0 l0] eqn:Hp;
    [by apply elem_of_nil in H0|].
  intros (g & Hg%choice_elem & [= ->])%bind_answer.
  rewrite <- Hp in Hg.
  apply preferred_gates_elem in Hg as (tid & t & Htid & Ht' & Hin & _ & Hfree).
  rewrite Hgiven in Htid. injection Htid as <-.
  rewrite Ht in Ht'. by injection Ht' as <-.
Qed.

(** X21. Round trip through the configuration file: on the document
    [export_config] writes, [get_gate_by_id] returns for an id exactly
    the gate the index records under it, with its node, coordinates,
    heading and segment, and [None] for any other name. *)
Theorem exported_gate_by_id (p : Process.AirportProcessor) (gate_id : string) :
  NoDup (Process.gates p).*1 →
  get_gate_by_id {| config := Process.export_config p |} gate_id
  = Process.gate_entry gate_id <$> dict_get (Process.gates p) gate_id.
Proof.
  intros Hnd. unfold get_gate_by_id.
  cbn [config].
  destruct (dict_get (Config.terminals (Process.export_config p))
                     (Process.terminal_id gate_id)) as [t|] eqn:Ht.
  - apply PipelineFacts.dict_get_elem in Ht.
    destruct (List.find _ (Config.gates t)) as [gate|] eqn:Hfind.
    + destruct (PipelineFacts.exported_find p gate_id (_, t) gate Hnd Ht Hfind)
        as (g & -> & -> & _). done.
    + destruct (dict_get (Process.gates p) gate_id) as [g|] eqn:Hg; [|done].
      exfalso. apply PipelineFacts.dict_get_elem in Hg.
      destruct (PipelineFacts.exported_terminals_spec p) as (Hkeys & _ & Hall).
      destruct (Hall _ Hg) as (t' & Ht' & Hin). simpl in *.
      assert (t' = t) as ->.
      { apply (PipelineFacts.elem_dict_get _ _ _ Hkeys) in Ht, Ht'. congruence. }
      apply list_elem_of_In in Hin.
      pose proof (find_none _ _ Hfind _ Hin) as Hno. simpl in Hno.
      by apply bool_decide_eq_false in Hno.
  - destruct (dict_get (Process.gates p) gate_id) as [g|] eqn:Hg; [|done].
    exfalso. apply PipelineFacts.dict_get_elem in Hg.
    destruct (PipelineFacts.exported_terminals_spec p) as (Hkeys & _ & Hall).
    destruct (Hall _ Hg) as (t' & Ht' & _). simpl in Ht'.
    apply (PipelineFacts.elem_dict_get _ _ _ Hkeys) in Ht'. congruence.
Qed.

Lemma joinable_pairs points :
  Forall Pathfinder.pair_shaped points → points ≠ [] → joinable points = false.
Proof.
  intros H Hne. destruct H as [|p l Hp _]; [done|]. by destruct p.
Qed.

Lemma point_is_pairs sp points :
  Forall Pathfinder.pair_shaped points → existsb (point_is sp) points = false.
Proof.
  induction 1 as [|p l Hp _ IH]; [done|]. simpl. rewrite IH. by destruct p.
Qed.

(** X22. The assigner cannot be asked for a runway point on a
    configuration the router reads: when the entrances (for a
    departure) or exits (for an arrival) are name/node pairs and there
    is at least one, [find_runway_point] with a specific point raises
    [TypeError], whatever the point. *)
Theorem specific_point_on_pairs r (cfg : string * Config.RunwayConfiguration)
    (is_departure : bool) specific_point :
  let valid_points :=
    if is_departure then Config.entrances cfg.2 else Config.exits cfg.2 in
  Forall Pathfinder.pair_shaped valid_points →
  valid_points ≠ [] →
  truthy specific_point = true →
  find_runway_point r cfg is_departure (Some specific_point) = Fails TypeError.
Proof.
  intros valid_points Hpairs Hne Hsp. unfold find_runway_point. simpl.
  rewrite Hsp. fold valid_points.
  by rewrite point_is_pairs, joinable_pairs.
Qed.

(** X23. [assign_positions] assigns both positions or neither: the dict
    it returns has a gate exactly when it has a runway point; its
    movement type is the one asked for and its configuration is one of
    the document, the requested one if one was requested; and a gate
    it assigns is never excluded. *)
Theorem assignment_all_or_nothing self r1 r2 r3 movement_type config_direction
    specific_gate specific_runway_point terminal_preference
    exclude_gates exclude_terminals a :
  assign_positions self r1 r2 r3 movement_type config_direction specific_gate
    specific_runway_point terminal_preference exclude_gates exclude_terminals
  = Done a →
  (is_Some (a_gate a) ↔ is_Some (a_runway_point a))
  ∧ a_movement_type a = movement_type
  ∧ dict_get (Config.runway_configurations (config self)) (a_config a).1
    = Some (a_config a).2
  ∧ (∀ direction, given config_direction = Some direction →
       (a_config a).1 = direction)
  ∧ (∀ gate, a_gate a = Some gate →
       eligible self exclude_gates exclude_terminals gate).
Proof.
  unfold assign_positions.
  intros (cfg & Hcfg & H)%bind_answer.
  apply bind_answer in H as (gate & Hgate & H).
  apply bind_answer in H as (point & Hpoint & H).
  assert (Hc : dict_get (Config.runway_configurations (config self)) cfg.1
               = Some cfg.2
               ∧ ∀ direction, given config_direction = Some direction →
                   cfg.1 = direction).
  { unfold get_config in Hcfg. destruct (given config_direction) as [d|].
    - destruct (dict_get _ d) as [c|] eqn:Hd; [|done].
      injection Hcfg as <-. split; [done|]. by intros ? [= <-].
    - apply bind_answer in Hcfg as (n & _ & Hcfg).
      destruct (dict_get _ n) as [c|] eqn:Hd; [|done].
      injection Hcfg as <-. by split. }
  destruct Hc as [Hc1 Hc2].
  destruct (bool_decide (is_Some gate) && point_given point) eqn:Hboth;
    injection H as <-; simpl.
  - apply andb_true_iff in Hboth as [Hg%bool_decide_eq_true Hp].
    split; [|split; [done|split; [done|split; [done|]]]].
    + split; [|done]. intros _. by destruct point.
    + intros g ->.
      by apply (find_gate_eligible _ _ _ _ _ _ _ Hgate).
  - split; [|split; [done|split; [done|split; [done|done]]]].
    split; by intros [? ?].
Qed.

(** *** The theorems at work on the examples *)

Lemma find_gate_respects_exclusions_witness :
  find_gate on_router_document 0 None (Some "K") (Some ["K24"]) None
  = Done (Some (Examples.gate "K25" "N4" "S4"))
  ∧ eligible on_router_document (Some ["K24"]) None
             (Examples.gate "K25" "N4" "S4")
  ∧ ∀ requested, given None = Some requested →
      Config.gate_id (Examples.gate "K25" "N4" "S4") = requested.
Proof.
  assert (H : find_gate on_router_document 0 None (Some "K") (Some ["K24"]) None
              = Done (Some (Examples.gate "K25" "N4" "S4")))
    by (vm_compute; reflexivity).
  split; [exact H|].
  exact (find_gate_respects_exclusions _ _ _ _ _ _ _ H).
Defined.

Lemma find_gate_finds_witness :
  given None = None
  ∧ ∃ o, find_gate on_router_document 3 None None (Some ["K24"]) None = Done o
         ∧ (o = None
            ↔ ∀ gate, ¬ eligible on_router_document (Some ["K24"]) None gate).
Proof.
  split; [reflexivity|].
  exact (find_gate_finds on_router_document 3 None None (Some ["K24"]) None
           eq_refl).
Defined.

Lemma preference_honoured_witness :
  find_gate on_router_document 0 None (Some "K") (Some ["K24"]) None
  = Done (Some (Examples.gate "K25" "N4" "S4"))
  ∧ Examples.gate "K25" "N4" "S4"
    ∈ [Examples.gate "K24" "N0" "S0"; Examples.gate "K25" "N4" "S4"]
  ∧ Config.gate_id (Examples.gate "K25" "N4" "S4") ∉ default [] (Some ["K24"]).
Proof.
  assert (H : find_gate on_router_document 0 None (Some "K") (Some ["K24"]) None
              = Done (Some (Examples.gate "K25" "N4" "S4")))
    by (vm_compute; reflexivity).
  assert (Hfree : Config.gate_id (Examples.gate "K25" "N4" "S4")
                  ∉ default [] (Some ["K24"])).
  { simpl. by intros [?|?%elem_of_nil]%elem_of_cons. }
  split; [exact H|].
  exact (preference_honoured on_router_document 0 None "K" (Some ["K24"]) None
           {| Config.gates := [Examples.gate "K24" "N0" "S0";
                               Examples.gate "K25" "N4" "S4"] |}
           (Examples.gate "K25" "N4" "S4") (Examples.gate "K25" "N4" "S4")
           eq_refl eq_refl (not_elem_of_nil "K") eq_refl
           (list_elem_of_further _ _ _ (list_elem_of_here _ _)) Hfree H).
Defined.

Lemma exported_gate_by_id_witness :
  NoDup (Process.gates Examples.classified).*1
  ∧ get_gate_by_id on_exported_document "K24"
    = Process.gate_entry "K24"
        <$> dict_get (Process.gates Examples.classified) "K24".
Proof.
  assert (H : NoDup (Process.gates Examples.classified).*1).
  { change ((Process.gates Examples.classified).*1) with ["K24"].
    apply NoDup_singleton. }
  split; [exact H|]. exact (exported_gate_by_id Examples.classified "K24" H).
Defined.

Lemma specific_point_on_pairs_witness :
  Forall Pathfinder.pair_shaped [Config.NameNode "W37" "N3"]
  ∧ find_runway_point 0
      ("WEST", {| Config.departure := "24"; Config.arrival := "25";
                  Config.entrances := [Config.NameNode "W37" "N3"];
                  Config.exits := [Config.NameNode "W37" "N3"];
                  Config.alternates := ("06", "07") |})
      true (Some "W37")
    = Fails TypeError.
Proof.
  assert (H : Forall Pathfinder.pair_shaped [Config.NameNode "W37" "N3"])
    by (by repeat constructor).
  split; [exact H|].
  exact (specific_point_on_pairs 0
           ("WEST", {| Config.departure := "24"; Config.arrival := "25";
                       Config.entrances := [Config.NameNode "W37" "N3"];
                       Config.exits := [Config.NameNode "W37" "N3"];
                       Config.alternates := ("06", "07") |})
           true "W37" H ltac:(discriminate) eq_refl).
Defined.

Lemma assignment_all_or_nothing_witness :
  ∃ a, assign_positions on_exported_document 0 0 0 "departure" (Some "WEST")
         None None None None None = Done a
       ∧ (is_Some (a_gate a) ↔ is_Some (a_runway_point a))
       ∧ a_movement_type a = "departure"
       ∧ dict_get (Config.runway_configurations (config on_exported_document))
                  (a_config a).1 = Some (a_config a).2
       ∧ (∀ direction, given (Some "WEST") = Some direction →
            (a_config a).1 = direction)
       ∧ (∀ gate, a_gate a = Some gate →
            eligible on_exported_document None None gate).
Proof.
  destruct (assign_positions on_exported_document 0 0 0 "departure" (Some "WEST")
              None None None None None) as [a|e|] eqn:H.
  - exists a. split; [reflexivity|].
    exact (assignment_all_or_nothing _ _ _ _ _ _ _ _ _ _ _ _ H).
  - exfalso. vm_compute in H. discriminate H.
  - exfalso. vm_compute in H. discriminate H.
Defined.

End AssignerFacts.

Module SegmenterFacts.
Import Process Segmenter.

Lemma foldl_outcome_preserves {A B} (P : A → Prop) (f : A → B → outcome A) l :
  (∀ a x a', P a → f a x = Returned a' → P a') →
  ∀ a a', P a → foldl_outcome f a l = Returned a' → P a'.
Proof.
  intros Hf. induction l as [|x l IH]; intros a a' Ha; simpl.
  - by intros [= <-].
  - intros (a1 & H1 & H2)%bind_returned. apply (IH a1); [|done].
    by apply (Hf a x).
Qed.

(** *** The geometry of a segment *)

Lemma argmin_from_lt best_i best_key i keys :
  best_i < i → argmin_from best_i best_key i keys < i + List.length keys.
Proof.
  revert best_i best_key i. induction keys as [|k keys IH]; intros bi bk i Hlt.
  - simpl. lia.
  - simpl. destruct (k <? bk)%float.
    + specialize (IH i k (S i)). lia.
    + specialize (IH bi bk (S i)). lia.
Qed.

Lemma argmin_lt keys :
  keys ≠ [] → ∃ i, argmin keys = Returned i ∧ i < List.length keys.
Proof.
  destruct keys as [|k keys]; [done|]. intros _. eexists. split; [done|].
  simpl. pose proof (argmin_from_lt 0 k 1 keys). lia.
Qed.

Lemma slice_inside (coords : list (float * float)) lo hi :
  lo ≤ hi < List.length coords →
  coords = take lo coords ++ slice coords lo hi ++ drop (S hi) coords
  ∧ slice coords lo hi ≠ [].
Proof.
  intros Hb. unfold slice. split.
  - rewrite <- (take_drop lo coords) at 1. f_equal.
    rewrite <- (take_drop (S hi - lo) (drop lo coords)) at 1. f_equal.
    rewrite drop_drop. f_equal. lia.
  - intros Hnil. apply (f_equal List.length) in Hnil.
    rewrite length_take, length_drop in Hnil. simpl in Hnil. lia.
Qed.

Section Geometry.

Variable distance : float * float → float * float → float.

(** X24. The geometry of a segment is a piece of its line: on an empty
    line [_extract_segment_geometry] raises [ValueError]; otherwise it
    returns a non-empty run of consecutive vertices of the line, in
    the direction of the line, and the same run when the two points
    are exchanged. *)
Theorem extracted_geometry (coords : list (float * float)) (a b : float * float) :
  (coords = [] →
   _extract_segment_geometry distance coords a b = Raised ValueError)
  ∧ (coords ≠ [] →
     ∃ before geometry after,
       _extract_segment_geometry distance coords a b = Returned geometry
       ∧ _extract_segment_geometry distance coords b a = Returned geometry
       ∧ coords = before ++ geometry ++ after
       ∧ geometry ≠ []).
Proof.
  split; [by intros ->|]. intros Hne. unfold _extract_segment_geometry.
  destruct (argmin_lt ((λ c, distance c a) <$> coords)) as (i & -> & Hi);
    [by destruct coords|].
  destruct (argmin_lt ((λ c, distance c b) <$> coords)) as (j & -> & Hj);
    [by destruct coords|].
  rewrite length_fmap in Hi, Hj. simpl.
  destruct (Nat.ltb_spec j i) as [Hji|Hij].
  - destruct (slice_inside coords j i) as [Hc Hg]; [lia|].
    eexists _, _, _. split; [done|]. split; [|done].
    destruct (Nat.ltb_spec i j); [lia|done].
  - destruct (slice_inside coords i j) as [Hc Hg]; [lia|].
    eexists _, _, _. split; [done|]. split; [|done].
    destruct (Nat.ltb_spec i j) as [Hlt|Hge]; [done|].
    by replace j with i by lia.
Qed.

(** *** The loop over the points of a line *)

Variable geodesic : float * float → float * float → outcome float.
Variable bearing : float → float → float.

Lemma dict_set_elem {V} (d : list (string * V)) k v entry :
  entry ∈ dict_set d k v → entry = (k, v) ∨ entry ∈ d.
Proof.
  induction d as [|[k' v'] d IH]; simpl.
  - intros ->%list_elem_of_singleton. by left.
  - destruct (decide (k = k')) as [->|Hne].
    + intros [->|Hin]%elem_of_cons; [by left|]. right. by right.
    + intros [->|Hin]%elem_of_cons; [right; left|].
      destruct (IH Hin) as [->|Hd]; [by left|]. right. by right.
Qed.

Lemma dict_set_keys_incl {V} (d : list (string * V)) k v k' :
  k' ∈ d.*1 → k' ∈ (dict_set d k v).*1.
Proof.
  rewrite PipelineFacts.dict_set_keys. destruct (decide (k ∈ d.*1)); [done|].
  intros Hin. apply elem_of_app. by left.
Qed.

Lemma dict_set_keys_new {V} (d : list (string * V)) k v :
  k ∈ (dict_set d k v).*1.
Proof.
  apply ProcessFacts.dict_get_is_Some. rewrite ProcessFacts.dict_get_set_eq.
  by eexists.
Qed.

Lemma append_segment_spec nodes ref sid nodes' :
  append_segment nodes ref sid = Returned nodes' →
  ∃ n, dict_get nodes ref = Some n
       ∧ nodes' = dict_set nodes ref (with_segments n [sid])
       ∧ nodes'.*1 = nodes.*1
       ∧ ∀ k, dict_get nodes' k
              = (λ n, with_segments n (if decide (ref = k) then [sid] else []))
                <$> dict_get nodes k.
Proof.
  unfold append_segment, dict_getitem.
  destruct (dict_get nodes ref) as [n|] eqn:Hn; [|done]. simpl.
  intros [= <-]. exists n. split; [done|]. split; [done|]. split.
  - rewrite PipelineFacts.dict_set_keys. rewrite decide_True; [done|].
    apply ProcessFacts.dict_get_is_Some. by eexists.
  - intros k. destruct (decide (ref = k)) as [->|Hne].
    + by rewrite ProcessFacts.dict_get_set_eq, Hn.
    + rewrite ProcessFacts.dict_get_set_ne by done.
      destruct (dict_get nodes k) as [[]|]; simpl; [|done].
      unfold with_segments. simpl. by rewrite app_nil_r.
Qed.

Lemma with_segments_app n l1 l2 :
  with_segments (with_segments n l1) l2 = with_segments n (l1 ++ l2).
Proof. unfold with_segments. simpl. by rewrite <- app_assoc. Qed.

Lemma link_spec line props self pair self' :
  link distance geodesic bearing line props self pair = Returned self' →
  ∃ n1 n2 seg,
    dict_get (nodes self) pair.1 = Some n1
    ∧ dict_get (nodes self) pair.2 = Some n2
    ∧ segment_id seg = format_id "S" (List.length (segments self))
    ∧ start_node seg = node_id n1
    ∧ end_node seg = node_id n2
    ∧ name seg = segment_name props
    ∧ segment_type seg = segment_kind props
    ∧ segments self' = dict_set (segments self) (segment_id seg) seg
    ∧ (nodes self').*1 = (nodes self).*1
    ∧ (∀ k, dict_get (nodes self') k
            = (λ n, with_segments n
                      ((if decide (pair.1 = k) then [segment_id seg] else [])
                       ++ (if decide (pair.2 = k) then [segment_id seg] else [])))
              <$> dict_get (nodes self) k)
    ∧ (∀ entry, entry ∈ nodes self' →
         entry ∈ nodes self
         ∨ ∃ n sids, (entry.1, n) ∈ nodes self
                     ∧ entry.2 = with_segments n sids
                     ∧ ∀ sid, sid ∈ sids → sid = segment_id seg)
    ∧ config_data self' = config_data self
    ∧ gates self' = gates self
    ∧ runway_points self' = runway_points self.
Proof.
  unfold link, dict_getitem.
  destruct (dict_get (nodes self) pair.1) as [n1|] eqn:H1; [|done].
  destruct (dict_get (nodes self) pair.2) as [n2|] eqn:H2; [|done]. simpl.
  intros (geometry & _ & H)%bind_returned.
  apply bind_returned in H as (len & _ & H).
  apply bind_returned in H as (nodes1 & Ha1 & H).
  apply bind_returned in H as (nodes2 & Ha2 & [= <-]).
  set (seg := make_segment self props n1 n2 geometry len
                           (_calculate_heading bearing geometry)) in *.
  apply append_segment_spec in Ha1 as (m1 & Hm1 & Hn1 & Hk1 & Hg1).
  apply append_segment_spec in Ha2 as (m2 & Hm2 & Hn2 & Hk2 & Hg2).
  exists n1, n2, seg. simpl.
  repeat (split; [done|]). split; [congruence|]. split; [|split; [|done]].
  - intros k. rewrite Hg2, Hg1.
    destruct (dict_get (nodes self) k); simpl; [|done].
    by rewrite with_segments_app.
  - intros entry Hin. subst nodes2.
    apply dict_set_elem in Hin as [->|Hin].
    + subst nodes1. rewrite Hg1 in Hm2.
      destruct (dict_get (nodes self) pair.2) as [m|] eqn:Hm; [|done].
      injection H2 as ->. simpl in Hm2. injection Hm2 as <-.
      right. exists n2, ((if decide (pair.1 = pair.2)
                          then [segment_id seg] else []) ++ [segment_id seg]).
      split; [by apply PipelineFacts.dict_get_elem|].
      split; [by rewrite with_segments_app|].
      intros sid [Hs|Hs%list_elem_of_singleton]%elem_of_app; [|done].
      destruct (decide _); [by apply list_elem_of_singleton in Hs|].
      by apply elem_of_nil in Hs.
    + subst nodes1. apply dict_set_elem in Hin as [->|Hin]; [|by left].
      rewrite H1 in Hm1. injection Hm1 as <-.
      right. exists n1, [segment_id seg].
      split; [by apply PipelineFacts.dict_get_elem|]. split; [done|].
      by intros sid ->%list_elem_of_singleton.
Qed.

Lemma link_linked line props self pair self' :
  keyed self → linked self →
  link distance geodesic bearing line props self pair = Returned self' →
  keyed self' ∧ linked self'.
Proof.
  intros Hkeyed [Hsegs Hnodes] Hlink.
  destruct (link_spec _ _ _ _ _ Hlink)
    as (n1 & n2 & seg & H1 & H2 & Hid & Hs & He & _ & _ & Hsegs' & Hkeys
        & Hget & Helem & _).
  split; [|split].
  - intros k n'. rewrite Hget.
    destruct (dict_get (nodes self) k) as [n|] eqn:Hn; [|done].
    intros [= <-]. simpl. by apply Hkeyed.
  - intros entry. rewrite Hsegs', Hkeys.
    intros [->|Hin]%dict_set_elem; [|by apply Hsegs]. simpl.
    rewrite Hs, He, (Hkeyed _ _ H1), (Hkeyed _ _ H2).
    split; apply ProcessFacts.dict_get_is_Some; by eexists.
  - intros entry sid Hin Hsid. rewrite Hsegs'.
    destruct (Helem _ Hin) as [Hold|(n & sids & Hn & Hentry & Hsids)].
    + apply dict_set_keys_incl. by apply (Hnodes entry).
    + rewrite Hentry in Hsid. simpl in Hsid.
      apply elem_of_app in Hsid as [Hsid|Hsid].
      * apply dict_set_keys_incl. by apply (Hnodes (entry.1, n)).
      * rewrite (Hsids _ Hsid). apply dict_set_keys_new.
Qed.

Lemma link_points_linked line props on_line self self' :
  keyed self → linked self →
  link_points distance geodesic bearing self line props on_line
    = Returned self' →
  keyed self' ∧ linked self'.
Proof.
  unfold link_points. intros Hk Hl.
  apply (foldl_outcome_preserves (λ p, keyed p ∧ linked p)); [|done].
  intros p pair p' [Hk' Hl']. by apply link_linked.
Qed.

Lemma link_lines_linked lines self self' :
  keyed self → linked self →
  link_lines distance geodesic bearing self lines = Returned self' →
  keyed self' ∧ linked self'.
Proof.
  unfold link_lines. intros Hk Hl.
  apply (foldl_outcome_preserves (λ p, keyed p ∧ linked p)); [|done].
  intros p entry p' [Hk' Hl']. by apply link_points_linked.
Qed.

Lemma linked_well_formed p : linked p → well_formed p.
Proof.
  intros [Hsegs Hnodes]. split.
  - intros entry Hin. destruct (Hsegs _ Hin).
    by rewrite !ProcessFacts.dict_get_is_Some.
  - intros entry sid Hin Hconn. apply ProcessFacts.dict_get_is_Some.
    apply (Hnodes entry); [done|]. rewrite Hconn. left.
Qed.

(** X25. The loop "Create segments" leaves a network the classifier can
    run on: from a processor whose nodes are stored under their ids,
    whose segments end at stored nodes and whose nodes list stored
    segments (at first there is no segment), the loop over the lines,
    when it returns, keeps all that true, and
    [_identify_special_nodes] then returns without a [KeyError]. *)
Theorem linked_network_classifies lines self self' :
  keyed self → linked self →
  link_lines distance geodesic bearing self lines = Returned self' →
  keyed self' ∧ linked self' ∧ well_formed self'
  ∧ ∃ classified, _identify_special_nodes self' = Returned classified.
Proof.
  intros Hk Hl Hrun.
  destruct (link_lines_linked _ _ _ Hk Hl Hrun) as [Hk' Hl'].
  split; [done|]. split; [done|].
  pose proof (linked_well_formed _ Hl') as Hwf. split; [done|].
  destruct (ProcessFacts.identify_total _ Hwf) as (p' & Hp' & _). by exists p'.
Qed.

Lemma numbered_fresh p :
  numbered p → format_id "S" (List.length (segments p)) ∉ (segments p).*1.
Proof.
  intros Hnum (entry & Hkey & Hin)%list_elem_of_fmap.
  apply list_elem_of_lookup in Hin as [i Hi].
  destruct (Hnum _ _ Hi) as [Hid _]. apply lookup_lt_Some in Hi.
  rewrite Hid in Hkey. apply IndexerFacts.format_id_inj in Hkey. lia.
Qed.

Lemma with_segments_nil n : with_segments n [] = n.
Proof. destruct n. unfold with_segments. simpl. by rewrite app_nil_r. Qed.

Lemma link_numbered line props self pair self' :
  numbered self → keyed self →
  link distance geodesic bearing line props self pair = Returned self' →
  ∃ seg,
    segments self'
    = segments self ++ [(format_id "S" (List.length (segments self)), seg)]
    ∧ segment_id seg = format_id "S" (List.length (segments self))
    ∧ start_node seg = pair.1 ∧ end_node seg = pair.2
    ∧ name seg = segment_name props ∧ segment_type seg = segment_kind props
    ∧ numbered self' ∧ keyed self'
    ∧ (nodes self').*1 = (nodes self).*1
    ∧ ∀ k n, dict_get (nodes self) k = Some n →
        dict_get (nodes self') k
        = Some (with_segments n
                  (incident k [(format_id "S" (List.length (segments self)), seg)])).
Proof.
  intros Hnum Hkeyed Hlink.
  destruct (link_spec _ _ _ _ _ Hlink)
    as (n1 & n2 & seg & H1 & H2 & Hid & Hs & He & Hname & Htype & Hsegs' & Hkeys
        & Hget & _).
  exists seg. rewrite Hsegs', Hid.
  rewrite IndexerFacts.dict_set_fresh by (by apply numbered_fresh).
  split; [done|]. split; [done|].
  rewrite Hs, He, (Hkeyed _ _ H1), (Hkeyed _ _ H2).
  repeat (split; [done|]). split; [|split; [|split; [done|]]].
  - intros i entry Hi. rewrite Hsegs', Hid in Hi.
    rewrite IndexerFacts.dict_set_fresh in Hi by (by apply numbered_fresh).
    apply lookup_app_Some in Hi as [Hi|[Hge Hi]]; [by apply Hnum|].
    apply list_lookup_singleton_Some in Hi as [Hz <-]. simpl.
    split; [|done]. f_equal. lia.
  - intros k n'. rewrite Hget.
    destruct (dict_get (nodes self) k) as [n|] eqn:Hn; [|done].
    intros [= <-]. simpl. by apply Hkeyed.
  - intros k n Hn. rewrite Hget, Hn. simpl. f_equal. f_equal.
    unfold incident. simpl. rewrite app_nil_r.
    rewrite Hs, He, (Hkeyed _ _ H1), (Hkeyed _ _ H2), Hid. done.
Qed.

Lemma incident_cons k entry new :
  incident k (entry :: new) = incident k [entry] ++ incident k new.
Proof. unfold incident. rewrite !bind_cons. simpl. by rewrite app_nil_r. Qed.

Lemma link_all_numbered line props pairs self self' :
  numbered self → keyed self →
  foldl_outcome (link distance geodesic bearing line props) self pairs
    = Returned self' →
  ∃ new,
    segments self' = segments self ++ new
    ∧ List.length new = List.length pairs
    ∧ (∀ i entry, new !! i = Some entry →
         ∃ pair, pairs !! i = Some pair
           ∧ entry.1 = format_id "S" (List.length (segments self) + i)
           ∧ segment_id entry.2 = entry.1
           ∧ start_node entry.2 = pair.1 ∧ end_node entry.2 = pair.2
           ∧ name entry.2 = segment_name props
           ∧ segment_type entry.2 = segment_kind props)
    ∧ numbered self' ∧ keyed self'
    ∧ (nodes self').*1 = (nodes self).*1
    ∧ ∀ k n, dict_get (nodes self) k = Some n →
        dict_get (nodes self') k = Some (with_segments n (incident k new)).
Proof.
  revert self. induction pairs as [|pair pairs IH]; intros self Hnum Hkeyed.
  - simpl. intros [= <-]. exists []. rewrite app_nil_r.
    split; [done|]. split; [done|]. split; [by intros i entry ?|].
    split; [done|]. split; [done|]. split; [done|].
    intros k n Hn. unfold incident. simpl. by rewrite with_segments_nil.
  - simpl. intros (self1 & Hlink & Hrest)%bind_returned.
    destruct (link_numbered _ _ _ _ _ Hnum Hkeyed Hlink)
      as (seg & Hsegs1 & Hid & Hs & He & Hname & Htype & Hnum1 & Hkeyed1
          & Hkeys1 & Hget1).
    destruct (IH _ Hnum1 Hkeyed1 Hrest)
      as (new & Hsegs & Hlen & Hnew & Hnum' & Hkeyed' & Hkeys & Hget).
    exists ((format_id "S" (List.length (segments self)), seg) :: new).
    split; [by rewrite Hsegs, Hsegs1, <- app_assoc|].
    split; [simpl; by rewrite Hlen|].
    split; [|split; [done|split; [done|split; [congruence|]]]].
    + intros [|i] entry Hi; simpl in Hi.
      * injection Hi as <-. exists pair. simpl. rewrite Nat.add_0_r. by repeat split.
      * destruct (Hnew _ _ Hi) as (pair' & Hp & Hk & Hrest').
        exists pair'. split; [done|]. split; [|done].
        rewrite Hk, Hsegs1, length_app. simpl. f_equal. lia.
    + intros k n Hn. rewrite (Hget k _ (Hget1 k n Hn)).
      by rewrite with_segments_app, <- incident_cons.
Qed.

Lemma zip_tail_lookup {A} (l : list A) i a b :
  zip l (tail l) !! i = Some (a, b) ↔ l !! i = Some a ∧ l !! S i = Some b.
Proof.
  rewrite lookup_zip_with_Some. rewrite lookup_tail. split.
  - by intros (x & y & [= -> ->] & Hx & Hy).
  - intros [Hx Hy]. by exists a, b.
Qed.

Lemma zip_tail_length {A} (l : list A) :
  List.length (zip l (tail l)) = List.length l - 1.
Proof.
  rewrite length_zip_with. destruct l as [|a l]; [done|].
  change (tail (a :: l)) with l. cbn [List.length]. lia.
Qed.

(** X26. What the loop of [_create_segments] adds for one line with the
    nodes [on_line]: one segment for each pair of consecutive nodes,
    from the one to the next, with the type and name of the line's
    tags, numbered on from the segments already there; no node is added
    or removed, and each node gets, at the end of its
    [connected_segments], the ids of the new segments that start or end
    at it, in order, and is otherwise unchanged. *)
Theorem line_segments_chain line props on_line self self' :
  numbered self → keyed self →
  link_points distance geodesic bearing self line props on_line
    = Returned self' →
  ∃ new,
    segments self' = segments self ++ new
    ∧ List.length new = List.length on_line - 1
    ∧ (∀ i entry, new !! i = Some entry →
         entry.1 = format_id "S" (List.length (segments self) + i)
         ∧ segment_id entry.2 = entry.1
         ∧ on_line !! i = Some (start_node entry.2)
         ∧ on_line !! S i = Some (end_node entry.2)
         ∧ name entry.2 = segment_name props
         ∧ segment_type entry.2 = segment_kind props)
    ∧ (nodes self').*1 = (nodes self).*1
    ∧ ∀ k n, dict_get (nodes self) k = Some n →
        dict_get (nodes self') k = Some (with_segments n (incident k new)).
Proof.
  intros Hnum Hkeyed Hrun. unfold link_points in Hrun.
  destruct (link_all_numbered _ _ _ _ _ Hnum Hkeyed Hrun)
    as (new & Hsegs & Hlen & Hnew & _ & _ & Hkeys & Hget).
  exists new. split; [done|]. split.
  { rewrite Hlen. apply zip_tail_length. }
  split; [|done].
  intros i entry Hi.
  destruct (Hnew _ _ Hi) as ([a b] & Hp & Hk & Hid & Hs & He & Hname & Htype).
  apply zip_tail_lookup in Hp as [Ha Hb]. simpl in *.
  rewrite Hs, He. by repeat split.
Qed.

End Geometry.

(** *** The theorems at work on a straight line *)

Lemma fresh_keyed : keyed (fresh three_nodes).
Proof.
  intros k n. unfold fresh, three_nodes. simpl.
  repeat (destruct (decide _); [by intros [= <-]|]). done.
Qed.

Lemma fresh_linked : linked (fresh three_nodes).
Proof.
  split.
  - by intros entry ?%elem_of_nil.
  - intros entry sid Hin Hsid. simpl in Hin.
    repeat (apply elem_of_cons in Hin as [->|Hin];
            [by apply elem_of_nil in Hsid|]).
    by apply elem_of_nil in Hin.
Qed.

Lemma fresh_numbered : numbered (fresh three_nodes).
Proof. by intros i entry ?. Qed.

Lemma linked_network_classifies_witness :
  keyed (fresh three_nodes) ∧ linked (fresh three_nodes)
  ∧ ∃ self',
      link_lines flat_distance flat_geodesic no_bearing (fresh three_nodes)
        [(straight, taxiway_tags, ["N00000"; "N00001"; "N00002"])]
      = Returned self'
      ∧ keyed self' ∧ linked self' ∧ well_formed self'
      ∧ ∃ classified, _identify_special_nodes self' = Returned classified.
Proof.
  split; [exact fresh_keyed|]. split; [exact fresh_linked|].
  destruct (link_lines flat_distance flat_geodesic no_bearing (fresh three_nodes)
              [(straight, taxiway_tags, ["N00000"; "N00001"; "N00002"])])
    as [self'|e|] eqn:H.
  - exists self'. split; [reflexivity|].
    exact (linked_network_classifies _ _ _ _ _ _ fresh_keyed fresh_linked H).
  - exfalso. vm_compute in H. discriminate H.
  - exfalso. vm_compute in H. discriminate H.
Defined.

Lemma line_segments_chain_witness :
  numbered (fresh three_nodes) ∧ keyed (fresh three_nodes)
  ∧ ∃ self',
      link_points flat_distance flat_geodesic no_bearing (fresh three_nodes)
        straight taxiway_tags ["N00000"; "N00001"; "N00002"]
      = Returned self'
      ∧ ∃ new,
          segments self' = segments (fresh three_nodes) ++ new
          ∧ List.length new = 2
          ∧ (nodes self').*1 = (nodes (fresh three_nodes)).*1.
Proof.
  split; [exact fresh_numbered|]. split; [exact fresh_keyed|].
  destruct (link_points flat_distance flat_geodesic no_bearing (fresh three_nodes)
              straight taxiway_tags ["N00000"; "N00001"; "N00002"])
    as [self'|e|] eqn:H.
  - exists self'. split; [reflexivity|].
    destruct (line_segments_chain _ _ _ _ _ _ _ _ fresh_numbered fresh_keyed H)
      as (new & Hsegs & Hlen & _ & Hkeys & _).
    exists new. split; [exact Hsegs|]. split; [exact Hlen|exact Hkeys].
  - exfalso. vm_compute in H. discriminate H.
  - exfalso. vm_compute in H. discriminate H.
Defined.

End SegmenterFacts.

(** ** The order of binary64 numbers *)
Module FloatOrder.

Import SpecFloat Physics.

Lemma SFcompare_antisym a b :
  SFcompare b a = CompOpp <$> SFcompare a b.
Proof.
  destruct a as [[]|[]| |[] ma ea], b as [[]|[]| |[] mb eb]; simpl; try done;
    rewrite (Z.compare_antisym ea eb);
    destruct (ea ?= eb)%Z; simpl; try done;
    change (PosDef.Pos.compare_cont Eq mb ma) with (Pos.compare mb ma);
    change (PosDef.Pos.compare_cont Eq ma mb) with (Pos.compare ma mb);
    rewrite (Pos.compare_antisym ma mb);
    by destruct (Pos.compare ma mb).
Qed.

Lemma SFcompare_refl a : a ≠ S754_nan → SFcompare a a = Some Eq.
Proof.
  destruct a as [[]|[]| |[] m e]; simpl; try done; intros _;
    rewrite Z.compare_refl;
    change (PosDef.Pos.compare_cont Eq m m) with (Pos.compare m m);
    by rewrite Pos.compare_refl.
Qed.

Lemma SFcompare_ordered a b c :
  SFcompare a b = Some c → a ≠ S754_nan ∧ b ≠ S754_nan.
Proof. by destruct a as [[]|[]| |[] ? ?], b as [[]|[]| |[] ? ?]. Qed.

Lemma SFcompare_total a b :
  a ≠ S754_nan → b ≠ S754_nan → is_Some (SFcompare a b).
Proof. destruct a as [[]|[]| |[] ? ?], b as [[]|[]| |[] ? ?]; by eauto. Qed.

(** The order on finite numbers with the same sign is the
    lexicographic order of exponent and mantissa. *)
Lemma SFleb_trans a b c :
  SFleb a b = true → SFleb b c = true → SFleb a c = true.
Proof.
  unfold SFleb.
  destruct a as [[]|[]| |[] ma ea], b as [[]|[]| |[] mb eb],
           c as [[]|[]| |[] mc ec]; simpl; try done;
    change (PosDef.Pos.compare_cont Eq) with Pos.compare;
    destruct (Z.compare_spec ea eb), (Z.compare_spec eb ec),
             (Z.compare_spec ea ec); simpl; try done; try lia;
    destruct (Pos.compare_spec ma mb), (Pos.compare_spec mb mc),
             (Pos.compare_spec ma mc); simpl; try done; try lia.
Qed.

Lemma float_ltb_leb (a b : float) : (a <? b)%float = true → (a <=? b)%float = true.
Proof.
  rewrite FloatAxioms.ltb_spec, FloatAxioms.leb_spec. unfold SFltb, SFleb.
  by destruct (SFcompare _ _) as [[]|].
Qed.

Lemma float_leb_ordered (a b : float) :
  (a <=? b)%float = true → ordered a ∧ ordered b.
Proof.
  rewrite FloatAxioms.leb_spec. unfold SFleb, ordered.
  destruct (SFcompare _ _) as [c|] eqn:E; [|done]. intros _.
  by apply SFcompare_ordered in E.
Qed.

Lemma float_ltb_ordered (a b : float) :
  (a <? b)%float = true → ordered a ∧ ordered b.
Proof. intros H%float_ltb_leb. by apply float_leb_ordered. Qed.

Lemma float_leb_refl (a : float) : ordered a → (a <=? a)%float = true.
Proof.
  intros Ha. rewrite FloatAxioms.leb_spec. unfold SFleb.
  by rewrite SFcompare_refl.
Qed.

Lemma float_not_ltb_leb (a b : float) :
  ordered a → ordered b → (a <? b)%float = false → (b <=? a)%float = true.
Proof.
  intros Ha Hb. rewrite FloatAxioms.ltb_spec, FloatAxioms.leb_spec.
  unfold SFltb, SFleb. rewrite (SFcompare_antisym (FloatOps.Prim2SF a)).
  destruct (SFcompare_total _ _ Ha Hb) as [c ->]. by destruct c.
Qed.

Lemma float_leb_trans (a b c : float) :
  (a <=? b)%float = true → (b <=? c)%float = true → (a <=? c)%float = true.
Proof. rewrite !FloatAxioms.leb_spec. apply SFleb_trans. Qed.

Lemma float_opp_leb_zero (d : float) :
  (0 <=? d)%float = true → (- d <=? 0)%float = true.
Proof.
  rewrite !FloatAxioms.leb_spec, FloatAxioms.opp_spec.
  change (FloatOps.Prim2SF 0) with (S754_zero false).
  by destruct (FloatOps.Prim2SF d) as [[]|[]| |[] ? ?].
Qed.

End FloatOrder.

Module PhysicsFacts.
Import Raising Physics FloatOrder.

Lemma bind_done {A B} (m : answer A) (f : A → answer B) b :
  m ≫= f = Done b → ∃ a, m = Done a ∧ f a = Done b.
Proof. destruct m; simpl; [eauto|done..]. Qed.

Lemma min2_le_left a b : ordered a → le (min2 a b) a.
Proof.
  intros Ha. unfold min2, le. destruct (b <? a)%float eqn:E.
  - by apply float_ltb_leb.
  - by apply float_leb_refl.
Qed.

Lemma min2_le_right a b : ordered b → le (min2 a b) b ∨ min2 a b = a.
Proof.
  intros Hb. unfold min2, le. destruct (b <? a)%float eqn:E; [|by right].
  left. by apply float_leb_refl.
Qed.



Section Power.

Variable squared : float → answer float.

Lemma calculate_acceleration_bound self desired_speed distance_to_stop a :
  le 0 (max_acceleration (aircraft_type self)) →
  le 0 (max_deceleration (aircraft_type self)) →
  calculate_acceleration squared self desired_speed distance_to_stop = Done a →
  le a (max_acceleration (aircraft_type self)).
Proof.
  intros HA HD. unfold calculate_acceleration.
  set (sd := (desired_speed * knot - current_speed self)%float).
  set (A := max_acceleration (aircraft_type self)) in *.
  set (D := max_deceleration (aircraft_type self)) in *.
  destruct (float_leb_ordered _ _ HA) as [H0 HAo].
  destruct (0 <? sd)%float eqn:Hsd.
  - intros (m & Hm & [= <-])%bind_done.
    assert (Hle : le m A).
    { destruct distance_to_stop as [d|].
      - apply bind_done in Hm as (sq & _ & Hm).
        apply bind_done in Hm as (stop & _ & Hm).
        destruct (d <? stop)%float.
        + apply bind_done in Hm as (limit & _ & [= <-]).
          by apply min2_le_left.
        + injection Hm as <-. by apply float_leb_refl.
      - injection Hm as <-. by apply float_leb_refl. }
    unfold min2, le. destruct (sd <? m)%float eqn:E; [|done].
    apply (float_leb_trans _ m); [by apply float_ltb_leb|done].
  - intros [= <-]. unfold max2, le.
    destruct (- D <? sd)%float eqn:E.
    + apply (float_leb_trans _ 0); [|done].
      apply float_not_ltb_leb; [done| |done]. by apply float_ltb_ordered in E as [_ ?].
    + apply (float_leb_trans _ 0); [|done]. by apply float_opp_leb_zero.
Qed.

(** X28. The acceleration never exceeds what the aircraft can do: for an
    aircraft type whose maximum acceleration and deceleration are
    numbers not below 0, whatever [calculate_acceleration] returns is
    at most [max_acceleration], for any target speed and any distance
    to stop. *)
Theorem acceleration_bounded self desired_speed distance_to_stop a :
  le 0 (max_acceleration (aircraft_type self)) →
  le 0 (max_deceleration (aircraft_type self)) →
  calculate_acceleration squared self desired_speed distance_to_stop = Done a →
  le a (max_acceleration (aircraft_type self)).
Proof. apply calculate_acceleration_bound. Qed.

End Power.


Lemma acceleration_bounded_witness :
  le 0 (max_acceleration (aircraft_type rolling))
  ∧ le 0 (max_deceleration (aircraft_type rolling))
  ∧ calculate_acceleration product rolling 20 None = Done 1%float
  ∧ le 1 (max_acceleration (aircraft_type rolling)).
Proof.
  assert (HA : le 0 (max_acceleration (aircraft_type rolling)))
    by (vm_compute; reflexivity).
  assert (HD : le 0 (max_deceleration (aircraft_type rolling)))
    by (vm_compute; reflexivity).
  assert (H : calculate_acceleration product rolling 20 None = Done 1%float)
    by (vm_compute; reflexivity).
  split; [exact HA|]. split; [exact HD|]. split; [exact H|].
  exact (acceleration_bounded product rolling 20 None 1 HA HD H).
Defined.

End PhysicsFacts.

Module MovementFacts.
Import Raising Physics Movement.

(** *** The constraints of the segments *)

Lemma at_index_lookup {A} (l : list A) (i : nat) a :
  l !! i = Some a → at_index l (Z.of_nat i) = Done a.
Proof.
  intros H. unfold at_index.
  destruct (Z.ltb_spec (Z.of_nat i) 0) as [Hneg|Hpos]; [lia|].
  destruct (Z.ltb_spec (Z.of_nat i) 0) as [Hneg'|_]; [lia|].
  by rewrite Nat2Z.id, H.
Qed.

Lemma constrain_from_spec self constraints i rest :
  i ≤ List.length (Pathfinder.segments (path self)) →
  drop i (Pathfinder.segments (path self)) = rest →
  (∀ sid, sid ∈ take i (Pathfinder.segments (path self)) →
          constrained self constraints i sid) →
  (∀ sid, sid ∈ rest → is_Some (segments self !! sid)) →
  ∃ constraints',
    constrain_from self constraints i rest = Done constraints'
    ∧ ∀ sid, sid ∈ Pathfinder.segments (path self) →
        constrained self constraints'
          (List.length (Pathfinder.segments (path self))) sid.
Proof.
  revert constraints i. induction rest as [|sid rest IH];
    intros constraints i Hle Hdrop Hdone Hrest.
  - exists constraints. split; [done|].
    assert (Hlen : i = List.length (Pathfinder.segments (path self))).
    { apply (f_equal List.length) in Hdrop. rewrite length_drop in Hdrop.
      simpl in Hdrop. lia. }
    subst i. intros sid Hin. apply Hdone. by rewrite take_ge.
  - assert (Hi : (Pathfinder.segments (path self)) !! i = Some sid).
    { rewrite <- (Nat.add_0_r i), <- lookup_drop, Hdrop. done. }
    assert (Hdrop' : drop (S i) (Pathfinder.segments (path self)) = rest).
    { rewrite <- (Nat.add_1_r i), <- drop_drop, Hdrop. done. }
    destruct (Hrest sid) as [segment Hseg]; [left|].
    simpl. unfold constrain, item. rewrite Hseg. simpl.
    assert (Hprev : ∃ previous_exit,
              (if bool_decide (0 < i) then
                 previous ← at_index (Pathfinder.segments (path self)) (Z.of_nat i - 1);
                 c ← match constraints !! previous with
                     | Some v => Done v
                     | None => Fails KeyError
                     end;
                 Done (exit_speed c)
               else Done (base_max_speed_of (aircraft self) segment))
              = Done previous_exit).
    { case_bool_decide as Hpos; [|by eexists].
      destruct (lookup_lt_is_Some_2 (Pathfinder.segments (path self)) (i - 1)) as [previous Hp].
      { apply lookup_lt_Some in Hi. lia. }
      replace (Z.of_nat i - 1)%Z with (Z.of_nat (i - 1)) by lia.
      rewrite (at_index_lookup _ _ _ Hp). simpl.
      destruct (Hdone previous) as (seg' & c' & _ & -> & _).
      { apply list_elem_of_lookup. exists (i - 1).
        rewrite lookup_take_lt by lia. done. }
      by eexists. }
    destruct Hprev as [previous_exit Hprev]. rewrite Hprev. simpl.
    apply IH; [by apply lookup_lt_Some in Hi|done| |].
    + intros sid' Hin.
      rewrite (take_S_r _ _ _ Hi) in Hin.
      assert (Hlt : i < List.length (Pathfinder.segments (path self))) by (by apply lookup_lt_Some in Hi).
      destruct (decide (sid' = sid)) as [->|Hne].
      * exists segment, {| max_speed := base_max_speed_of (aircraft self) segment;
                          entry_speed := min2 (base_max_speed_of (aircraft self) segment)
                                              previous_exit;
                          exit_speed := if is_last (path self) i then 0%float
                                        else base_max_speed_of (aircraft self) segment;
                          length := Pathfinder.length segment |}.
        rewrite lookup_insert_eq. repeat (split; [done|]). simpl.
        unfold is_last.
        destruct (decide (S i = List.length (Pathfinder.segments (path self)))) as [Hend|Hnot].
        -- rewrite bool_decide_eq_true_2 by lia.
           rewrite bool_decide_eq_true_2; [done|]. split; [done|].
           rewrite last_lookup. rewrite <- Hend. done.
        -- rewrite bool_decide_eq_false_2 by lia.
           by rewrite bool_decide_eq_false_2 by (intros [? _]; done).
      * apply elem_of_app in Hin as [Hin|Hin%list_elem_of_singleton]; [|done].
        destruct (Hdone _ Hin) as (seg' & c' & Hs & Hc & Hl & Hm & He).
        exists seg', c'. rewrite lookup_insert_ne by done.
        repeat (split; [done|]). rewrite He.
        rewrite bool_decide_eq_false_2 by (intros [? _]; lia).
        clear He. rewrite bool_decide_eq_false_2; [done|].
        intros [Hend Hlast].
        rewrite last_lookup, <- Hend in Hlast. simpl in Hlast.
        rewrite Hi in Hlast. by injection Hlast as ->.
    + intros sid' Hin. apply Hrest. by right.
Qed.

(** X29. The constraints of a movement are kept per segment id: when
    every segment of the path is known, the constructor returns, and
    each segment of the path has one record, with the length of the
    segment, the base speed of its type (the taxi speed of the aircraft,
    times 1.2 on a runway, times 1.1 on a taxiway whose name contains
    "rapid"), and an exit speed of 0 if it is the last segment of the
    path and the base speed otherwise, also when the path visits it
    more than once. *)
Theorem constraints_per_segment taxi_path aircraft segments :
  (∀ sid, sid ∈ Pathfinder.segments taxi_path → is_Some (segments !! sid)) →
  ∃ m, TaxiMovement_init taxi_path aircraft segments = Done m
    ∧ path m = taxi_path
    ∧ Movement.aircraft m = aircraft
    ∧ Movement.segments m = segments
    ∧ movement_points m = []
    ∧ ∀ sid, sid ∈ Pathfinder.segments taxi_path →
        ∃ segment c,
          segments !! sid = Some segment
          ∧ segment_constraints m !! sid = Some c
          ∧ length c = Pathfinder.length segment
          ∧ max_speed c = base_max_speed_of aircraft segment
          ∧ exit_speed c
            = if bool_decide (last (Pathfinder.segments taxi_path) = Some sid)
              then 0%float else max_speed c.
Proof.
  intros Hall. unfold TaxiMovement_init, _calculate_segment_constraints.
  set (self := {| path := taxi_path; aircraft := aircraft; segments := segments;
                  movement_points := []; segment_constraints := ∅ |}).
  destruct (constrain_from_spec self ∅ 0 (Pathfinder.segments taxi_path))
    as (constraints & Hrun & Hdone).
  - simpl. lia.
  - done.
  - by intros sid ?%elem_of_nil.
  - done.
  - simpl in *. rewrite Hrun. simpl. eexists. split; [done|]. simpl.
    repeat (split; [done|]). intros sid Hin.
    destruct (Hdone sid Hin) as (segment & c & Hs & Hc & Hl & Hm & He).
    exists segment, c. repeat (split; [done|]). rewrite He.
    destruct (decide (last (Pathfinder.segments taxi_path) = Some sid)).
    + by rewrite !bool_decide_eq_true_2.
    + rewrite !bool_decide_eq_false_2; [done..|]. by intros [_ ?].
Qed.

Lemma constraints_per_segment_witness :
  (∀ sid, sid ∈ Pathfinder.segments Examples.far_end_path →
          is_Some (stub_segments !! sid))
  ∧ ∃ m, TaxiMovement_init Examples.far_end_path (AircraftPhysics_init a320)
                           stub_segments = Done m
      ∧ path m = Examples.far_end_path.
Proof.
  assert (H : ∀ sid, sid ∈ Pathfinder.segments Examples.far_end_path →
                     is_Some (stub_segments !! sid)).
  { intros sid Hin. simpl in Hin.
    repeat (apply elem_of_cons in Hin as [->|Hin]; [vm_compute; eauto|]).
    by apply elem_of_nil in Hin. }
  split; [exact H|].
  destruct (constraints_per_segment Examples.far_end_path
              (AircraftPhysics_init a320) stub_segments H)
    as (m & Hm & Hpath & _).
  exists m. split; [exact Hm|exact Hpath].
Defined.

Section Power.

Variable squared : float → answer float.

Lemma step_raises time_step i sid segment constraints st st' :
  step squared time_step i sid segment constraints st ≠ Done st'.
Proof.
  unfold step. intros (progress & _ & H)%PhysicsFacts.bind_done.
  apply PhysicsFacts.bind_done in H as (acceleration & _ & H).
  destruct (update_speed _ _ _) as [new_speed aircraft'].
  by apply PhysicsFacts.bind_done in H as (point & Hpoint & _).
Qed.

Lemma along_done fuel time_step i sid segment constraints st st' :
  along squared fuel time_step i sid segment constraints st = Done st' →
  (position_in_segment st <? length constraints)%float = false ∧ st' = st.
Proof.
  destruct fuel as [|fuel]; simpl;
    destruct (_ <? _)%float eqn:E; try done.
  - by intros [= <-].
  - intros (st1 & Hstep & _)%PhysicsFacts.bind_done.
    by apply step_raises in Hstep.
  - by intros [= <-].
Qed.

Lemma traverse_done fuel time_step st i sid st' :
  traverse squared fuel time_step st i sid = Done st' →
  skipped (self_ st) sid ∧ self_ st' = self_ st.
Proof.
  unfold traverse, item, skipped.
  destruct (segments (self_ st) !! sid) as [segment|]; [|done]. simpl.
  destruct (segment_constraints (self_ st) !! sid) as [c|]; [|done]. simpl.
  intros (st1 & [Hcond ->]%along_done & [= <-])%PhysicsFacts.bind_done.
  simpl in *. split; [|done]. split; [by eexists|]. by exists c.
Qed.

Lemma traverse_from_done fuel time_step st i rest st' :
  traverse_from squared fuel time_step st i rest = Done st' →
  self_ st' = self_ st ∧ ∀ sid, sid ∈ rest → skipped (self_ st) sid.
Proof.
  revert st i. induction rest as [|sid rest IH]; intros st i; simpl.
  - intros [= <-]. split; [done|]. by intros sid ?%elem_of_nil.
  - intros (st1 & [Hskip Hself]%traverse_done & Hrest)%PhysicsFacts.bind_done.
    destruct (IH _ _ Hrest) as [Hself' Hall]. split; [congruence|].
    intros sid' [->|Hin]%elem_of_cons; [done|].
    rewrite <- Hself. by apply Hall.
Qed.

Lemma along_skipped fuel time_step i sid segment constraints st :
  (position_in_segment st <? length constraints)%float = false →
  along squared fuel time_step i sid segment constraints st = Done st.
Proof. intros H. destruct fuel; simpl; by rewrite H. Qed.

Lemma traverse_from_skipped fuel time_step st i rest :
  (∀ sid, sid ∈ rest → skipped (self_ st) sid) →
  ∃ st', traverse_from squared fuel time_step st i rest = Done st'
         ∧ self_ st' = self_ st.
Proof.
  revert st i. induction rest as [|sid rest IH]; intros st i Hall; simpl.
  - by exists st.
  - destruct (Hall sid) as ([segment Hs] & c & Hc & Hlen); [left|].
    unfold traverse, item. rewrite Hs, Hc. simpl.
    rewrite along_skipped by done. simpl.
    match goal with
    | |- ∃ st', traverse_from _ _ _ ?st1 _ _ = _ ∧ _ =>
        destruct (IH st1 (S i)) as (st' & Hrun & Hself)
    end.
    + simpl. intros sid' Hin. apply Hall. by right.
    + exists st'. by split.
Qed.

(** X30. [calculate_movement_profile] records no movement point: the
    constructor call in its loop leaves out the field [heading], so
    the first iteration of the [while] loop raises. What the method
    returns is the empty list, and it returns exactly when every
    segment of the path is there with constraints and has a length that
    is not above 0; the object is then unchanged but for its emptied
    [movement_points]. *)
Theorem profile_is_never_built fuel self time_step :
  (∀ points self',
     calculate_movement_profile squared fuel self time_step
       = Done (points, self') →
     points = [] ∧ self' = cleared self
     ∧ ∀ sid, sid ∈ Pathfinder.segments (path self) → skipped self sid)
  ∧ ((∀ sid, sid ∈ Pathfinder.segments (path self) → skipped self sid) →
     calculate_movement_profile squared fuel self time_step
     = Done ([], cleared self)).
Proof.
  unfold calculate_movement_profile. fold (cleared self). split.
  - intros points self' (st & Hrun & [= <- <-])%PhysicsFacts.bind_done.
    apply traverse_from_done in Hrun as [-> Hall]. simpl in *. done.
  - intros Hall.
    edestruct (traverse_from_skipped fuel time_step) as (st' & -> & Hself);
      [|simpl; by rewrite Hself].
    done.
Qed.

End Power.

(** On the path of the design document the first iteration raises. *)
Lemma profile_raises_on_far_end :
  (m ← TaxiMovement_init Examples.far_end_path (AircraftPhysics_init a320)
                         stub_segments;
   calculate_movement_profile product 5 m 1)
  = Fails TypeError.
Proof. vm_compute. reflexivity. Qed.

End MovementFacts.
